(** * The CPU VDF streamer (vdf/src/c_bindings/streamer.cpp)

    A shallow embedding of the C binding layer of the class-group VDF
    engine: the byte codec of proofs, the Fiat-Shamir challenge, the worker
    loop with its checkpoints, the start entry points, the status query,
    the Wesolowski prover and verifier.

    Integers of GMP ([integer], [mpz_t]) are [Z]; [uint64_t] values are [Z]
    with the wrap-around written as [u64]; byte buffers are [list byte];
    a pointer argument that may be null is an [option]. *)

From Stdlib Require Import ZArith QArith List Lia Bool.
From coqutil Require Import Byte.
From Bignums Require Import BigZ.
Import ListNotations.
Local Open Scope Z_scope.

(** ** Machine integers *)

Definition u64 (x : Z) : Z := x mod 2 ^ 64.
Definition u8 (x : Z) : Z := x mod 2 ^ 8.

(** [int seed]: a 32-bit two's complement value. *)
Definition s32 (x : Z) : Z := (x + 2 ^ 31) mod 2 ^ 32 - 2 ^ 31.

(** ** GMP byte import and export

    Every call in the file uses order = 1 (most significant first), size = 1,
    so words are bytes. *)

(** [mpz_import(rop, count, 1, 1, 0, 0, op)]: the unsigned big-endian value
    of [count] bytes. *)
Definition mpz_import (bs : list byte) : Z :=
  fold_left (fun acc b => acc * 256 + byte.unsigned b) bs 0.

(** The [n] low bytes of [v], most significant first: the loop
    [for (int i = n-1; i >= 0; i--) push_back((v >> (i * 8)) & 0xFF)]. *)
Fixpoint be_bytes (n : nat) (v : Z) : list byte :=
  match n with
  | O => []
  | S k => byte.of_Z (Z.land (Z.shiftr v (Z.of_nat k * 8)) 255) :: be_bytes k v
  end.

(** The number of bytes [mpz_export] writes (its [countp]): none for zero,
    otherwise the bytes up to the most significant non-zero one. *)
Definition mpz_export_count (z : Z) : nat :=
  if z =? 0 then O else Z.to_nat (Z.log2 (Z.abs z) / 8 + 1).

(** [mpz_export(buf, &count, 1, 1, 0, 0, op)]: the magnitude of [op], the
    sign is not written. *)
Definition mpz_export (z : Z) : list byte :=
  be_bytes (mpz_export_count z) (Z.abs z).

(** ** Forms and the class-group library (vdf.h)

    [form] is the three-coefficient quadratic form of vdf.h; a default
    constructed form has all coefficients zero. *)

Module Form.
Record t := mk { a : Z; b : Z; c : Z }.
Definition zero : t := mk 0 0 0.
Definition eqb (f g : t) : bool :=
  (a f =? a g) && (b f =? b g) && (c f =? c g).
End Form.
Abbreviation form := Form.t.

(** The operations streamer.cpp takes from vdf.h and GMP without defining
    them. The streamer is verified against this interface. *)
Class VdfLib : Type := {
  (** [form::generator(D)] *)
  generator : Z -> form;
  (** [square(f)] *)
  square : form -> form;
  (** [FastPowFormNucomp(x, D, e, L, reducer)]; the reducer is scratch space *)
  FastPowFormNucomp : form -> Z -> Z -> Z -> form;
  (** [f * g] *)
  form_mul : form -> form -> form;
  (** [f.check_valid(D)] *)
  check_valid : form -> Z -> bool;
  (** [root(n, k)] *)
  root : Z -> Z -> Z;
  (** [generate_discriminant(bits, seed)] *)
  generate_discriminant : Z -> Z -> Z;
  (** [mpz_probab_prime_p(n, reps)]: 0 when [n] is composite *)
  mpz_probab_prime_p : Z -> Z -> Z
}.

(** ** The hash helper (lines 78-91)

    [h] is a [uint8_t]: after each assignment it is reduced modulo 256. *)

Definition sha256_step (i : Z) (st : Z * Z) (d : byte) : Z * Z :=
  let '(h, j) := st in
  let h1 := u8 (Z.lxor h (byte.unsigned d + i + j)) in
  let h2 := u8 (Z.lor (Z.shiftl h1 1) (Z.shiftr h1 7)) in
  (h2, j + 1).

Definition sha256_byte (data : list byte) (i : Z) : byte :=
  byte.of_Z (fst (fold_left (sha256_step i) data (u8 i, 0))).

Definition sha256 (data : list byte) : list byte :=
  map (fun i => sha256_byte data (Z.of_nat i)) (seq 0 32).

(** ** NextPrime (lines 94-102)

    The [while] loop stops at the first candidate the primality test
    accepts; [fuel] bounds the number of candidates tried and [None] is a
    search that has not stopped within it. *)

Fixpoint NextPrime_loop `{VdfLib} (fuel : nat) (n : Z) : option Z :=
  match fuel with
  | O => None
  | S fuel' =>
      if mpz_probab_prime_p n 25 =? 0
      then NextPrime_loop fuel' (n + 2)
      else Some n
  end.

Definition NextPrime `{VdfLib} (fuel : nat) (start : Z) : option Z :=
  NextPrime_loop fuel (if Z.even start then start + 1 else start).

(** ** The Fiat-Shamir challenge (lines 119-158 and 632-671)

    Both provers build the same byte string and derive the prime the same
    way. *)

Definition serialize_form (f : form) : list byte :=
  mpz_export (Form.a f) ++ mpz_export (Form.b f) ++ mpz_export (Form.c f).

Definition challenge_data (discriminant : Z) (x y : form) (iterations : Z)
  : list byte :=
  mpz_export discriminant ++ serialize_form x ++ serialize_form y
  ++ be_bytes 8 iterations.

Definition challenge_prime_of `{VdfLib} (fuel : nat) (discriminant : Z)
  (x y : form) (iterations : Z) : option Z :=
  let hash := sha256 (challenge_data discriminant x y iterations) in
  let l := Z.setbit (mpz_import hash) 263 in
  NextPrime fuel l.

(** ** Length-prefixed integers of the proof blobs

    [add_integer] (lines 193-200 and 714-723): two length bytes, then the
    magnitude. The length is a [size_t] of which the low 16 bits are kept. *)

Definition add_integer (val : Z) : list byte :=
  let bytes := mpz_export val in
  let size := Z.of_nat (length bytes) in
  [byte.of_Z (Z.land (Z.shiftr size 8) 255); byte.of_Z (Z.land size 255)]
  ++ bytes.

Definition add_form (f : form) : list byte :=
  add_integer (Form.a f) ++ add_integer (Form.b f) ++ add_integer (Form.c f).

(** The challenge prime (lines 212-216 and 707-711): one length byte,
    [push_back(l_size)] keeps the low 8 bits of the [size_t]. *)
Definition add_prime (l : Z) : list byte :=
  let l_bytes := mpz_export l in
  byte.of_Z (Z.of_nat (length l_bytes)) :: l_bytes.

(** ** Checkpoint proofs (lines 25-36 and 105-219) *)

Record CheckpointProof := mkCheckpointProof {
  iteration : Z;
  checkpoint_form : form;
  proof_form : form;
  challenge_prime : Z;
  serialized_proof : list byte
}.

(** The default constructor. *)
Definition CheckpointProof_new : CheckpointProof :=
  mkCheckpointProof 0 Form.zero Form.zero 0 [].

Definition set_iteration (cp : CheckpointProof) (t : Z) : CheckpointProof :=
  mkCheckpointProof t (checkpoint_form cp) (proof_form cp)
    (challenge_prime cp) (serialized_proof cp).

Definition generate_checkpoint_proof `{VdfLib} (fuel : nat)
  (start_form end_form : form) (iterations : Z) (discriminant : Z)
  : option CheckpointProof :=
  match challenge_prime_of fuel discriminant start_form end_form iterations with
  | None => None
  | Some l =>
      let two_to_T := 2 ^ iterations in
      let quotient := two_to_T / l in
      let L_local := root (- discriminant) 4 in
      let pi := FastPowFormNucomp start_form discriminant quotient L_local in
      Some (mkCheckpointProof iterations end_form pi l
              ([byte.of_Z 3] ++ be_bytes 8 iterations
               ++ add_form end_form ++ add_form pi ++ add_prime l))
  end.

(** ** The C interface (streamer.h) *)

Inductive cpu_vdf_error_t : Set :=
| CPU_VDF_SUCCESS
| CPU_VDF_ERROR_INVALID_CONFIG
| CPU_VDF_ERROR_INVALID_PARAMETERS
| CPU_VDF_ERROR_MEMORY_ALLOCATION
| CPU_VDF_ERROR_COMPUTATION_FAILED
| CPU_VDF_ERROR_THREAD_ERROR
| CPU_VDF_ERROR_INVALID_DISCRIMINANT
| CPU_VDF_ERROR_INVALID_FORM
| CPU_VDF_ERROR_PROOF_GENERATION_FAILED
| CPU_VDF_ERROR_VERIFICATION_FAILED
| CPU_VDF_ERROR_NOT_INITIALIZED
| CPU_VDF_ERROR_ALREADY_RUNNING.

Definition error_code (e : cpu_vdf_error_t) : Z :=
  match e with
  | CPU_VDF_SUCCESS => 0
  | CPU_VDF_ERROR_INVALID_CONFIG => -1
  | CPU_VDF_ERROR_INVALID_PARAMETERS => -2
  | CPU_VDF_ERROR_MEMORY_ALLOCATION => -3
  | CPU_VDF_ERROR_COMPUTATION_FAILED => -4
  | CPU_VDF_ERROR_THREAD_ERROR => -5
  | CPU_VDF_ERROR_INVALID_DISCRIMINANT => -6
  | CPU_VDF_ERROR_INVALID_FORM => -7
  | CPU_VDF_ERROR_PROOF_GENERATION_FAILED => -8
  | CPU_VDF_ERROR_VERIFICATION_FAILED => -9
  | CPU_VDF_ERROR_NOT_INITIALIZED => -10
  | CPU_VDF_ERROR_ALREADY_RUNNING => -11
  end.

Inductive cpu_vdf_state_t : Set :=
| CPU_VDF_STATE_IDLE
| CPU_VDF_STATE_COMPUTING
| CPU_VDF_STATE_COMPLETED
| CPU_VDF_STATE_ERROR
| CPU_VDF_STATE_STOPPED.

Definition state_eqb (s1 s2 : cpu_vdf_state_t) : bool :=
  match s1, s2 with
  | CPU_VDF_STATE_IDLE, CPU_VDF_STATE_IDLE
  | CPU_VDF_STATE_COMPUTING, CPU_VDF_STATE_COMPUTING
  | CPU_VDF_STATE_COMPLETED, CPU_VDF_STATE_COMPLETED
  | CPU_VDF_STATE_ERROR, CPU_VDF_STATE_ERROR
  | CPU_VDF_STATE_STOPPED, CPU_VDF_STATE_STOPPED => true
  | _, _ => false
  end.

Record cpu_vdf_config_t : Set := mk_config {
  num_threads : Z;
  proof_threads : Z;
  enable_fast_mode : bool;
  enable_avx512 : bool;
  enable_logging : bool;
  segment_size : Z
}.

Record cpu_vdf_status_t : Set := mk_status {
  status_current_iteration : Z;
  status_target_iterations : Z;
  status_state : cpu_vdf_state_t;
  (** a [double] in C; kept here as the exact quotient *)
  status_progress_percentage : Q;
  status_iterations_per_second : Z;
  status_elapsed_time_ms : Z;
  status_has_proof_ready : bool
}.

(** [data] with its [length]: [None] is a null [data] pointer, otherwise the
    [length] bytes it points to. *)
Record cpu_vdf_proof_t := mk_proof {
  proof_data : option (list byte);
  proof_iterations : Z;
  proof_is_valid : bool;
  proof_recursion_level : byte
}.

Definition proof_length (p : cpu_vdf_proof_t) : Z :=
  match proof_data p with
  | Some d => Z.of_nat (length d)
  | None => 0
  end.

(** [cpu_vdf_form_t]: for each coefficient the bytes [mpz_export] wrote at the
    start of its 256-byte array, and [data_size]. *)
Record cpu_vdf_form_t := mk_form_t {
  a_data : list byte;
  b_data : list byte;
  c_data : list byte;
  data_size : Z
}.

Record cpu_vdf_checkpoint_proof_t := mk_checkpoint_proof_t {
  out_iteration : Z;
  out_checkpoint_form : cpu_vdf_form_t;
  out_proof_data : option (list byte);
  out_proof_length : Z;
  out_has_proof : bool
}.

(** ** The context (lines 39-75)

    The thread handle, mutex, condition variable and the client callbacks
    with their update interval are left out. The callbacks are null and the
    interval is 1000 ms unless [cpu_vdf_set_callbacks] is called, which is
    not among the functions modelled. The two start functions assign the
    thread handle (lines 427 and 503): what is said below of a start that
    returns CPU_VDF_SUCCESS is said of a context whose handle holds no
    thread that is still to be joined, and of a thread that could be
    created. *)

Record cpu_vdf_context := mk_context {
  config : cpu_vdf_config_t;
  state : cpu_vdf_state_t;
  current_iteration : Z;
  target_iterations : Z;
  discriminant : Z;
  initial_form : form;
  current_form : form;
  final_form : form;
  should_stop : bool;
  start_time : Z;
  iterations_per_second : Z;
  checkpoint_proofs : list CheckpointProof;
  checkpoint_interval : Z;
  store_checkpoints : bool;
  generate_streaming_proofs : bool
}.

Definition set_state (x : cpu_vdf_context) (v : cpu_vdf_state_t) :=
  mk_context (config x) v (current_iteration x) (target_iterations x)
    (discriminant x) (initial_form x) (current_form x) (final_form x)
    (should_stop x) (start_time x) (iterations_per_second x)
    (checkpoint_proofs x) (checkpoint_interval x) (store_checkpoints x)
    (generate_streaming_proofs x).

Definition set_current_iteration (x : cpu_vdf_context) (v : Z) :=
  mk_context (config x) (state x) v (target_iterations x)
    (discriminant x) (initial_form x) (current_form x) (final_form x)
    (should_stop x) (start_time x) (iterations_per_second x)
    (checkpoint_proofs x) (checkpoint_interval x) (store_checkpoints x)
    (generate_streaming_proofs x).

Definition set_target_iterations (x : cpu_vdf_context) (v : Z) :=
  mk_context (config x) (state x) (current_iteration x) v
    (discriminant x) (initial_form x) (current_form x) (final_form x)
    (should_stop x) (start_time x) (iterations_per_second x)
    (checkpoint_proofs x) (checkpoint_interval x) (store_checkpoints x)
    (generate_streaming_proofs x).

Definition set_discriminant (x : cpu_vdf_context) (v : Z) :=
  mk_context (config x) (state x) (current_iteration x) (target_iterations x)
    v (initial_form x) (current_form x) (final_form x)
    (should_stop x) (start_time x) (iterations_per_second x)
    (checkpoint_proofs x) (checkpoint_interval x) (store_checkpoints x)
    (generate_streaming_proofs x).

Definition set_initial_form (x : cpu_vdf_context) (v : form) :=
  mk_context (config x) (state x) (current_iteration x) (target_iterations x)
    (discriminant x) v (current_form x) (final_form x)
    (should_stop x) (start_time x) (iterations_per_second x)
    (checkpoint_proofs x) (checkpoint_interval x) (store_checkpoints x)
    (generate_streaming_proofs x).

Definition set_current_form (x : cpu_vdf_context) (v : form) :=
  mk_context (config x) (state x) (current_iteration x) (target_iterations x)
    (discriminant x) (initial_form x) v (final_form x)
    (should_stop x) (start_time x) (iterations_per_second x)
    (checkpoint_proofs x) (checkpoint_interval x) (store_checkpoints x)
    (generate_streaming_proofs x).

Definition set_final_form (x : cpu_vdf_context) (v : form) :=
  mk_context (config x) (state x) (current_iteration x) (target_iterations x)
    (discriminant x) (initial_form x) (current_form x) v
    (should_stop x) (start_time x) (iterations_per_second x)
    (checkpoint_proofs x) (checkpoint_interval x) (store_checkpoints x)
    (generate_streaming_proofs x).

Definition set_should_stop (x : cpu_vdf_context) (v : bool) :=
  mk_context (config x) (state x) (current_iteration x) (target_iterations x)
    (discriminant x) (initial_form x) (current_form x) (final_form x)
    v (start_time x) (iterations_per_second x)
    (checkpoint_proofs x) (checkpoint_interval x) (store_checkpoints x)
    (generate_streaming_proofs x).

Definition set_start_time (x : cpu_vdf_context) (v : Z) :=
  mk_context (config x) (state x) (current_iteration x) (target_iterations x)
    (discriminant x) (initial_form x) (current_form x) (final_form x)
    (should_stop x) v (iterations_per_second x)
    (checkpoint_proofs x) (checkpoint_interval x) (store_checkpoints x)
    (generate_streaming_proofs x).

Definition set_checkpoint_proofs (x : cpu_vdf_context)
  (v : list CheckpointProof) :=
  mk_context (config x) (state x) (current_iteration x) (target_iterations x)
    (discriminant x) (initial_form x) (current_form x) (final_form x)
    (should_stop x) (start_time x) (iterations_per_second x)
    v (checkpoint_interval x) (store_checkpoints x)
    (generate_streaming_proofs x).

Definition set_checkpoint_interval (x : cpu_vdf_context) (v : Z) :=
  mk_context (config x) (state x) (current_iteration x) (target_iterations x)
    (discriminant x) (initial_form x) (current_form x) (final_form x)
    (should_stop x) (start_time x) (iterations_per_second x)
    (checkpoint_proofs x) v (store_checkpoints x)
    (generate_streaming_proofs x).

Definition set_store_checkpoints (x : cpu_vdf_context) (v : bool) :=
  mk_context (config x) (state x) (current_iteration x) (target_iterations x)
    (discriminant x) (initial_form x) (current_form x) (final_form x)
    (should_stop x) (start_time x) (iterations_per_second x)
    (checkpoint_proofs x) (checkpoint_interval x) v
    (generate_streaming_proofs x).

Definition set_generate_streaming_proofs (x : cpu_vdf_context) (v : bool) :=
  mk_context (config x) (state x) (current_iteration x) (target_iterations x)
    (discriminant x) (initial_form x) (current_form x) (final_form x)
    (should_stop x) (start_time x) (iterations_per_second x)
    (checkpoint_proofs x) (checkpoint_interval x) (store_checkpoints x) v.

(** [checkpoint_proofs.push_back(cp)] *)
Definition push_checkpoint (x : cpu_vdf_context) (cp : CheckpointProof) :=
  set_checkpoint_proofs x (checkpoint_proofs x ++ [cp]).

(** [cpu_vdf_create] (lines 360-368): the member initialisers of the struct
    and a copy of the configuration. *)
Definition cpu_vdf_create (cfg : option cpu_vdf_config_t)
  : option cpu_vdf_context :=
  match cfg with
  | None => None
  | Some c =>
      Some (mk_context c CPU_VDF_STATE_IDLE 0 0 0 Form.zero Form.zero
              Form.zero false 0 0 [] 0 false false)
  end.

(** ** The worker (lines 224-343)

    [should_stop] is written by [cpu_vdf_stop_computation] on another thread
    and only ever from false to true during a run. The worker's loads of it
    are numbered; [stop_at = Some k] is a run in which the loads from the
    [k]-th on see true, [None] one in which no stop is requested.

    The runs followed are those in which nothing throws: operations of
    vdf.h are total here, and the allocations of the worker (the [reserve]
    of line 240, the records pushed) succeed. The [catch] branch of lines
    333-340, which stores CPU_VDF_STATE_ERROR, is the end of a run that is
    not followed. The progress metrics of lines 299-311 depend on the clock
    at the end of each batch: the value they leave in
    [iterations_per_second] is not followed either, the field keeps the
    value it had. *)

Definition should_stop_load (stop_at : option nat) (p : nat) : bool :=
  match stop_at with
  | Some k => Nat.leb k p
  | None => false
  end.

Record worker_state := mk_worker {
  wctx : cpu_vdf_context;
  current : form;
  last_checkpoint : form;
  last_checkpoint_iter : Z;
  polls : nat
}.

Definition tick (w : worker_state) : worker_state :=
  mk_worker (wctx w) (current w) (last_checkpoint w) (last_checkpoint_iter w)
    (S (polls w)).

(** Lines 237-250: the checkpoint interval and the initial record. *)
Definition worker_init (ctx : cpu_vdf_context) : cpu_vdf_context :=
  if store_checkpoints ctx && (0 <? target_iterations ctx) then
    let ctx1 :=
      set_checkpoint_interval ctx
        (if 0 <? segment_size (config ctx) then segment_size (config ctx)
         else 65536) in
    if generate_streaming_proofs ctx1 then
      push_checkpoint ctx1
        (mkCheckpointProof 0 (initial_form ctx1) Form.zero 0 [byte.of_Z 4])
    else ctx1
  else ctx.

(** Lines 258-294: one squaring and its checkpoint. *)
Definition iteration_body `{VdfLib} (fuel : nat) (completed_iterations i : Z)
  (w : worker_state) : option worker_state :=
  let current' := square (current w) in
  let ctx1 :=
    set_current_iteration (wctx w) (u64 (completed_iterations + i + 1)) in
  if store_checkpoints ctx1 && (0 <? checkpoint_interval ctx1) then
    let current_iter := u64 (completed_iterations + i + 1) in
    if (current_iter mod checkpoint_interval ctx1 =? 0)
       || (current_iter =? target_iterations ctx1) then
      if generate_streaming_proofs ctx1 then
        let checkpoint_iterations :=
          u64 (current_iter - last_checkpoint_iter w) in
        match generate_checkpoint_proof fuel (last_checkpoint w) current'
                checkpoint_iterations (discriminant ctx1) with
        | None => None
        | Some checkpoint_proof =>
            Some (mk_worker
                    (push_checkpoint ctx1
                       (set_iteration checkpoint_proof current_iter))
                    current' current' current_iter (polls w))
        end
      else
        Some (mk_worker
                (push_checkpoint ctx1
                   (mkCheckpointProof current_iter current' Form.zero 0 []))
                current' (last_checkpoint w) (last_checkpoint_iter w)
                (polls w))
    else
      Some (mk_worker ctx1 current' (last_checkpoint w)
              (last_checkpoint_iter w) (polls w))
  else
    Some (mk_worker ctx1 current' (last_checkpoint w)
            (last_checkpoint_iter w) (polls w)).

(** Line 257: [for (i = 0; i < iterations_in_batch && !should_stop; i++)];
    [n] counts the iterations left in the batch. *)
Fixpoint batch_loop `{VdfLib} (fuel : nat) (stop_at : option nat) (n : nat)
  (completed_iterations i : Z) (w : worker_state) : option worker_state :=
  match n with
  | O => Some w
  | S n' =>
      if should_stop_load stop_at (polls w) then Some (tick w)
      else
        match iteration_body fuel completed_iterations i (tick w) with
        | None => None
        | Some w' =>
            batch_loop fuel stop_at n' completed_iterations (i + 1) w'
        end
  end.

(** Lines 252-312: [while (completed_iterations < target && !should_stop)];
    [rounds] bounds the number of batches. The result carries the final
    [completed_iterations]. *)
Fixpoint main_loop `{VdfLib} (fuel : nat) (stop_at : option nat)
  (rounds : nat) (completed_iterations : Z) (w : worker_state)
  : option (Z * worker_state) :=
  match rounds with
  | O => None
  | S rounds' =>
      if completed_iterations <? target_iterations (wctx w) then
        if should_stop_load stop_at (polls w)
        then Some (completed_iterations, tick w)
        else
          let batch_size := 1000 in
          let batch_end :=
            Z.min (u64 (completed_iterations + batch_size))
                  (target_iterations (wctx w)) in
          let iterations_in_batch := u64 (batch_end - completed_iterations) in
          match batch_loop fuel stop_at (Z.to_nat iterations_in_batch)
                  completed_iterations 0 (tick w) with
          | None => None
          | Some w' => main_loop fuel stop_at rounds' batch_end w'
          end
      else Some (completed_iterations, w)
  end.

(** The thread function. [now] is the clock at its start. [None] is a run
    the model has not followed to its end (a loop out of [fuel]). *)
Definition vdf_computation_thread `{VdfLib} (fuel : nat)
  (stop_at : option nat) (now : Z) (ctx : cpu_vdf_context)
  : option cpu_vdf_context :=
  let ctx0 := set_start_time (set_state ctx CPU_VDF_STATE_COMPUTING) now in
  let ctx1 := worker_init ctx0 in
  let w0 := mk_worker ctx1 (initial_form ctx1) (initial_form ctx1) 0 O in
  match main_loop fuel stop_at fuel 0 w0 with
  | None => None
  | Some (_, w) =>
      if should_stop_load stop_at (polls w)
      then Some (set_state (wctx w) CPU_VDF_STATE_STOPPED)
      else
        Some (set_state
                (set_current_form (set_final_form (wctx w) (current w))
                   (current w))
                CPU_VDF_STATE_COMPLETED)
  end.

(** ** Starting a computation *)

(** Lines 399-402: [int seed] from the first four challenge bytes. *)
Definition seed_of (challenge_hash : list byte) : Z :=
  fold_left (fun seed b => s32 (Z.lor (Z.shiftl seed 8) (byte.unsigned b)))
    (firstn 4 challenge_hash) 0.

(** Lines 415-423 and 492-499, the part the two entry points share. *)
Definition reset_run (ctx : cpu_vdf_context) (iterations : Z)
  : cpu_vdf_context :=
  set_should_stop
    (set_current_iteration
       (set_target_iterations (set_current_form ctx (initial_form ctx))
          iterations) 0) false.

(** [cpu_vdf_start_computation] (lines 382-433). The context returned with
    [CPU_VDF_SUCCESS] is the one handed to the worker thread, whose creation
    is taken to succeed (line 427; otherwise the call returns
    CPU_VDF_ERROR_THREAD_ERROR, or ends the process when the handle still
    holds a thread that was not joined). *)
Definition cpu_vdf_start_computation `{VdfLib}
  (ctx : option cpu_vdf_context) (challenge_hash : option (list byte))
  (initial_form_bytes : option (list byte)) (iterations : Z)
  (discriminant_size_bits : Z)
  : cpu_vdf_error_t * option cpu_vdf_context :=
  match ctx, challenge_hash with
  | Some c, Some ch =>
      if iterations =? 0 then (CPU_VDF_ERROR_INVALID_PARAMETERS, ctx)
      else if state_eqb (state c) CPU_VDF_STATE_COMPUTING
      then (CPU_VDF_ERROR_ALREADY_RUNNING, ctx)
      else
        let seed := seed_of ch in
        let c1 :=
          set_discriminant c
            (generate_discriminant discriminant_size_bits seed) in
        let c2 :=
          match initial_form_bytes with
          | Some _ => set_initial_form c1 (generator (discriminant c1))
          | None => set_initial_form c1 (generator (discriminant c1))
          end in
        let c3 := reset_run c2 iterations in
        let c4 := set_store_checkpoints c3 (0 <? segment_size (config c3)) in
        let c5 := set_generate_streaming_proofs c4 (store_checkpoints c4) in
        let c6 := set_checkpoint_proofs c5 [] in
        (CPU_VDF_SUCCESS, Some c6)
  | _, _ => (CPU_VDF_ERROR_INVALID_PARAMETERS, ctx)
  end.

(** Lines 450-473: import the magnitude, negate, force the residue 1
    modulo 4. [mpz_mod_ui] returns the non-negative remainder. *)
Definition import_discriminant (discriminant_bytes : list byte) : Z :=
  let d := - mpz_import discriminant_bytes in
  let mod_val := d mod 4 in
  if mod_val =? 1 then d
  else
    let d1 := d - mod_val + 1 in
    if 0 <? d1 then d1 - 4 else d1.

(** [cpu_vdf_start_computation_with_discriminant] (lines 435-509). The
    discriminant is written into the context before it is checked. The
    generator and its check are calls of vdf.h, total here: the [catch] of
    line 486 is the end of a call in which one of them throws. The thread
    is created as in [cpu_vdf_start_computation] (line 503). *)
Definition cpu_vdf_start_computation_with_discriminant `{VdfLib}
  (ctx : option cpu_vdf_context) (discriminant_bytes : option (list byte))
  (initial_form_arg : option (list byte)) (iterations : Z)
  : cpu_vdf_error_t * option cpu_vdf_context :=
  match ctx, discriminant_bytes with
  | Some c, Some dbytes =>
      if (Z.of_nat (length dbytes) =? 0) || (iterations =? 0)
      then (CPU_VDF_ERROR_INVALID_PARAMETERS, ctx)
      else if state_eqb (state c) CPU_VDF_STATE_COMPUTING
      then (CPU_VDF_ERROR_ALREADY_RUNNING, ctx)
      else
        let c1 := set_discriminant c (import_discriminant dbytes) in
        if 0 <=? discriminant c1
        then (CPU_VDF_ERROR_INVALID_DISCRIMINANT, Some c1)
        else
          let c2 := set_initial_form c1 (generator (discriminant c1)) in
          if negb (check_valid (initial_form c2) (discriminant c2))
          then (CPU_VDF_ERROR_INVALID_FORM, Some c2)
          else
            let c3 := reset_run c2 iterations in
            let c4 :=
              set_store_checkpoints c3 (0 <? segment_size (config c3)) in
            let c5 := set_checkpoint_proofs c4 [] in
            (CPU_VDF_SUCCESS, Some c5)
  | _, _ => (CPU_VDF_ERROR_INVALID_PARAMETERS, ctx)
  end.

(** ** Status (lines 523-548); [now] is the clock at the call. *)
Definition cpu_vdf_get_status (ctx : option cpu_vdf_context)
  (status : option cpu_vdf_status_t) (now : Z)
  : cpu_vdf_error_t * option cpu_vdf_status_t :=
  match ctx, status with
  | Some c, Some _ =>
      (CPU_VDF_SUCCESS,
       Some (mk_status
               (current_iteration c)
               (target_iterations c)
               (state c)
               (if 0 <? target_iterations c
                then Qmake (current_iteration c * 100)
                       (Z.to_pos (target_iterations c))
                else Qmake 0 1)
               (iterations_per_second c)
               (if negb (state_eqb (state c) CPU_VDF_STATE_IDLE)
                then now - start_time c else 0)
               false))
  | _, _ => (CPU_VDF_ERROR_INVALID_PARAMETERS, status)
  end.

(** ** The prover (lines 616-759)

    The outer [option] is [None] when the prime search is out of [fuel].
    The second component is the proof structure after the call; allocation
    of the output buffer is taken to succeed. *)

Definition proof_blob (recursion_level : byte) (iterations : Z) (l : Z)
  (pi : form) : list byte :=
  [byte.of_Z 2; recursion_level] ++ be_bytes 8 iterations
  ++ add_prime l
  ++ add_integer (Form.a pi) ++ add_integer (Form.b pi)
  ++ add_integer (Form.c pi).

Definition cpu_vdf_generate_proof `{VdfLib} (fuel : nat)
  (ctx : option cpu_vdf_context) (recursion_level : byte)
  (proof : option cpu_vdf_proof_t)
  : option (cpu_vdf_error_t * option cpu_vdf_proof_t) :=
  match ctx, proof with
  | Some c, Some _ =>
      if negb (state_eqb (state c) CPU_VDF_STATE_COMPLETED)
      then Some (CPU_VDF_ERROR_COMPUTATION_FAILED, proof)
      else
        match challenge_prime_of fuel (discriminant c) (initial_form c)
                (final_form c) (target_iterations c) with
        | None => None
        | Some l =>
            let two_to_T_raw := 2 ^ target_iterations c in
            let quotient_raw := two_to_T_raw / l in
            let L_local := root (- discriminant c) 4 in
            let pi :=
              FastPowFormNucomp (initial_form c) (discriminant c)
                quotient_raw L_local in
            let proof_data :=
              proof_blob recursion_level (target_iterations c) l pi in
            Some (CPU_VDF_SUCCESS,
                  Some (mk_proof (Some proof_data) (target_iterations c)
                          true recursion_level))
        end
  | _, _ => Some (CPU_VDF_ERROR_INVALID_PARAMETERS, proof)
  end.

Definition cpu_vdf_generate_proof_for_iterations `{VdfLib} (fuel : nat)
  (ctx : option cpu_vdf_context) (target : Z) (recursion_level : byte)
  (proof : option cpu_vdf_proof_t)
  : option (cpu_vdf_error_t * option cpu_vdf_proof_t) :=
  match ctx, proof with
  | Some c, Some _ =>
      if target_iterations c <? target
      then Some (CPU_VDF_ERROR_INVALID_PARAMETERS, proof)
      else cpu_vdf_generate_proof fuel ctx recursion_level proof
  | _, _ => Some (CPU_VDF_ERROR_INVALID_PARAMETERS, proof)
  end.

(** ** The verifier (lines 772-896)

    [ptr] is the list of the bytes from [ptr] to [end]. *)

(** The [read_integer] lambda (lines 813-821). *)
Definition read_integer (ptr : list byte) : option (Z * list byte) :=
  match ptr with
  | hi :: lo :: rest =>
      let size := Z.lor (Z.shiftl (byte.unsigned hi) 8) (byte.unsigned lo) in
      if Z.of_nat (length rest) <? size then None
      else Some (mpz_import (firstn (Z.to_nat size) rest),
                 skipn (Z.to_nat size) rest)
  | _ => None
  end.

(** Lines 795-800: the eight bytes of the iteration count. *)
Definition read_iterations (bs : list byte) : Z :=
  fold_left (fun acc b => u64 (Z.lor (Z.shiftl acc 8) (byte.unsigned b))) bs 0.

(** Lines 786-832: the blob is read front to back; [None] is a
    [return false]. The result is the challenge prime and the proof form
    read from the blob. *)
Definition parse_proof (data : list byte) (iterations : Z)
  (recursion_level : byte) : option (Z * form) :=
  match data with
  | version :: ptr1 =>
      if negb (byte.unsigned version =? 2) then None
      else
        match ptr1 with
        | level :: ptr2 =>
            if negb (byte.unsigned level =? byte.unsigned recursion_level)
            then None
            else if Z.of_nat (length ptr2) <? 8 then None
            else
              let proof_iterations := read_iterations (firstn 8 ptr2) in
              if negb (proof_iterations =? iterations) then None
              else
                match skipn 8 ptr2 with
                | l_size :: ptr3 =>
                    if Z.of_nat (length ptr3) <? byte.unsigned l_size
                    then None
                    else
                      let n := Z.to_nat (byte.unsigned l_size) in
                      let l := mpz_import (firstn n ptr3) in
                      match read_integer (skipn n ptr3) with
                      | None => None
                      | Some (a, ptr4) =>
                          match read_integer ptr4 with
                          | None => None
                          | Some (b, ptr5) =>
                              match read_integer ptr5 with
                              | None => None
                              | Some (c, _) => Some (l, Form.mk a b c)
                              end
                          end
                      end
                | [] => None
                end
        | [] => None
        end
  | [] => None
  end.

(** Lines 834-891: the check made on the parsed prime [l] and proof form.
    [mpz_mod] with a zero divisor is a division by zero inside GMP, which
    ends the process: that outcome is [None]. *)
Definition wesolowski_check `{VdfLib} (D : Z)
  (initial_form_bytes : option (list byte)) (l : Z) (proof_form : form)
  (iterations : Z) : option bool :=
  let x := generator D in
  let x := match initial_form_bytes with Some _ => x | None => x end in
  if negb (check_valid proof_form D) then Some false
  else
    let y := Nat.iter (Z.to_nat iterations) square x in
    if l =? 0 then None
    else
      let r_raw := 2 ^ iterations mod l in
      let L_local := root (- D) 4 in
      let pi_to_l := FastPowFormNucomp proof_form D l L_local in
      let x_to_r := FastPowFormNucomp x D r_raw L_local in
      let lhs := form_mul pi_to_l x_to_r in
      Some (Form.eqb lhs y).

Definition cpu_vdf_verify_proof `{VdfLib}
  (discriminant_bytes : option (list byte))
  (initial_form_bytes : option (list byte))
  (proof : option cpu_vdf_proof_t) (iterations : Z) (recursion_level : byte)
  : option bool :=
  match discriminant_bytes, proof with
  | Some dbytes, Some p =>
      match proof_data p with
      | Some data =>
          if Z.of_nat (length data) <? 10 then Some false
          else
            match parse_proof data iterations recursion_level with
            | None => Some false
            | Some (l, proof_form) =>
                wesolowski_check (- mpz_import dbytes) initial_form_bytes l
                  proof_form iterations
            end
      | None => Some false
      end
  | _, _ => Some false
  end.

(** ** Reading the checkpoints back (lines 1150-1199)

    The three arrays of an entry of the caller's array hold 256 bytes each
    and [mpz_export] is called without a test of the size: an export of
    more than 256 bytes writes past its array, and that outcome, which C++
    leaves undefined, is [None]. *)

Definition export_checkpoint (cp : CheckpointProof)
  : option cpu_vdf_checkpoint_proof_t :=
  let f := checkpoint_form cp in
  let a_bytes := mpz_export (Form.a f) in
  let b_bytes := mpz_export (Form.b f) in
  let c_bytes := mpz_export (Form.c f) in
  let size_a := Z.of_nat (length a_bytes) in
  let size_b := Z.of_nat (length b_bytes) in
  let size_c := Z.of_nat (length c_bytes) in
  if (256 <? size_a) || (256 <? size_b) || (256 <? size_c) then None
  else
    Some (mk_checkpoint_proof_t (iteration cp)
            (mk_form_t a_bytes b_bytes c_bytes
               (Z.max size_a (Z.max size_b size_c)))
            (match serialized_proof cp with
             | [] => None
             | _ :: _ => Some (serialized_proof cp)
             end)
            (Z.of_nat (length (serialized_proof cp)))
            (match serialized_proof cp with [] => false | _ :: _ => true end)).

(** The loop over the stored records; [room] is [max_proofs - count]. The
    records after the [break] are not exported. *)
Fixpoint copy_checkpoints (cps : list CheckpointProof)
  (start_iteration end_iteration : Z) (room : nat)
  : option (list cpu_vdf_checkpoint_proof_t) :=
  match cps with
  | [] => Some []
  | cp :: rest =>
      if (start_iteration <=? iteration cp) && (iteration cp <=? end_iteration)
      then
        match room with
        | O => Some []
        | S room' =>
            match export_checkpoint cp with
            | None => None
            | Some entry =>
                match copy_checkpoints rest start_iteration end_iteration
                        room' with
                | None => None
                | Some entries => Some (entry :: entries)
                end
            end
        end
      else copy_checkpoints rest start_iteration end_iteration room
  end.

(** [proofs] is the caller's array (its former content is not kept) and
    [num_proofs] its capacity on entry; the result is the error code with
    the entries written, whose number is [*num_proofs] on return. The
    allocation of the copy of a blob is taken to succeed. *)
Definition cpu_vdf_get_checkpoint_proofs (ctx : option cpu_vdf_context)
  (start_iteration end_iteration : Z)
  (proofs : option (list cpu_vdf_checkpoint_proof_t))
  (num_proofs : option nat)
  : option (cpu_vdf_error_t * list cpu_vdf_checkpoint_proof_t) :=
  match ctx, proofs, num_proofs with
  | Some c, Some _, Some max_proofs =>
      match copy_checkpoints (checkpoint_proofs c) start_iteration
              end_iteration max_proofs with
      | None => None
      | Some entries => Some (CPU_VDF_SUCCESS, entries)
      end
  | _, _, _ => Some (CPU_VDF_ERROR_INVALID_PARAMETERS, [])
  end.

(** ** A reference library

    vdf.h and GMP are not part of the binding layer. The instance below
    gives the interface a concrete meaning on which examples are
    evaluated; the properties of the streamer are proved for every
    instance. *)

Module Reference.

(** Extended Euclid: [(g, u, v)] with [u * x + v * y = g], [g >= 0]. *)
Fixpoint xgcd_loop (fuel : nat) (r0 r1 s0 s1 t0 t1 : Z) : Z * Z * Z :=
  match fuel with
  | O => (r0, s0, t0)
  | S fuel' =>
      if r1 =? 0 then (r0, s0, t0)
      else
        let q := r0 / r1 in
        xgcd_loop fuel' r1 (r0 - q * r1) s1 (s0 - q * s1) t1 (t0 - q * t1)
  end.

Definition xgcd (x y : Z) : Z * Z * Z :=
  let fuel := Z.to_nat (3 * (Z.log2 (Z.abs x + Z.abs y) + 2)) in
  let '(g, u, v) := xgcd_loop fuel x y 1 0 0 1 in
  if g <? 0 then (- g, - u, - v) else (g, u, v).

Definition disc (f : form) : Z :=
  Form.b f * Form.b f - 4 * Form.a f * Form.c f.

(** Modelled from the spec: the reduction of section 3 and 4.C, which
    vdf.h implements and the binding layer only calls ("A form is
    reduced iff -a < b <= a <= c, and if a = c then b >= 0"; "reduce
    ... iterated until reduced"). *)
Definition normalize (f : form) : form :=
  let '(Form.mk a b c) := f in
  if (- a <? b) && (b <=? a) then f
  else
    let r := (a - b) / (2 * a) in
    Form.mk a (b + 2 * r * a) (a * r * r + b * r + c).

Fixpoint reduce_loop (fuel : nat) (f : form) : form :=
  match fuel with
  | O => f
  | S fuel' =>
      let '(Form.mk a b c) := f in
      if (c <? a) || ((a =? c) && (b <? 0)) then
        let s := (c + b) / (2 * c) in
        reduce_loop fuel'
          (Form.mk c (- b + 2 * s * c) (c * s * s - b * s + a))
      else f
  end.

Definition reduce (f : form) : form :=
  let g := normalize f in
  let fuel := Z.to_nat (2 * Z.log2 (Z.abs (Form.a g) + Z.abs (Form.c g)) + 8) in
  normalize (reduce_loop fuel g).

Definition from_abd (a b D : Z) : form :=
  reduce (Form.mk a b ((b * b - D) / (4 * a))).

(** Modelled from the spec: form::generator of vdf.h ("the unique reduced
    form with a = 1, b = 1", section 3), also the identity (4.C). *)
Definition generator (D : Z) : form := from_abd 1 1 D.

(** Modelled from the spec: composition of vdf.h ("compose(f, g, D, L):
    NUCOMP; produces a reduced form", 4.C). The reduced form of a class
    is unique, so the textbook composition followed by reduction gives
    the form NUCOMP gives. *)
Definition compose (f1 f2 : form) : form :=
  let '(f1, f2) := if Form.a f2 <? Form.a f1 then (f2, f1) else (f1, f2) in
  let '(Form.mk a1 b1 c1) := f1 in
  let '(Form.mk a2 b2 c2) := f2 in
  let D := disc f2 in
  let s := (b1 + b2) / 2 in
  let n := b2 - s in
  let '(d, y1) :=
    if a2 mod a1 =? 0 then (a1, 0)
    else let '(g, u, _) := xgcd a2 a1 in (g, u) in
  let '(d1, x2, y2) :=
    if s mod d =? 0 then (d, 0, -1)
    else let '(g, u, v) := xgcd s d in (g, u, - v) in
  let v1 := a1 / d1 in
  let v2 := a2 / d1 in
  let r := (y1 * y2 * n - x2 * c2) mod v1 in
  let b3 := b2 + 2 * v2 * r in
  let a3 := v1 * v2 in
  reduce (Form.mk a3 b3 ((b3 * b3 - D) / (4 * a3))).

(** Modelled from the spec: square of vdf.h ("square(f, D, L): NUDUPL
    composition; produces a reduced form", 4.C). *)
Definition square (f : form) : form := compose f f.

(** Modelled from the spec: FastPowFormNucomp of vdf.h ("for any
    non-negative integer e, returns (iterated composition of f with
    itself e times), reduced", 4.D). *)
Definition FastPowFormNucomp (x : form) (D e L : Z) : form :=
  match e with
  | Zpos p => Pos.iter_op compose p x
  | _ => generator D
  end.

(** Modelled from the spec: check_valid of vdf.h ("validity_check(f, D):
    b^2 - 4ac == D and a > 0 and c > 0", 4.C). *)
Definition check_valid (f : form) (D : Z) : bool :=
  (disc f =? D) && (0 <? Form.a f) && (0 <? Form.c f).

(** Modelled from the spec: root of vdf.h, used for "L: precomputed floor
    of the real 4th root of |D|" (section 3); other degrees are not
    used by the binding layer. *)
Definition root (n k : Z) : Z := Z.sqrt (Z.sqrt n).

(** Modular arithmetic of the primality test runs on machine words. *)
Fixpoint pow_mod (base : bigZ) (e : positive) (m : bigZ) : bigZ :=
  match e with
  | xH => BigZ.modulo base m
  | xO e' =>
      let r := pow_mod base e' m in BigZ.modulo (BigZ.mul r r) m
  | xI e' =>
      let r := pow_mod base e' m in
      BigZ.modulo (BigZ.mul (BigZ.modulo (BigZ.mul r r) m) base) m
  end.

Fixpoint two_adic (fuel : nat) (d : Z) (s : nat) : Z * nat :=
  match fuel with
  | O => (d, s)
  | S fuel' => if Z.even d then two_adic fuel' (d / 2) (S s) else (d, s)
  end.

Fixpoint witness_loop (s : nat) (x n : bigZ) : bool :=
  match s with
  | O => false
  | S s' =>
      let x2 := BigZ.modulo (BigZ.mul x x) n in
      if BigZ.eqb x2 (BigZ.sub n BigZ.one) then true
      else witness_loop s' x2 n
  end.

Definition strong_probable_prime (n base : Z) : bool :=
  let '(d, s) := two_adic (Z.to_nat (Z.log2 n)) (n - 1) O in
  match d with
  | Zpos dp =>
      let bn := BigZ.of_Z n in
      let x := pow_mod (BigZ.of_Z base) dp bn in
      if BigZ.eqb x BigZ.one then true
      else if BigZ.eqb x (BigZ.sub bn BigZ.one) then true
      else witness_loop (Nat.pred s) x bn
  | _ => false
  end.

Definition small_primes : list Z :=
  [2; 3; 5; 7; 11; 13; 17; 19; 23; 29; 31; 37; 41; 43; 47; 53; 59; 61; 67;
   71; 73; 79; 83; 89; 97].

Fixpoint has_factor (n : Z) (qs : list Z) : bool :=
  match qs with
  | [] => false
  | q :: qs' => if n mod q =? 0 then true else has_factor n qs'
  end.

Fixpoint passes_all (n : Z) (bases : list Z) : bool :=
  match bases with
  | [] => true
  | base :: bases' =>
      if strong_probable_prime n base then passes_all n bases' else false
  end.

(** Modelled from the spec: the primality test of GMP ("Miller-Rabin with
    >= 25 rounds", 4.A), here on 25 fixed bases. *)
Definition mpz_probab_prime_p (n reps : Z) : Z :=
  if n <? 2 then 0
  else if existsb (Z.eqb n) small_primes then 2
  else if has_factor n small_primes then 0
  else if passes_all n small_primes then 1
  else 0.

Fixpoint prime_from (fuel : nat) (candidate : Z) : Z :=
  match fuel with
  | O => candidate
  | S fuel' =>
      if mpz_probab_prime_p candidate 25 =? 0
      then prime_from fuel' (candidate + 4)
      else candidate
  end.

(** Modelled from the spec: generate_discriminant of vdf.h (4.B: expand
    the seed with the hash into a magnitude of the requested bit length
    with the top bit set, force it to 3 modulo 4, step by 4 to a prime,
    negate). *)
Definition generate_discriminant (size_bits seed : Z) : Z :=
  let blocks := Z.to_nat (size_bits / 256 + 1) in
  let entropy :=
    flat_map (fun k => sha256 (be_bytes 4 seed ++ [byte.of_Z (Z.of_nat k)]))
      (seq 0 blocks) in
  let top := 2 ^ (size_bits - 1) in
  let candidate := Z.lor (top + mpz_import entropy mod top) 3 in
  - prime_from (Z.to_nat (64 * size_bits + 64)) candidate.

#[export] Instance lib : VdfLib := {
  generator := generator;
  square := square;
  FastPowFormNucomp := FastPowFormNucomp;
  form_mul := compose;
  check_valid := check_valid;
  root := root;
  generate_discriminant := generate_discriminant;
  mpz_probab_prime_p := mpz_probab_prime_p
}.

End Reference.

(** ** Byte offsets in a proof blob

    The layout of section 6 of the specification, by offsets from the start
    of the blob; a byte that is not there reads as zero. *)

Definition byte_at (data : list byte) (off : nat) : Z :=
  byte.unsigned (nth off data Byte.x00).

(** The two length bytes of the field at [off], most significant first. *)
Definition u16_at (data : list byte) (off : nat) : Z :=
  256 * byte_at data off + byte_at data (S off).

(** The length-prefixed field at [off] does not fit into the blob. *)
Definition field_overrun (data : list byte) (off : nat) : bool :=
  (Z.of_nat (length data) <? Z.of_nat off + 2)
  || (Z.of_nat (length data) <? Z.of_nat off + 2 + u16_at data off).

(** The offset after the field at [off]. *)
Definition field_end (data : list byte) (off : nat) : nat :=
  (off + 2 + Z.to_nat (u16_at data off))%nat.

(** A blob "malformed or truncated": shorter than its header (version,
    recursion level, T and the length byte of l: 11 bytes), or with l or one
    of the three coefficient fields reaching past its end. *)
Definition truncated_blob (data : list byte) : bool :=
  let len := Z.of_nat (length data) in
  let off_a := (11 + Z.to_nat (byte_at data 10))%nat in
  let off_b := field_end data off_a in
  let off_c := field_end data off_b in
  (len <? 11)
  || (len <? 11 + byte_at data 10)
  || field_overrun data off_a
  || field_overrun data off_b
  || field_overrun data off_c.

(** The two length bytes [add_integer] writes for a field of [n] bytes. *)
Definition length_prefix (n : nat) : list byte :=
  [byte.of_Z (Z.land (Z.shiftr (Z.of_nat n) 8) 255);
   byte.of_Z (Z.land (Z.of_nat n) 255)].

(** A blob in the layout of the final proof, from the content of its
    fields. *)
Definition proof_layout (recursion_level : byte) (iterations : Z)
  (l_bytes a_bytes b_bytes c_bytes : list byte) : list byte :=
  [byte.of_Z 2; recursion_level] ++ be_bytes 8 iterations
  ++ [byte.of_Z (Z.of_nat (length l_bytes))] ++ l_bytes
  ++ length_prefix (length a_bytes) ++ a_bytes
  ++ length_prefix (length b_bytes) ++ b_bytes
  ++ length_prefix (length c_bytes) ++ c_bytes.

(** A form whose first coefficient takes 65536 bytes, one more than two
    length bytes can announce. *)
Definition oversized_coefficient : Z := 2 ^ 524280.

Definition oversized_form : form := Form.mk oversized_coefficient 1 1.

(** The structure holding a blob. *)
Definition proof_of (data : list byte) (iterations : Z)
  (recursion_level : byte) : cpu_vdf_proof_t :=
  mk_proof (Some data) iterations true recursion_level.

(** A blob for one iteration at recursion level 0 whose field of l
    holds the single byte [l] and whose proof form is (2, 1, 3), a form of
    discriminant -23 and of order three. *)
Definition forged_blob (l : Z) : list byte :=
  proof_layout (byte.of_Z 0) 1 [byte.of_Z l]
    [byte.of_Z 2] [byte.of_Z 1] [byte.of_Z 3].

(** The magnitude of the discriminant -23. *)
Definition bytes_23 : list byte := [byte.of_Z 23].

(** A proof blob without its last byte. *)
Definition cut_blob : list byte :=
  removelast (proof_blob (byte.of_Z 0) 3 7 (Form.mk 2 1 3)).

(** ** The chain of segment proofs

    What the first nine bytes of the blobs of consecutive records hold:
    the version 0x03 and, in 8 bytes, the distance to the previous record
    [prev]. *)
Fixpoint segment_chain (prev : Z) (cps : list CheckpointProof) : Prop :=
  match cps with
  | [] => True
  | cp :: rest =>
      firstn 9 (serialized_proof cp)
      = byte.of_Z 3 :: be_bytes 8 (u64 (iteration cp - prev))
      /\ segment_chain (iteration cp) rest
  end.

(** The iteration of the last record of a list that follows a record at
    [prev]. *)
Definition last_iteration (prev : Z) (cps : list CheckpointProof) : Z :=
  fold_left (fun _ cp => iteration cp) cps prev.

(** The record the worker stores before the first iteration. *)
Definition initial_checkpoint (f : form) : CheckpointProof :=
  mkCheckpointProof 0 f Form.zero 0 [byte.of_Z 4].

(** What every state of a worker that generates streaming proofs
    satisfies: the stored records are the initial one, [sentinel], followed
    by a chain of segment proofs, and the worker remembers the iteration of
    the last of them. *)
Definition streaming_inv (sentinel : CheckpointProof) (w : worker_state)
  : Prop :=
  generate_streaming_proofs (wctx w) = true
  /\ exists rest,
      checkpoint_proofs (wctx w) = sentinel :: rest
      /\ segment_chain (iteration sentinel) rest
      /\ last_checkpoint_iter w = last_iteration (iteration sentinel) rest.

(** ** The iterations of the stored records *)

(** Every element is above the one before it, the first above [prev]. *)
Fixpoint increasing_from (prev : Z) (l : list Z) : Prop :=
  match l with
  | [] => True
  | x :: rest => prev < x /\ increasing_from x rest
  end.

(** The last element of [l], or [prev] when [l] is empty. *)
Definition last_from (prev : Z) (l : list Z) : Z :=
  fold_left (fun _ x => x) l prev.

Definition strictly_increasing (l : list Z) : Prop :=
  match l with
  | [] => True
  | x :: rest => increasing_from x rest
  end.

Definition iterations_of (c : cpu_vdf_context) : list Z :=
  map iteration (checkpoint_proofs c).

(** A load of [should_stop] before the [p]-th one has returned true. *)
Definition stop_seen (stop_at : option nat) (p : nat) : Prop :=
  match stop_at with
  | Some k => (k < p)%nat
  | None => False
  end.

(** What every state of a worker that stores checkpoints satisfies, for the
    target [T] and the iterations [pre] stored before the loop: the records
    added by the loop have increasing iterations, none above the count of
    iterations done, and once that count is [T] the last record is at
    [T]. *)
Definition counting_inv (pre : list Z) (T : Z) (w : worker_state) : Prop :=
  store_checkpoints (wctx w) = true
  /\ 0 < checkpoint_interval (wctx w)
  /\ target_iterations (wctx w) = T
  /\ 0 <= current_iteration (wctx w) <= T
  /\ exists rest,
      iterations_of (wctx w) = pre ++ rest
      /\ increasing_from 0 rest
      /\ last_from 0 rest <= current_iteration (wctx w)
      /\ (current_iteration (wctx w) = T -> last_from 0 rest = T).

(** The iterations [cpu_vdf_get_checkpoint_proofs] returns. *)
Definition returned_iterations
  (r : option (cpu_vdf_error_t * list cpu_vdf_checkpoint_proof_t))
  : option (list Z) :=
  match r with
  | Some (_, entries) => Some (map out_iteration entries)
  | None => None
  end.

(** ** The discriminant adjustment as the specification words it

    "forcing D = 1 (mod 4) by subtracting (D mod 4) and adding 1, stepping
    by 4 toward negative if adjustment made it non-negative". *)
Definition spec_adjust_discriminant (magnitude : Z) : Z :=
  let D := - magnitude in
  if D mod 4 =? 1 then D
  else
    let adjusted := D - D mod 4 + 1 in
    if 0 <=? adjusted then adjusted - 4 else adjusted.

(** ** Inputs of the examples *)

(** [cpu_vdf_get_default_initial_form] (lines 957-962): a marker byte and
    99 zero bytes. *)
Definition cpu_vdf_get_default_initial_form : list byte :=
  byte.of_Z 8 :: repeat (byte.of_Z 0) 99.

(** The challenge 01 02 ... 20 of the tests and the benchmark. *)
Definition test_challenge : list byte :=
  map (fun k => byte.of_Z (Z.of_nat k)) (seq 1 32).

(** A configuration with a checkpoint every second iteration. *)
Definition small_config : cpu_vdf_config_t :=
  mk_config 4 2 true false false 2.

(** A context after a completed run of three iterations for the
    discriminant -23, whose class group has order three. *)
Definition completed_context : cpu_vdf_context :=
  mk_context small_config CPU_VDF_STATE_COMPLETED 3 3 (-23)
    (Form.mk 1 1 6) (Form.mk 1 1 6) (Form.mk 1 1 6) false 0 0 [] 2 true true.

Definition empty_proof : cpu_vdf_proof_t :=
  mk_proof None 0 false (byte.of_Z 0).

Definition empty_status : cpu_vdf_status_t :=
  mk_status 0 0 CPU_VDF_STATE_IDLE (Qmake 0 1) 0 0 true.

(** The context [cpu_vdf_create] returns for [small_config]. *)
Definition fresh_context : cpu_vdf_context :=
  mk_context small_config CPU_VDF_STATE_IDLE 0 0 0 Form.zero Form.zero
    Form.zero false 0 0 [] 0 false false.

(** The context of a call that returned one. *)
Definition context_of (o : option cpu_vdf_context) : cpu_vdf_context :=
  match o with
  | Some c => c
  | None => fresh_context
  end.

(** A run of four iterations with a checkpoint every second one, started
    from the test challenge with a 16-bit discriminant and never stopped. *)
Definition started_streaming : cpu_vdf_context :=
  context_of
    (snd (cpu_vdf_start_computation (H := Reference.lib) (Some fresh_context)
            (Some test_challenge) None 4 16)).

Definition streaming_run : cpu_vdf_context :=
  context_of
    (vdf_computation_thread (H := Reference.lib) 400 None 0 started_streaming).

(** A run of four iterations with a checkpoint every second one, started
    from the magnitude 23 on a fresh context and never stopped. *)
Definition started_from_bytes : cpu_vdf_context :=
  context_of
    (snd (cpu_vdf_start_computation_with_discriminant (H := Reference.lib)
            (Some fresh_context) (Some bytes_23) None 4)).

Definition run_from_bytes : cpu_vdf_context :=
  context_of
    (vdf_computation_thread (H := Reference.lib) 400 None 0
       started_from_bytes).

(** ** Configuration defaults and setters (lines 347-358 and 1053-1091) *)

Definition set_config (x : cpu_vdf_context) (v : cpu_vdf_config_t) :=
  mk_context v (state x) (current_iteration x) (target_iterations x)
    (discriminant x) (initial_form x) (current_form x) (final_form x)
    (should_stop x) (start_time x) (iterations_per_second x)
    (checkpoint_proofs x) (checkpoint_interval x) (store_checkpoints x)
    (generate_streaming_proofs x).

(** [cpu_vdf_config_init]: [hw] is what
    [std::thread::hardware_concurrency()] returns, an [unsigned]; the two
    thread counts are [uint8_t] fields, so each assignment keeps the low
    eight bits. *)
Definition cpu_vdf_config_init (hw : Z) (config : option cpu_vdf_config_t)
  : option cpu_vdf_config_t :=
  match config with
  | None => None
  | Some _ =>
      let threads := u8 hw in
      let threads := if threads =? 0 then 4 else threads in
      Some (mk_config threads (u8 (Z.max 1 (threads / 2)))
              true false false 65536)
  end.

(** [cpu_vdf_set_thread_count] (lines 1053-1066); the counts are
    [uint8_t] arguments. *)
Definition cpu_vdf_set_thread_count (ctx : option cpu_vdf_context)
  (threads proofs : Z) : cpu_vdf_error_t * option cpu_vdf_context :=
  match ctx with
  | Some c =>
      if (threads =? 0) || (threads <? proofs)
      then (CPU_VDF_ERROR_INVALID_PARAMETERS, ctx)
      else if state_eqb (state c) CPU_VDF_STATE_COMPUTING
      then (CPU_VDF_ERROR_ALREADY_RUNNING, ctx)
      else
        (CPU_VDF_SUCCESS,
         Some (set_config c
                 (mk_config threads proofs
                    (enable_fast_mode (config c)) (enable_avx512 (config c))
                    (enable_logging (config c)) (segment_size (config c)))))
  | None => (CPU_VDF_ERROR_INVALID_PARAMETERS, ctx)
  end.

(** [cpu_vdf_set_optimizations] (lines 1068-1079). *)
Definition cpu_vdf_set_optimizations (ctx : option cpu_vdf_context)
  (fast_mode avx512 : bool) : cpu_vdf_error_t * option cpu_vdf_context :=
  match ctx with
  | Some c =>
      if state_eqb (state c) CPU_VDF_STATE_COMPUTING
      then (CPU_VDF_ERROR_ALREADY_RUNNING, ctx)
      else
        (CPU_VDF_SUCCESS,
         Some (set_config c
                 (mk_config (num_threads (config c))
                    (proof_threads (config c)) fast_mode avx512
                    (enable_logging (config c)) (segment_size (config c)))))
  | None => (CPU_VDF_ERROR_INVALID_PARAMETERS, ctx)
  end.

(** [cpu_vdf_set_segment_size] (lines 1081-1091); the size is a
    [uint32_t] argument. *)
Definition cpu_vdf_set_segment_size (ctx : option cpu_vdf_context)
  (size : Z) : cpu_vdf_error_t * option cpu_vdf_context :=
  match ctx with
  | Some c =>
      if size =? 0 then (CPU_VDF_ERROR_INVALID_PARAMETERS, ctx)
      else if state_eqb (state c) CPU_VDF_STATE_COMPUTING
      then (CPU_VDF_ERROR_ALREADY_RUNNING, ctx)
      else
        (CPU_VDF_SUCCESS,
         Some (set_config c
                 (mk_config (num_threads (config c))
                    (proof_threads (config c)) (enable_fast_mode (config c))
                    (enable_avx512 (config c)) (enable_logging (config c))
                    size)))
  | None => (CPU_VDF_ERROR_INVALID_PARAMETERS, ctx)
  end.

(** ** Results of a run (lines 578-613) *)

Definition cpu_vdf_is_complete (ctx : option cpu_vdf_context) : bool :=
  match ctx with
  | Some c => state_eqb (state c) CPU_VDF_STATE_COMPLETED
  | None => false
  end.

(** A 256-byte array after [memset(.., 0, 256)] and an [mpz_export] of
    [bs] to its start. *)
Definition zero_filled (bs : list byte) : list byte :=
  bs ++ repeat Byte.x00 (256 - length bs).

(** [cpu_vdf_get_result_form] (lines 583-613). The three arrays of the
    output hold 256 bytes each; an export of more than 256 bytes writes past
    its array, and that outcome, which C++ leaves undefined, is the outer
    [None]. *)
Definition cpu_vdf_get_result_form (ctx : option cpu_vdf_context)
  (form_out : option cpu_vdf_form_t)
  : option (cpu_vdf_error_t * option cpu_vdf_form_t) :=
  match ctx, form_out with
  | Some c, Some _ =>
      if negb (state_eqb (state c) CPU_VDF_STATE_COMPLETED)
      then Some (CPU_VDF_ERROR_COMPUTATION_FAILED, form_out)
      else
        let a_bytes := mpz_export (Form.a (final_form c)) in
        let b_bytes := mpz_export (Form.b (final_form c)) in
        let c_bytes := mpz_export (Form.c (final_form c)) in
        let a_size := Z.of_nat (length a_bytes) in
        let b_size := Z.of_nat (length b_bytes) in
        let c_size := Z.of_nat (length c_bytes) in
        if (256 <? a_size) || (256 <? b_size) || (256 <? c_size) then None
        else
          Some (CPU_VDF_SUCCESS,
                Some (mk_form_t (zero_filled a_bytes) (zero_filled b_bytes)
                        (zero_filled c_bytes)
                        (Z.max a_size (Z.max b_size c_size))))
  | _, _ => Some (CPU_VDF_ERROR_INVALID_PARAMETERS, form_out)
  end.

(** ** The number of records *)

(** [cpu_vdf_get_checkpoint_count] (lines 1212-1218): the error code and
    [*count] after the call. *)
Definition cpu_vdf_get_checkpoint_count (ctx : option cpu_vdf_context)
  (count : option nat) : cpu_vdf_error_t * option nat :=
  match ctx, count with
  | Some c, Some _ => (CPU_VDF_SUCCESS, Some (length (checkpoint_proofs c)))
  | _, _ => (CPU_VDF_ERROR_INVALID_PARAMETERS, count)
  end.

(** ** Discriminants from a challenge (lines 898-955) *)

(** [cpu_vdf_verify_proof_with_challenge]. The magnitude of the discriminant
    is exported into a vector of [discriminant_size_bits / 8 + 8] bytes; an
    export longer than the vector is the outer [None], as is the division by
    zero of the verifier. *)
Definition cpu_vdf_verify_proof_with_challenge `{VdfLib}
  (challenge_hash : option (list byte)) (discriminant_size_bits : Z)
  (initial_form_arg : option (list byte)) (proof : option cpu_vdf_proof_t)
  (iterations : Z) (recursion_level : byte) : option bool :=
  match challenge_hash, proof with
  | Some ch, Some _ =>
      let seed := seed_of ch in
      let D := generate_discriminant discriminant_size_bits seed in
      let disc_bytes := mpz_export (Z.abs D) in
      if discriminant_size_bits / 8 + 8 <? Z.of_nat (length disc_bytes)
      then None
      else
        cpu_vdf_verify_proof (Some disc_bytes) initial_form_arg proof
          iterations recursion_level
  | _, _ => Some false
  end.

(** [cpu_vdf_create_discriminant]. [discriminant_out] is the caller's buffer
    and its length the [discriminant_out_size] passed with it. The result is
    the [int] returned and the buffer after the call; an export longer than
    the buffer is [None]. *)
Definition cpu_vdf_create_discriminant `{VdfLib}
  (challenge_hash : option (list byte)) (discriminant_size_bits : Z)
  (discriminant_out : option (list byte))
  : option (Z * option (list byte)) :=
  match challenge_hash, discriminant_out with
  | Some ch, Some out =>
      if Z.of_nat (length out) <? discriminant_size_bits / 8
      then Some (error_code CPU_VDF_ERROR_INVALID_PARAMETERS, discriminant_out)
      else
        let seed := seed_of ch in
        let D := generate_discriminant discriminant_size_bits seed in
        let written := mpz_export D in
        if Z.of_nat (length out) <? Z.of_nat (length written) then None
        else
          Some (Z.of_nat (length written),
                Some (written ++ skipn (length written) out))
  | _, _ =>
      Some (error_code CPU_VDF_ERROR_INVALID_PARAMETERS, discriminant_out)
  end.

(** ** What a run computes

    The form after [n] squarings of [x]. *)
Definition iterate_square `{VdfLib} (n : Z) (x : form) : form :=
  Nat.iter (Z.to_nat n) square x.

(** The iterations among 1, ..., [n] at which the worker stores a record:
    the multiples of the interval [k] and the target [T] (lines
    266-267). *)
Definition expected_iterations (k T : Z) (n : nat) : list Z :=
  filter (fun t => (t mod k =? 0) || (t =? T)) (map Z.of_nat (seq 1 n)).

(** The record of iteration [t] in a run without streaming proofs (lines
    288-291). *)
Definition plain_record `{VdfLib} (x0 : form) (t : Z) : CheckpointProof :=
  mkCheckpointProof t (iterate_square t x0) Form.zero 0 [].

(** The records of the iterations [ts] in a run with streaming proofs
    (lines 273-285): each holds the checkpoint proof of the segment that
    starts at the record before it, [prev] for the first, with its
    iteration field set to the iteration reached. *)
Fixpoint segment_records `{VdfLib} (fuel : nat) (D : Z) (x0 : form)
  (prev : Z) (ts : list Z) : option (list CheckpointProof) :=
  match ts with
  | [] => Some []
  | t :: rest =>
      match generate_checkpoint_proof fuel (iterate_square prev x0)
              (iterate_square t x0) (t - prev) D with
      | None => None
      | Some cp =>
          match segment_records fuel D x0 t rest with
          | None => None
          | Some cps => Some (set_iteration cp t :: cps)
          end
      end
  end.

(** The worker stores records: the two tests of line 263. *)
Definition stores (c : cpu_vdf_context) : bool :=
  store_checkpoints c && (0 <? checkpoint_interval c).

(** The records a worker has added after [n] iterations, for the context
    [c1] it entered its loop with. *)
Definition records_after `{VdfLib} (fuel : nat) (c1 : cpu_vdf_context)
  (n : Z) : option (list CheckpointProof) :=
  let ts :=
    expected_iterations (checkpoint_interval c1) (target_iterations c1)
      (Z.to_nat n) in
  if stores c1 then
    if generate_streaming_proofs c1
    then segment_records fuel (discriminant c1) (initial_form c1) 0 ts
    else Some (map (plain_record (initial_form c1)) ts)
  else Some [].

(** What every state of the worker satisfies after [n] iterations of a loop
    entered with the context [c1]: the form is the [n]-th iterate of the
    initial form, and the context differs from [c1] in the iteration count
    and the records added. *)
Definition run_inv `{VdfLib} (fuel : nat) (c1 : cpu_vdf_context) (n : Z)
  (w : worker_state) : Prop :=
  0 <= n
  /\ current w = iterate_square n (initial_form c1)
  /\ (stores c1 = true -> generate_streaming_proofs c1 = true ->
      last_checkpoint_iter w
      = last_from 0
          (expected_iterations (checkpoint_interval c1)
             (target_iterations c1) (Z.to_nat n))
      /\ last_checkpoint w
         = iterate_square (last_checkpoint_iter w) (initial_form c1))
  /\ exists recs,
      records_after fuel c1 n = Some recs
      /\ wctx w
         = set_checkpoint_proofs
             (set_current_iteration c1
                (if n =? 0 then current_iteration c1 else n))
             (checkpoint_proofs c1 ++ recs).

(** The context the thread function hands to its loop. *)
Definition loop_entry (now : Z) (c0 : cpu_vdf_context) : cpu_vdf_context :=
  worker_init (set_start_time (set_state c0 CPU_VDF_STATE_COMPUTING) now).

(** The form with the magnitudes of the coefficients of [f]. *)
Definition magnitudes (f : form) : form :=
  Form.mk (Z.abs (Form.a f)) (Z.abs (Form.b f)) (Z.abs (Form.c f)).

(** The run of [started_from_bytes] when the third load of [should_stop]
    and the later ones see a stop request. *)
Definition stopped_from_bytes : cpu_vdf_context :=
  context_of
    (vdf_computation_thread (H := Reference.lib) 400 (Some 3%nat) 0
       started_from_bytes).

(** Consecutive records of a streaming run: the record [cp] that follows
    [prev] is the checkpoint proof of the segment between them, with its
    iteration field set to the iteration reached. *)
Fixpoint proof_chain `{VdfLib} (fuel : nat) (D : Z) (prev : CheckpointProof)
  (cps : list CheckpointProof) : Prop :=
  match cps with
  | [] => True
  | cp :: rest =>
      generate_checkpoint_proof fuel (checkpoint_form prev)
        (checkpoint_form cp) (iteration cp - iteration prev) D
      = Some (set_iteration cp (iteration cp - iteration prev))
      /\ proof_chain fuel D cp rest
  end.

(** A configuration without checkpoints, and the run of four iterations
    started on it from the magnitude 23 and never stopped. *)
Definition plain_config : cpu_vdf_config_t :=
  mk_config 4 2 true false false 0.

Definition started_plain : cpu_vdf_context :=
  context_of
    (snd (cpu_vdf_start_computation_with_discriminant (H := Reference.lib)
            (cpu_vdf_create (Some plain_config)) (Some bytes_23) None 4)).

Definition plain_run : cpu_vdf_context :=
  context_of
    (vdf_computation_thread (H := Reference.lib) 400 None 0 started_plain).

(** ** The hash helper by its keys

    The loop of the hash helper changes its state byte by the low byte of
    [data[j] + i + j] alone: the state is xor-ed with that key and rotated
    left by one bit. *)

Definition hash_mix (h k : Z) : Z :=
  u8 (Z.lor (Z.shiftl (Z.lxor h k) 1) (Z.shiftr (Z.lxor h k) 7)).

(** The keys of the bytes of [data], the first of which is at position
    [j]. *)
Fixpoint hash_keys (i j : Z) (data : list byte) : list Z :=
  match data with
  | [] => []
  | d :: rest => u8 (byte.unsigned d + i + j) :: hash_keys i (j + 1) rest
  end.

Definition hash_run (h : Z) (ks : list Z) : Z := fold_left hash_mix ks h.

Definition is_u8 (x : Z) : Prop := 0 <= x < 256.

(** The eight-bit values. *)
Definition u8_values : list Z := map Z.of_nat (seq 0 256).

(** ** A run on a discriminant of 65536 bytes

    The magnitude 03 ff ... ff is 2^524282 - 1, congruent to 3 modulo 4, so
    the discriminant is its negation. The principal form of that
    discriminant is (1, 1, 256^65535), whose third coefficient takes the
    65536 bytes 01 00 ... 00. *)

Definition wide_bytes : list byte :=
  Byte.x03 :: repeat Byte.xff (Z.to_nat 65535).

Definition wide_coefficient_bytes : list byte :=
  Byte.x01 :: repeat Byte.x00 (Z.to_nat 65535).

(** A run of one iteration without checkpoints, started from these bytes
    and never stopped. *)
Definition wide_started : cpu_vdf_context :=
  context_of
    (snd (cpu_vdf_start_computation_with_discriminant (H := Reference.lib)
            (cpu_vdf_create (Some plain_config)) (Some wide_bytes) None 1)).

Definition wide_run : cpu_vdf_context :=
  context_of
    (vdf_computation_thread (H := Reference.lib) 400 None 0 wide_started).

(** The Fiat-Shamir prime of that run. *)
Definition wide_prime : Z :=
  14916085345139832072781140641112718299438990472572520288448154367044794431547119.

(** * Codec lemmas *)

Lemma Some_inj {A : Type} (x y : A) : Some x = Some y -> x = y.
Proof. congruence. Qed.

Lemma be_bytes_length (n : nat) (v : Z) : length (be_bytes n v) = n.
Proof. induction n as [|k IH]; simpl; [reflexivity | now rewrite IH]. Qed.

Lemma mpz_import_from (bs : list byte) (acc : Z) :
  fold_left (fun a b => a * 256 + byte.unsigned b) bs acc
  = acc * 256 ^ Z.of_nat (length bs) + mpz_import bs.
Proof.
  unfold mpz_import. revert acc.
  induction bs as [|b bs IH]; intro acc.
  - simpl. lia.
  - cbn [fold_left length]. rewrite IH, (IH (0 * 256 + _)).
    rewrite Nat2Z.inj_succ, Z.pow_succ_r by lia. ring.
Qed.

Lemma mpz_import_cons (b : byte) (bs : list byte) :
  mpz_import (b :: bs)
  = byte.unsigned b * 256 ^ Z.of_nat (length bs) + mpz_import bs.
Proof.
  unfold mpz_import at 1. cbn [fold_left]. rewrite mpz_import_from. ring.
Qed.

Lemma mpz_import_app (xs ys : list byte) :
  mpz_import (xs ++ ys)
  = mpz_import xs * 256 ^ Z.of_nat (length ys) + mpz_import ys.
Proof.
  unfold mpz_import at 1. rewrite fold_left_app.
  fold (mpz_import xs). apply mpz_import_from.
Qed.

Lemma mpz_import_range (bs : list byte) :
  0 <= mpz_import bs < 256 ^ Z.of_nat (length bs).
Proof.
  induction bs as [|b bs IH].
  - cbn. lia.
  - rewrite mpz_import_cons. cbn [length].
    rewrite Nat2Z.inj_succ, Z.pow_succ_r by lia.
    pose proof (byte.unsigned_range b) as Hb. change (2 ^ 8) with 256 in Hb.
    nia.
Qed.

Lemma low_byte (v : Z) : byte.unsigned (byte.of_Z (Z.land v 255)) = v mod 256.
Proof.
  rewrite byte.unsigned_of_Z. unfold byte.wrap.
  change 255 with (Z.ones 8). rewrite Z.land_ones by lia.
  change (2 ^ 8) with 256. apply Z.mod_mod. lia.
Qed.

Lemma mpz_import_be_bytes (n : nat) (v : Z) :
  mpz_import (be_bytes n v) = v mod 256 ^ Z.of_nat n.
Proof.
  induction n as [|k IH].
  - cbn. now rewrite Z.mod_1_r.
  - cbn [be_bytes]. rewrite mpz_import_cons, be_bytes_length, IH, low_byte.
    rewrite Z.shiftr_div_pow2 by lia.
    replace (2 ^ (Z.of_nat k * 8)) with (256 ^ Z.of_nat k)
      by (change 256 with (2 ^ 8); rewrite <- Z.pow_mul_r by lia; f_equal; lia).
    rewrite Nat2Z.inj_succ, Z.pow_succ_r by lia.
    assert (Hp : 0 < 256 ^ Z.of_nat k) by (apply Z.pow_pos_nonneg; lia).
    rewrite (Z.mul_comm 256), Z.rem_mul_r by lia. ring.
Qed.

Lemma mpz_export_count_bound (z : Z) :
  Z.abs z < 256 ^ Z.of_nat (mpz_export_count z).
Proof.
  unfold mpz_export_count. destruct (Z.eqb_spec z 0) as [->|Hz].
  - cbn. lia.
  - assert (Ha : 0 < Z.abs z) by lia.
    pose proof (Z.log2_nonneg (Z.abs z)) as Hl.
    assert (Hq : 0 <= Z.log2 (Z.abs z) / 8) by (apply Z.div_pos; lia).
    rewrite Z2Nat.id by lia.
    change 256 with (2 ^ 8). rewrite <- Z.pow_mul_r by lia.
    apply Z.log2_lt_pow2; [lia|].
    pose proof (Z.mod_pos_bound (Z.log2 (Z.abs z)) 8 ltac:(lia)).
    pose proof (Z.div_mod (Z.log2 (Z.abs z)) 8 ltac:(lia)). lia.
Qed.

(** Import after export gives the magnitude: the sign is lost. *)
Lemma mpz_import_export (z : Z) : mpz_import (mpz_export z) = Z.abs z.
Proof.
  unfold mpz_export. rewrite mpz_import_be_bytes.
  apply Z.mod_small. split; [lia | apply mpz_export_count_bound].
Qed.

Lemma mpz_export_length (z : Z) :
  length (mpz_export z) = mpz_export_count z.
Proof. apply be_bytes_length. Qed.

(** * Status *)

(** C10. [cpu_vdf_get_status] on a context and a status structure succeeds
    and writes [has_proof_ready = false], whatever the context holds (its
    state, its iteration counts, a finished run included); with a null
    argument it writes nothing. *)
Theorem get_status_never_reports_proof_ready
  (c : cpu_vdf_context) (s : cpu_vdf_status_t) (now : Z) :
  (exists s',
      cpu_vdf_get_status (Some c) (Some s) now = (CPU_VDF_SUCCESS, Some s')
      /\ status_has_proof_ready s' = false
      /\ status_state s' = state c)
  /\ cpu_vdf_get_status None (Some s) now
     = (CPU_VDF_ERROR_INVALID_PARAMETERS, Some s)
  /\ cpu_vdf_get_status (Some c) None now
     = (CPU_VDF_ERROR_INVALID_PARAMETERS, None).
Proof.
  split; [|split; reflexivity].
  eexists. cbn [cpu_vdf_get_status]. split; [reflexivity|].
  split; reflexivity.
Qed.

(** * Proofs for an intermediate iteration count *)

(** C9. [cpu_vdf_generate_proof_for_iterations] with a target not above the
    run's iteration count returns what [cpu_vdf_generate_proof] returns: the
    proof of the full run; a larger target is rejected. *)
Theorem generate_proof_for_iterations_ignores_target `{VdfLib}
  (fuel : nat) (c : cpu_vdf_context) (target : Z)
  (recursion_level : byte) (proof : option cpu_vdf_proof_t) :
  target <= target_iterations c ->
  cpu_vdf_generate_proof_for_iterations fuel (Some c) target recursion_level
    proof
  = cpu_vdf_generate_proof fuel (Some c) recursion_level proof.
Proof.
  intros Hle. unfold cpu_vdf_generate_proof_for_iterations.
  destruct proof as [p|]; [|reflexivity].
  destruct (Z.ltb_spec (target_iterations c) target); [lia | reflexivity].
Qed.

Lemma generate_proof_for_iterations_rejects `{VdfLib}
  (fuel : nat) (c : cpu_vdf_context) (target : Z) (recursion_level : byte)
  (proof : cpu_vdf_proof_t) :
  target_iterations c < target ->
  cpu_vdf_generate_proof_for_iterations fuel (Some c) target recursion_level
    (Some proof)
  = Some (CPU_VDF_ERROR_INVALID_PARAMETERS, Some proof).
Proof.
  intros Hlt. unfold cpu_vdf_generate_proof_for_iterations.
  destruct (Z.ltb_spec (target_iterations c) target); [reflexivity | lia].
Qed.

Lemma generate_proof_for_iterations_ignores_target_witness :
  2 <= target_iterations completed_context
  /\ cpu_vdf_generate_proof_for_iterations (H := Reference.lib) 400
       (Some completed_context) 2 (byte.of_Z 0) (Some empty_proof)
     = cpu_vdf_generate_proof (H := Reference.lib) 400 (Some completed_context)
         (byte.of_Z 0) (Some empty_proof).
Proof.
  assert (Hle : 2 <= target_iterations completed_context)
    by (vm_compute; discriminate).
  split; [exact Hle|].
  apply generate_proof_for_iterations_ignores_target. exact Hle.
Defined.

(** * The discriminant of a run started from bytes *)

Lemma import_discriminant_spec (dbytes : list byte) :
  import_discriminant dbytes = spec_adjust_discriminant (mpz_import dbytes).
Proof.
  unfold import_discriminant, spec_adjust_discriminant.
  set (d := - mpz_import dbytes).
  pose proof (Z.mod_pos_bound d 4 ltac:(lia)) as Hm.
  pose proof (Z.div_mod d 4 ltac:(lia)) as Hd.
  destruct (Z.eqb_spec (d mod 4) 1); [reflexivity|].
  destruct (Z.ltb_spec 0 (d - d mod 4 + 1));
    destruct (Z.leb_spec 0 (d - d mod 4 + 1)); try reflexivity; lia.
Qed.

Lemma import_discriminant_negative (dbytes : list byte) :
  import_discriminant dbytes < 0.
Proof.
  unfold import_discriminant.
  pose proof (mpz_import_range dbytes) as [Hge _].
  set (d := - mpz_import dbytes) in *.
  pose proof (Z.mod_pos_bound d 4 ltac:(lia)) as Hm.
  pose proof (Z.div_mod d 4 ltac:(lia)) as Hd.
  destruct (Z.eqb_spec (d mod 4) 1); [lia|].
  destruct (Z.ltb_spec 0 (d - d mod 4 + 1)); lia.
Qed.

Lemma import_discriminant_mod4 (dbytes : list byte) :
  import_discriminant dbytes mod 4 = 1.
Proof.
  unfold import_discriminant.
  set (d := - mpz_import dbytes).
  pose proof (Z.div_mod d 4 ltac:(lia)) as Hd.
  destruct (Z.eqb_spec (d mod 4) 1) as [E|E]; [exact E|].
  destruct (Z.ltb_spec 0 (d - d mod 4 + 1)).
  - replace (d - d mod 4 + 1 - 4) with (1 + (d / 4 - 1) * 4) by lia.
    now rewrite Z.mod_add by lia.
  - replace (d - d mod 4 + 1) with (1 + (d / 4) * 4) by lia.
    now rewrite Z.mod_add by lia.
Qed.

(** C6. A call of [cpu_vdf_start_computation_with_discriminant] that
    passes the parameter and state checks (non-null context and bytes, a
    size and an iteration count that are not zero, a context that is not
    computing) imports the magnitude, negates it, adjusts it as the
    specification says and stores the result D in the context, with any
    byte string and whatever it returns afterwards. D is strictly negative
    and congruent to 1 modulo 4, so the condition under which line 475
    returns InvalidDiscriminant never arises, and D is the discriminant of
    a call that succeeded; such a call has had its generator accepted. *)
Theorem start_with_discriminant_forces_residue `{VdfLib}
  (c : cpu_vdf_context) (dbytes : list byte)
  (initial_form_arg : option (list byte)) (iterations : Z) :
  dbytes <> [] -> iterations <> 0 ->
  state c <> CPU_VDF_STATE_COMPUTING ->
  let D := spec_adjust_discriminant (mpz_import dbytes) in
  let result :=
    cpu_vdf_start_computation_with_discriminant (Some c) (Some dbytes)
      initial_form_arg iterations in
  exists c',
    snd result = Some c'
    /\ discriminant c' = D
    /\ D < 0
    /\ D mod 4 = 1
    /\ fst result <> CPU_VDF_ERROR_INVALID_PARAMETERS
    /\ fst result <> CPU_VDF_ERROR_ALREADY_RUNNING
    /\ (fst result = CPU_VDF_SUCCESS ->
        check_valid (generator D) D = true
        /\ initial_form c' = generator D
        /\ target_iterations c' = iterations).
Proof.
  intros Hne Hit Hst D result.
  assert (HD : import_discriminant dbytes = D)
    by apply import_discriminant_spec.
  pose proof (import_discriminant_negative dbytes) as Hneg.
  pose proof (import_discriminant_mod4 dbytes) as Hmod.
  rewrite HD in Hneg, Hmod.
  subst result. unfold cpu_vdf_start_computation_with_discriminant.
  destruct dbytes as [|b0 bs]; [congruence|].
  replace (Z.of_nat (length (b0 :: bs)) =? 0) with false
    by (symmetry; apply Z.eqb_neq; cbn [length]; lia).
  replace (iterations =? 0) with false by (symmetry; now apply Z.eqb_neq).
  cbn [orb].
  replace (state_eqb (state c) CPU_VDF_STATE_COMPUTING) with false
    by (destruct (state c); try reflexivity; congruence).
  cbn [discriminant set_discriminant set_initial_form initial_form].
  rewrite HD.
  destruct (Z.leb_spec 0 D); [lia|].
  destruct (check_valid (generator D) D) eqn:Hvalid; cbn [negb fst snd];
    eexists; (split; [reflexivity|]); cbn;
    repeat split; try assumption; try discriminate.
Qed.

Lemma start_with_discriminant_forces_residue_witness :
  exists c',
    cpu_vdf_start_computation_with_discriminant (H := Reference.lib)
      (Some fresh_context) (Some [byte.of_Z 24]) None 4
    = (CPU_VDF_SUCCESS, Some c')
    /\ discriminant c' = -23.
Proof.
  destruct (start_with_discriminant_forces_residue (H := Reference.lib)
              fresh_context [byte.of_Z 24] None 4)
    as (c' & Hctx & HD & _); [discriminate | discriminate | discriminate |].
  exists c'. split; [|exact HD].
  rewrite (surjective_pairing
             (cpu_vdf_start_computation_with_discriminant
                (H := Reference.lib) (Some fresh_context)
                (Some [byte.of_Z 24]) None 4)).
  rewrite Hctx. f_equal.
Defined.

(** * The initial form *)

(** C3 (as amended). The initial-form argument is not read: both start entry
    points set the initial form to the generator of the discriminant, and the
    verifier takes the generator as x, whether the argument is null or
    not. *)
Theorem initial_form_argument_is_ignored `{VdfLib}
  (ctx : option cpu_vdf_context) (bytes32 dbytes : option (list byte))
  (initial_form_bytes : option (list byte)) (iterations bits : Z)
  (proof : option cpu_vdf_proof_t) (recursion_level : byte) :
  cpu_vdf_start_computation ctx bytes32 initial_form_bytes iterations bits
  = cpu_vdf_start_computation ctx bytes32 None iterations bits
  /\ (forall c',
        cpu_vdf_start_computation ctx bytes32 initial_form_bytes iterations
          bits = (CPU_VDF_SUCCESS, Some c') ->
        initial_form c' = generator (discriminant c'))
  /\ cpu_vdf_start_computation_with_discriminant ctx dbytes
       initial_form_bytes iterations
     = cpu_vdf_start_computation_with_discriminant ctx dbytes None iterations
  /\ (forall c',
        cpu_vdf_start_computation_with_discriminant ctx dbytes
          initial_form_bytes iterations = (CPU_VDF_SUCCESS, Some c') ->
        initial_form c' = generator (discriminant c'))
  /\ cpu_vdf_verify_proof dbytes initial_form_bytes proof iterations
       recursion_level
     = cpu_vdf_verify_proof dbytes None proof iterations recursion_level.
Proof.
  split; [|split; [|split; [|split]]].
  - unfold cpu_vdf_start_computation.
    destruct ctx, bytes32, initial_form_bytes; reflexivity.
  - unfold cpu_vdf_start_computation.
    destruct ctx as [c|], bytes32 as [ch|]; try discriminate.
    destruct (iterations =? 0); [discriminate|].
    destruct (state_eqb (state c) CPU_VDF_STATE_COMPUTING); [discriminate|].
    intros c' Hc'. injection Hc' as <-.
    destruct initial_form_bytes; reflexivity.
  - reflexivity.
  - unfold cpu_vdf_start_computation_with_discriminant.
    destruct ctx as [c|], dbytes as [db|]; try discriminate.
    destruct ((Z.of_nat (length db) =? 0) || (iterations =? 0));
      [discriminate|].
    destruct (state_eqb (state c) CPU_VDF_STATE_COMPUTING); [discriminate|].
    destruct (0 <=? _); [discriminate|].
    match goal with |- context [negb ?b] => destruct b end; [|discriminate].
    intros c' Hc'. injection Hc' as <-. reflexivity.
  - unfold cpu_vdf_verify_proof, wesolowski_check.
    destruct dbytes, proof as [p|]; try reflexivity.
    destruct (proof_data p); [|reflexivity].
    destruct (_ <? 10); [reflexivity|].
    destruct (parse_proof _ _ _) as [[lp pf]|]; [|reflexivity].
    destruct initial_form_bytes; reflexivity.
Qed.

(** C3, the claim as written fails: a start with a supplied initial form
    that is not the default one ends with the same initial form as a start
    with the default one, the generator of the discriminant. *)
Lemma supplied_initial_form_not_used :
  let other := byte.of_Z 0 :: repeat (byte.of_Z 1) 99 in
  let start init :=
    cpu_vdf_start_computation (H := Reference.lib)
      (cpu_vdf_create (Some small_config)) (Some test_challenge) init 5 16 in
  other <> cpu_vdf_get_default_initial_form
  /\ start (Some other) = start (Some cpu_vdf_get_default_initial_form)
  /\ fst (start (Some other)) = CPU_VDF_SUCCESS
  /\ option_map initial_form (snd (start (Some other)))
     = Some (Reference.generator (-64319))
  /\ option_map discriminant (snd (start (Some other))) = Some (-64319).
Proof.
  cbv zeta. split; [discriminate|].
  split; [reflexivity|]. vm_compute. repeat split.
Qed.

(** * Reading a blob *)

Lemma lor_shiftl_8 (hi lo : Z) :
  0 <= lo < 256 -> Z.lor (Z.shiftl hi 8) lo = hi * 256 + lo.
Proof.
  intros Hlo.
  assert (Hland : Z.land (Z.shiftl hi 8) lo = 0).
  { apply Z.bits_inj'. intros n Hn.
    rewrite Z.land_spec, Z.bits_0.
    destruct (Z.lt_ge_cases n 8) as [Hlt|Hge].
    - rewrite Z.shiftl_spec_low by lia. reflexivity.
    - destruct (Z.eq_dec lo 0) as [->|Hnz].
      + rewrite Z.bits_0. apply andb_false_r.
      + rewrite (Z.bits_above_log2 lo n); [apply andb_false_r | lia |].
        apply Z.log2_lt_pow2; [lia|].
        apply Z.lt_le_trans with (2 ^ 8); [change (2 ^ 8) with 256; lia|].
        apply Z.pow_le_mono_r; lia. }
  pose proof (Zbitwise.Z.add_lor_land (Z.shiftl hi 8) lo) as Hadd.
  rewrite Hland in Hadd. rewrite Z.shiftl_mul_pow2 in * by lia.
  change (2 ^ 8) with 256 in *. lia.
Qed.

Lemma read_iterations_snoc (bs : list byte) (b : byte) :
  read_iterations (bs ++ [b])
  = u64 (Z.lor (Z.shiftl (read_iterations bs) 8) (byte.unsigned b)).
Proof. unfold read_iterations. now rewrite fold_left_app. Qed.

Lemma mpz_import_snoc (bs : list byte) (b : byte) :
  mpz_import (bs ++ [b]) = mpz_import bs * 256 + byte.unsigned b.
Proof. unfold mpz_import. now rewrite fold_left_app. Qed.

(** The [uint64_t] accumulation of eight bytes does not wrap. *)
Lemma read_iterations_import (bs : list byte) :
  (length bs <= 8)%nat -> read_iterations bs = mpz_import bs.
Proof.
  induction bs as [|b bs IH] using rev_ind; intros Hlen; [reflexivity|].
  rewrite length_app in Hlen. cbn [length] in Hlen.
  rewrite read_iterations_snoc, mpz_import_snoc, IH by lia.
  pose proof (byte.unsigned_range b) as Hb. change (2 ^ 8) with 256 in Hb.
  rewrite lor_shiftl_8 by exact Hb.
  pose proof (mpz_import_range bs) as Hr.
  assert (Hp : 256 ^ Z.of_nat (length bs) <= 256 ^ 7)
    by (apply Z.pow_le_mono_r; lia).
  unfold u64. apply Z.mod_small.
  change (2 ^ 64) with (256 ^ 7 * 256). nia.
Qed.

Lemma read_iterations_be_bytes (t : Z) :
  read_iterations (be_bytes 8 t) = t mod 2 ^ 64.
Proof.
  rewrite read_iterations_import by (rewrite be_bytes_length; lia).
  now rewrite mpz_import_be_bytes.
Qed.

Lemma length_prefix_value (n : nat) :
  Z.of_nat n < 65536 ->
  match length_prefix n with
  | [hi; lo] =>
      Z.lor (Z.shiftl (byte.unsigned hi) 8) (byte.unsigned lo) = Z.of_nat n
  | _ => False
  end.
Proof.
  intros Hn. unfold length_prefix.
  rewrite !low_byte, Z.shiftr_div_pow2 by lia. change (2 ^ 8) with 256.
  rewrite lor_shiftl_8 by (apply Z.mod_pos_bound; lia).
  rewrite (Z.mod_small (Z.of_nat n / 256))
    by (split; [apply Z.div_pos; lia | apply Z.div_lt_upper_bound; lia]).
  pose proof (Z.div_mod (Z.of_nat n) 256 ltac:(lia)). lia.
Qed.

Lemma firstn_exact {A : Type} (n : nat) (xs ys : list A) :
  length xs = n -> firstn n (xs ++ ys) = xs.
Proof.
  intros <-. rewrite firstn_app, Nat.sub_diag, firstn_all.
  cbn [firstn]. apply app_nil_r.
Qed.

Lemma skipn_exact {A : Type} (n : nat) (xs ys : list A) :
  length xs = n -> skipn n (xs ++ ys) = ys.
Proof.
  intros <-. rewrite skipn_app, Nat.sub_diag, skipn_all. reflexivity.
Qed.

(** [read_integer] on a field written by [add_integer]. *)
Lemma read_integer_field (bs rest : list byte) :
  Z.of_nat (length bs) < 65536 ->
  read_integer (length_prefix (length bs) ++ bs ++ rest)
  = Some (mpz_import bs, rest).
Proof.
  intros Hlen. pose proof (length_prefix_value (length bs) Hlen) as Hv.
  unfold length_prefix in *. cbn [app read_integer]. rewrite Hv.
  rewrite length_app.
  destruct (Z.ltb_spec (Z.of_nat (length bs + length rest))
              (Z.of_nat (length bs))); [lia|].
  rewrite Nat2Z.id, firstn_exact, skipn_exact by reflexivity.
  reflexivity.
Qed.

(** The parser accepts every blob in the layout, with anything after it,
    and returns the values of the fields of l and of the three
    coefficients. *)
Lemma parse_proof_layout (recursion_level : byte) (iterations : Z)
  (l_bytes a_bytes b_bytes c_bytes rest : list byte) :
  0 <= iterations < 2 ^ 64 ->
  Z.of_nat (length l_bytes) < 256 ->
  Z.of_nat (length a_bytes) < 65536 ->
  Z.of_nat (length b_bytes) < 65536 ->
  Z.of_nat (length c_bytes) < 65536 ->
  parse_proof
    (proof_layout recursion_level iterations l_bytes a_bytes b_bytes c_bytes
     ++ rest)
    iterations recursion_level
  = Some (mpz_import l_bytes,
          Form.mk (mpz_import a_bytes) (mpz_import b_bytes)
            (mpz_import c_bytes)).
Proof.
  intros Hit Hl Ha Hb Hc. unfold proof_layout.
  repeat rewrite <- app_assoc.
  cbn [app parse_proof].
  change (byte.unsigned (byte.of_Z 2) =? 2) with true. cbn [negb].
  rewrite Z.eqb_refl. cbn [negb].
  rewrite length_app, be_bytes_length.
  match goal with
  | |- context [Z.of_nat (8 + ?n) <? 8] =>
      destruct (Z.ltb_spec (Z.of_nat (8 + n)) 8); [lia|]
  end.
  rewrite (firstn_exact 8), (skipn_exact 8) by apply be_bytes_length.
  rewrite read_iterations_be_bytes, Z.mod_small, Z.eqb_refl by exact Hit.
  cbn [negb].
  rewrite byte.unsigned_of_Z. unfold byte.wrap.
  rewrite Z.mod_small by (change (2 ^ 8) with 256; lia).
  rewrite length_app.
  match goal with
  | |- context [Z.of_nat (length l_bytes + ?n) <? _] =>
      destruct (Z.ltb_spec (Z.of_nat (length l_bytes + n))
                  (Z.of_nat (length l_bytes))); [lia|]
  end.
  rewrite Nat2Z.id, firstn_exact, skipn_exact by reflexivity.
  rewrite read_integer_field by exact Ha.
  rewrite read_integer_field by exact Hb.
  rewrite read_integer_field by exact Hc.
  reflexivity.
Qed.

Lemma add_integer_layout (v : Z) :
  add_integer v = length_prefix (length (mpz_export v)) ++ mpz_export v.
Proof. reflexivity. Qed.

Lemma proof_blob_layout (recursion_level : byte) (iterations l : Z)
  (pi : form) :
  proof_blob recursion_level iterations l pi
  = proof_layout recursion_level iterations (mpz_export l)
      (mpz_export (Form.a pi)) (mpz_export (Form.b pi))
      (mpz_export (Form.c pi)).
Proof.
  unfold proof_blob, proof_layout, add_prime. rewrite !add_integer_layout.
  cbn [app]. repeat rewrite <- app_assoc. reflexivity.
Qed.

(** * The final proof blob *)

Lemma parse_proof_blob (recursion_level : byte) (iterations l : Z)
  (pi : form) :
  0 <= iterations < 2 ^ 64 ->
  Z.of_nat (length (mpz_export l)) <= 255 ->
  Z.of_nat (length (mpz_export (Form.a pi))) <= 65535 ->
  Z.of_nat (length (mpz_export (Form.b pi))) <= 65535 ->
  Z.of_nat (length (mpz_export (Form.c pi))) <= 65535 ->
  parse_proof (proof_blob recursion_level iterations l pi) iterations
    recursion_level
  = Some (Z.abs l,
          Form.mk (Z.abs (Form.a pi)) (Z.abs (Form.b pi))
            (Z.abs (Form.c pi))).
Proof.
  intros Hit Hl Ha Hb Hc.
  rewrite proof_blob_layout, <- (app_nil_r (proof_layout _ _ _ _ _ _)).
  rewrite parse_proof_layout by lia.
  now rewrite !mpz_import_export.
Qed.

(** C8 (as amended). For every proof form whose coefficient magnitudes take
    at most 65535 bytes each (and a challenge prime of at most 255 bytes),
    the parser of [cpu_vdf_verify_proof] reads back from the serialized
    proof the magnitudes (|a|, |b|, |c|); with a negative b the parsed form
    is not the serialized one. *)
Theorem parsed_form_is_magnitude (recursion_level : byte)
  (iterations l : Z) (pi : form) :
  0 <= iterations < 2 ^ 64 ->
  Z.of_nat (length (mpz_export l)) <= 255 ->
  Z.of_nat (length (mpz_export (Form.a pi))) <= 65535 ->
  Z.of_nat (length (mpz_export (Form.b pi))) <= 65535 ->
  Z.of_nat (length (mpz_export (Form.c pi))) <= 65535 ->
  parse_proof (proof_blob recursion_level iterations l pi) iterations
    recursion_level
  = Some (Z.abs l,
          Form.mk (Z.abs (Form.a pi)) (Z.abs (Form.b pi))
            (Z.abs (Form.c pi)))
  /\ (Form.b pi < 0 ->
      forall l' pi',
        parse_proof (proof_blob recursion_level iterations l pi) iterations
          recursion_level = Some (l', pi') ->
        pi' <> pi).
Proof.
  intros Hit Hl Ha Hb Hc.
  pose proof (parse_proof_blob recursion_level iterations l pi
                Hit Hl Ha Hb Hc) as Hparse.
  split; [exact Hparse|].
  intros Hneg l' pi' Hp. rewrite Hparse in Hp. injection Hp as _ <-.
  intros Heq. apply (f_equal Form.b) in Heq. cbn in Heq. lia.
Qed.

Lemma parsed_form_is_magnitude_witness :
  Form.b (Form.mk 2 (-1) 3) < 0
  /\ parse_proof (proof_blob (byte.of_Z 0) 3 7 (Form.mk 2 (-1) 3)) 3
       (byte.of_Z 0)
     = Some (7, Form.mk 2 1 3).
Proof.
  split; [reflexivity|].
  apply (parsed_form_is_magnitude (byte.of_Z 0) 3 7 (Form.mk 2 (-1) 3));
    try (vm_compute; discriminate).
  split; [discriminate | reflexivity].
Defined.

Lemma oversized_coefficient_pos : 0 < oversized_coefficient.
Proof. unfold oversized_coefficient. apply Z.pow_pos_nonneg; lia. Qed.

Lemma oversized_coefficient_log2 : Z.log2 oversized_coefficient = 524280.
Proof. unfold oversized_coefficient. apply Z.log2_pow2. lia. Qed.

Lemma oversized_export_length :
  length (mpz_export (Form.a oversized_form)) = Z.to_nat 65536.
Proof.
  rewrite mpz_export_length. unfold mpz_export_count.
  cbn [Form.a oversized_form].
  pose proof oversized_coefficient_pos as Hpos.
  destruct (Z.eqb_spec oversized_coefficient 0) as [E|_]; [lia|].
  assert (Habs : Z.abs oversized_coefficient = oversized_coefficient)
    by (apply Z.abs_eq; lia).
  rewrite Habs, oversized_coefficient_log2. reflexivity.
Qed.

(** Two zero length bytes make the parser read an empty first
    coefficient. *)
Lemma zero_prefix_reads_zero (recursion_level : byte) (iterations : Z)
  (l_bytes rest : list byte) (l' : Z) (pi' : form) :
  0 <= iterations < 2 ^ 64 ->
  Z.of_nat (length l_bytes) < 256 ->
  parse_proof
    ([byte.of_Z 2; recursion_level] ++ be_bytes 8 iterations
     ++ [byte.of_Z (Z.of_nat (length l_bytes))] ++ l_bytes
     ++ [Byte.x00; Byte.x00] ++ rest)
    iterations recursion_level = Some (l', pi') ->
  Form.a pi' = 0.
Proof.
  intros Hit Hl.
  cbn [app parse_proof].
  change (byte.unsigned (byte.of_Z 2) =? 2) with true. cbn [negb].
  rewrite Z.eqb_refl. cbn [negb].
  rewrite length_app, be_bytes_length.
  match goal with
  | |- context [Z.of_nat (8 + ?n) <? 8] =>
      destruct (Z.ltb_spec (Z.of_nat (8 + n)) 8); [lia|]
  end.
  rewrite (firstn_exact 8), (skipn_exact 8) by apply be_bytes_length.
  rewrite read_iterations_be_bytes, Z.mod_small, Z.eqb_refl by exact Hit.
  cbn [negb].
  rewrite byte.unsigned_of_Z. unfold byte.wrap.
  rewrite Z.mod_small by (change (2 ^ 8) with 256; lia).
  rewrite length_app.
  match goal with
  | |- context [Z.of_nat (length l_bytes + ?n) <? _] =>
      destruct (Z.ltb_spec (Z.of_nat (length l_bytes + n))
                  (Z.of_nat (length l_bytes))); [lia|]
  end.
  rewrite Nat2Z.id, firstn_exact, skipn_exact by reflexivity.
  cbn [read_integer].
  change (Z.lor (Z.shiftl (byte.unsigned Byte.x00) 8)
            (byte.unsigned Byte.x00)) with 0.
  destruct (Z.ltb_spec (Z.of_nat (length rest)) 0); [lia|].
  change (Z.to_nat 0) with 0%nat. cbn [firstn skipn].
  change (mpz_import []) with 0.
  destruct (read_integer rest) as [[b ptr5]|]; [|discriminate].
  destruct (read_integer ptr5) as [[c ptr6]|]; [|discriminate].
  intros Heq. injection Heq as _ <-. reflexivity.
Qed.

(** C8, the claim as written fails: the first coefficient of
    [oversized_form] takes 65536 bytes, the two length bytes written for it
    are zero, and the parser does not read the magnitudes back. *)
Lemma oversized_coefficient_not_read_back :
  parse_proof (proof_blob (byte.of_Z 0) 1 3 oversized_form) 1 (byte.of_Z 0)
  <> Some (3, Form.mk (Z.abs (Form.a oversized_form))
                (Z.abs (Form.b oversized_form))
                (Z.abs (Form.c oversized_form))).
Proof.
  intros Hparse.
  assert (Hbig : Z.abs (Form.a oversized_form) <> 0).
  { cbn [Form.a oversized_form]. pose proof oversized_coefficient_pos. lia. }
  revert Hparse Hbig.
  generalize (Z.abs (Form.a oversized_form)).
  generalize (Z.abs (Form.b oversized_form)).
  generalize (Z.abs (Form.c oversized_form)).
  intros vc vb va.
  unfold proof_blob. rewrite (add_integer_layout (Form.a oversized_form)).
  rewrite oversized_export_length.
  change (length_prefix (Z.to_nat 65536)) with [Byte.x00; Byte.x00].
  change (add_prime 3) with ([byte.of_Z (Z.of_nat (length [Byte.x03]))]
                             ++ [Byte.x03]).
  repeat rewrite <- app_assoc.
  intros Hparse Hbig.
  apply zero_prefix_reads_zero in Hparse; [|lia|cbn; lia].
  cbn [Form.a] in Hparse. congruence.
Qed.

Lemma byte_unsigned_inj_neq (x y : byte) :
  x <> y -> byte.unsigned x <> byte.unsigned y.
Proof. intros Hne Heq. apply Hne. now apply byte.unsigned_inj. Qed.

(** The three header checks of the verifier. *)
Lemma verify_rejects_header `{VdfLib} (dbytes initial_form_bytes :
  option (list byte)) (data : list byte) (p : cpu_vdf_proof_t)
  (iterations : Z) (recursion_level : byte) :
  proof_data p = Some data ->
  byte_at data 0 <> 2
  \/ nth 1 data Byte.x00 <> recursion_level
  \/ mpz_import (firstn 8 (skipn 2 data)) <> iterations ->
  cpu_vdf_verify_proof dbytes initial_form_bytes (Some p) iterations
    recursion_level = Some false.
Proof.
  intros Hdata Hbad. unfold cpu_vdf_verify_proof.
  destruct dbytes as [db|]; [|reflexivity]. rewrite Hdata.
  destruct (Z.of_nat (length data) <? 10); [reflexivity|].
  replace (parse_proof data iterations recursion_level) with
    (@None (Z * form)); [reflexivity|].
  symmetry. unfold parse_proof.
  destruct data as [|version [|level ptr2]];
    [reflexivity | now destruct (negb _) |].
  unfold byte_at in Hbad. cbn [nth skipn] in Hbad.
  destruct (Z.eqb_spec (byte.unsigned version) 2) as [Hv|Hv];
    [|reflexivity].
  cbn [negb].
  destruct (Z.eqb_spec (byte.unsigned level) (byte.unsigned recursion_level))
    as [Hr|Hr]; [|reflexivity].
  cbn [negb]. apply byte.unsigned_inj in Hr.
  destruct (Z.of_nat (length ptr2) <? 8); [reflexivity|].
  rewrite read_iterations_import by (rewrite length_firstn; lia).
  destruct (Z.eqb_spec (mpz_import (firstn 8 ptr2)) iterations) as [Ht|Ht];
    [|reflexivity].
  exfalso. destruct Hbad as [Hb|[Hb|Hb]]; congruence.
Qed.

Lemma byte_at_app (pre rest : list byte) (k : nat) :
  byte_at (pre ++ rest) (length pre + k) = byte_at rest k.
Proof. unfold byte_at. now rewrite app_nth2_plus. Qed.

Lemma u16_at_length_prefix (pre bs rest : list byte) :
  Z.of_nat (length bs) <= 65535 ->
  u16_at (pre ++ length_prefix (length bs) ++ bs ++ rest) (length pre)
  = Z.of_nat (length bs).
Proof.
  intros Hlen. unfold u16_at.
  replace (S (length pre)) with (length pre + 1)%nat by lia.
  rewrite <- (Nat.add_0_r (length pre)) at 1.
  rewrite !byte_at_app.
  pose proof (length_prefix_value (length bs) ltac:(lia)) as Hv.
  unfold length_prefix in *. unfold byte_at. cbn [app nth].
  rewrite lor_shiftl_8 in Hv; [lia|].
  pose proof (byte.unsigned_range
                (byte.of_Z (Z.land (Z.of_nat (length bs)) 255))) as Hr.
  change (2 ^ 8) with 256 in Hr. exact Hr.
Qed.

(** The length fields of a blob in the layout of the final proof hold the
    lengths of their fields while l takes at most 255 bytes and a
    coefficient at most 65535, and nothing follows the last field. *)
Lemma proof_layout_length_fields (recursion_level : byte) (T : Z)
  (l_bytes a_bytes b_bytes c_bytes : list byte) :
  Z.of_nat (length l_bytes) <= 255 ->
  Z.of_nat (length a_bytes) <= 65535 ->
  Z.of_nat (length b_bytes) <= 65535 ->
  Z.of_nat (length c_bytes) <= 65535 ->
  let data :=
    proof_layout recursion_level T l_bytes a_bytes b_bytes c_bytes in
  let nl := length l_bytes in
  let na := length a_bytes in
  let nb := length b_bytes in
  let nc := length c_bytes in
  byte_at data 10 = Z.of_nat nl
  /\ u16_at data (11 + nl) = Z.of_nat na
  /\ u16_at data (11 + nl + 2 + na) = Z.of_nat nb
  /\ u16_at data (11 + nl + 2 + na + 2 + nb) = Z.of_nat nc
  /\ length data = (11 + nl + 2 + na + 2 + nb + 2 + nc)%nat.
Proof.
  intros Hl Ha Hb Hc data nl na nb nc. subst data nl na nb nc.
  repeat split.
  - unfold proof_layout.
    change ([byte.of_Z 2; recursion_level] ++ be_bytes 8 T ++ ?r)
      with (([byte.of_Z 2; recursion_level] ++ be_bytes 8 T) ++ r).
    replace 10%nat
      with (length ([byte.of_Z 2; recursion_level] ++ be_bytes 8 T) + 0)%nat
      by (rewrite length_app, be_bytes_length; reflexivity).
    rewrite byte_at_app. unfold byte_at. cbn [app nth].
    rewrite byte.unsigned_of_Z. unfold byte.wrap.
    apply Z.mod_small. change (2 ^ 8) with 256. lia.
  - unfold proof_layout.
    replace (11 + length l_bytes)%nat
      with (length (([byte.of_Z 2; recursion_level] ++ be_bytes 8 T)
                    ++ [byte.of_Z (Z.of_nat (length l_bytes))] ++ l_bytes))
      by (unfold length_prefix; rewrite !length_app, be_bytes_length;
          cbn [length]; lia).
    rewrite <- (u16_at_length_prefix
                  (([byte.of_Z 2; recursion_level] ++ be_bytes 8 T)
                   ++ [byte.of_Z (Z.of_nat (length l_bytes))] ++ l_bytes)
                  a_bytes
                  (length_prefix (length b_bytes) ++ b_bytes
                   ++ length_prefix (length c_bytes) ++ c_bytes)) by lia.
    f_equal; repeat rewrite <- app_assoc; reflexivity.
  - unfold proof_layout.
    replace (11 + length l_bytes + 2 + length a_bytes)%nat
      with (length (([byte.of_Z 2; recursion_level] ++ be_bytes 8 T)
                    ++ [byte.of_Z (Z.of_nat (length l_bytes))] ++ l_bytes
                    ++ length_prefix (length a_bytes) ++ a_bytes))
      by (unfold length_prefix; rewrite !length_app, be_bytes_length;
          cbn [length]; lia).
    rewrite <- (u16_at_length_prefix
                  (([byte.of_Z 2; recursion_level] ++ be_bytes 8 T)
                   ++ [byte.of_Z (Z.of_nat (length l_bytes))] ++ l_bytes
                   ++ length_prefix (length a_bytes) ++ a_bytes)
                  b_bytes
                  (length_prefix (length c_bytes) ++ c_bytes)) by lia.
    f_equal; repeat rewrite <- app_assoc; reflexivity.
  - unfold proof_layout.
    replace (11 + length l_bytes + 2 + length a_bytes + 2
             + length b_bytes)%nat
      with (length (([byte.of_Z 2; recursion_level] ++ be_bytes 8 T)
                    ++ [byte.of_Z (Z.of_nat (length l_bytes))] ++ l_bytes
                    ++ length_prefix (length a_bytes) ++ a_bytes
                    ++ length_prefix (length b_bytes) ++ b_bytes))
      by (unfold length_prefix; rewrite !length_app, be_bytes_length;
          cbn [length]; lia).
    rewrite <- (u16_at_length_prefix
                  (([byte.of_Z 2; recursion_level] ++ be_bytes 8 T)
                   ++ [byte.of_Z (Z.of_nat (length l_bytes))] ++ l_bytes
                   ++ length_prefix (length a_bytes) ++ a_bytes
                   ++ length_prefix (length b_bytes) ++ b_bytes)
                  c_bytes []) by lia.
    f_equal; repeat rewrite <- app_assoc; now rewrite app_nil_r.
  - unfold proof_layout, length_prefix.
    rewrite !length_app, be_bytes_length. cbn [length]. lia.
Qed.

(** On a blob of that layout the verifier decides on the fields it has read
    back. *)
Lemma verify_proof_layout `{VdfLib} (dbytes : list byte)
  (initial_form_bytes : option (list byte)) (p : cpu_vdf_proof_t)
  (recursion_level : byte) (T : Z)
  (l_bytes a_bytes b_bytes c_bytes : list byte) :
  0 <= T < 2 ^ 64 ->
  Z.of_nat (length l_bytes) <= 255 ->
  Z.of_nat (length a_bytes) <= 65535 ->
  Z.of_nat (length b_bytes) <= 65535 ->
  Z.of_nat (length c_bytes) <= 65535 ->
  proof_data p
  = Some (proof_layout recursion_level T l_bytes a_bytes b_bytes c_bytes) ->
  cpu_vdf_verify_proof (Some dbytes) initial_form_bytes (Some p) T
    recursion_level
  = wesolowski_check (- mpz_import dbytes) initial_form_bytes
      (mpz_import l_bytes)
      (Form.mk (mpz_import a_bytes) (mpz_import b_bytes)
         (mpz_import c_bytes)) T.
Proof.
  intros HT Hl Ha Hb Hc Hdata.
  unfold cpu_vdf_verify_proof. rewrite Hdata.
  destruct (proof_layout_length_fields recursion_level T l_bytes a_bytes
              b_bytes c_bytes Hl Ha Hb Hc) as (_ & _ & _ & _ & Hlen).
  destruct (Z.ltb_spec (Z.of_nat (length (proof_layout recursion_level T
              l_bytes a_bytes b_bytes c_bytes))) 10); [lia|].
  rewrite <- (app_nil_r (proof_layout _ _ _ _ _ _)) at 1.
  now rewrite parse_proof_layout by lia.
Qed.

(** C4 (as amended). A proof produced by [cpu_vdf_generate_proof] is, byte
    for byte: the version 0x02, the recursion level given, T in 8 bytes
    big-endian, one byte with the low 8 bits of the length of l, the
    magnitude of l, then for each of pi.a, pi.b, pi.c two bytes with the
    low 16 bits of its length (big-endian) and the magnitude; l is the
    Fiat-Shamir prime and pi = x^(2^T / l). While l takes at most 255 bytes
    and every coefficient at most 65535, the length fields hold the
    lengths, nothing follows the last coefficient, and
    [cpu_vdf_verify_proof] reads the blob back field by field: it decides
    on |l| and on the magnitudes of pi. The verifier does so on every blob
    of this layout, and it returns false when the version byte is not 0x02,
    when the recursion byte is not the claimed level and when the encoded T
    is not the claimed iteration count. *)
Theorem generate_proof_blob_layout `{VdfLib} (fuel : nat)
  (c : cpu_vdf_context) (recursion_level : byte)
  (proof p' : cpu_vdf_proof_t) :
  cpu_vdf_generate_proof fuel (Some c) recursion_level (Some proof)
  = Some (CPU_VDF_SUCCESS, Some p') ->
  (exists l pi data,
      challenge_prime_of fuel (discriminant c) (initial_form c)
        (final_form c) (target_iterations c) = Some l
      /\ pi = FastPowFormNucomp (initial_form c) (discriminant c)
                (2 ^ target_iterations c / l) (root (- discriminant c) 4)
      /\ proof_data p' = Some data
      /\ data
         = [byte.of_Z 2; recursion_level]
           ++ be_bytes 8 (target_iterations c)
           ++ [byte.of_Z (Z.of_nat (length (mpz_export l)))]
           ++ mpz_export l
           ++ length_prefix (length (mpz_export (Form.a pi)))
           ++ mpz_export (Form.a pi)
           ++ length_prefix (length (mpz_export (Form.b pi)))
           ++ mpz_export (Form.b pi)
           ++ length_prefix (length (mpz_export (Form.c pi)))
           ++ mpz_export (Form.c pi)
      /\ (0 <= target_iterations c < 2 ^ 64 ->
          Z.of_nat (length (mpz_export l)) <= 255 ->
          Z.of_nat (length (mpz_export (Form.a pi))) <= 65535 ->
          Z.of_nat (length (mpz_export (Form.b pi))) <= 65535 ->
          Z.of_nat (length (mpz_export (Form.c pi))) <= 65535 ->
          let nl := length (mpz_export l) in
          let na := length (mpz_export (Form.a pi)) in
          let nb := length (mpz_export (Form.b pi)) in
          let nc := length (mpz_export (Form.c pi)) in
          byte_at data 10 = Z.of_nat nl
          /\ u16_at data (11 + nl) = Z.of_nat na
          /\ u16_at data (11 + nl + 2 + na) = Z.of_nat nb
          /\ u16_at data (11 + nl + 2 + na + 2 + nb) = Z.of_nat nc
          /\ length data = (11 + nl + 2 + na + 2 + nb + 2 + nc)%nat
          /\ forall (dbytes : list byte)
                    (initial_form_bytes : option (list byte)),
               cpu_vdf_verify_proof (Some dbytes) initial_form_bytes
                 (Some p') (target_iterations c) recursion_level
               = wesolowski_check (- mpz_import dbytes) initial_form_bytes
                   (Z.abs l) (magnitudes pi) (target_iterations c)))
  /\ (forall (level : byte) (T : Z) (l_bytes a_bytes b_bytes c_bytes : list byte),
        0 <= T < 2 ^ 64 ->
        Z.of_nat (length l_bytes) <= 255 ->
        Z.of_nat (length a_bytes) <= 65535 ->
        Z.of_nat (length b_bytes) <= 65535 ->
        Z.of_nat (length c_bytes) <= 65535 ->
        mpz_import (be_bytes 8 T) = T
        /\ parse_proof
             (proof_layout level T l_bytes a_bytes b_bytes c_bytes) T level
           = Some (mpz_import l_bytes,
                   Form.mk (mpz_import a_bytes) (mpz_import b_bytes)
                     (mpz_import c_bytes))
        /\ forall (dbytes : list byte)
                  (initial_form_bytes : option (list byte))
                  (p : cpu_vdf_proof_t),
             proof_data p
             = Some (proof_layout level T l_bytes a_bytes b_bytes c_bytes) ->
             cpu_vdf_verify_proof (Some dbytes) initial_form_bytes (Some p)
               T level
             = wesolowski_check (- mpz_import dbytes) initial_form_bytes
                 (mpz_import l_bytes)
                 (Form.mk (mpz_import a_bytes) (mpz_import b_bytes)
                    (mpz_import c_bytes)) T)
  /\ (forall (dbytes initial_form_bytes : option (list byte))
             (data : list byte) (p : cpu_vdf_proof_t) (T : Z) (level : byte),
        proof_data p = Some data ->
        byte_at data 0 <> 2
        \/ nth 1 data Byte.x00 <> level
        \/ mpz_import (firstn 8 (skipn 2 data)) <> T ->
        cpu_vdf_verify_proof dbytes initial_form_bytes (Some p) T level
        = Some false).
Proof.
  intros Hgen. split; [|split].
  - unfold cpu_vdf_generate_proof in Hgen.
    destruct (negb (state_eqb (state c) CPU_VDF_STATE_COMPLETED));
      [discriminate|].
    destruct (challenge_prime_of fuel (discriminant c) (initial_form c)
                (final_form c) (target_iterations c)) as [l|];
      [|discriminate].
    injection Hgen as <-. exists l. eexists. eexists.
    split; [reflexivity|]. split; [reflexivity|].
    cbn [proof_data]. split; [reflexivity|].
    split; [rewrite proof_blob_layout; reflexivity|].
    intros HT Hl Ha Hb Hc. cbv zeta.
    rewrite proof_blob_layout.
    destruct (proof_layout_length_fields recursion_level
                (target_iterations c) _ _ _ _ Hl Ha Hb Hc)
      as (H10 & Hfa & Hfb & Hfc & Hlen).
    repeat (split; [assumption|]).
    intros dbytes initial_form_bytes.
    rewrite (verify_proof_layout dbytes initial_form_bytes _ recursion_level
               (target_iterations c) (mpz_export l)
               (mpz_export (Form.a _)) (mpz_export (Form.b _))
               (mpz_export (Form.c _)) HT Hl Ha Hb Hc)
      by (cbn [proof_data]; rewrite ?proof_blob_layout; reflexivity).
    now rewrite !mpz_import_export.
  - intros level T l_bytes a_bytes b_bytes c_bytes HT Hl Ha Hb Hc.
    split; [|split].
    + rewrite mpz_import_be_bytes. apply Z.mod_small.
      change (256 ^ Z.of_nat 8) with (2 ^ 64). exact HT.
    + rewrite <- (app_nil_r (proof_layout _ _ _ _ _ _)).
      apply parse_proof_layout; lia.
    + intros dbytes initial_form_bytes p Hdata.
      now apply verify_proof_layout.
  - intros dbytes ifb data p T level Hdata Hbad.
    now apply (verify_rejects_header dbytes ifb data p T level).
Qed.

Lemma generate_proof_blob_layout_witness :
  exists p',
    cpu_vdf_generate_proof (H := Reference.lib) 400 (Some completed_context)
      (byte.of_Z 0) (Some empty_proof) = Some (CPU_VDF_SUCCESS, Some p')
    /\ exists l pi,
         proof_data p'
         = Some (proof_layout (byte.of_Z 0) 3 (mpz_export l)
                   (mpz_export (Form.a pi)) (mpz_export (Form.b pi))
                   (mpz_export (Form.c pi))).
Proof.
  assert (Hgen : exists p',
             cpu_vdf_generate_proof (H := Reference.lib) 400
               (Some completed_context) (byte.of_Z 0) (Some empty_proof)
             = Some (CPU_VDF_SUCCESS, Some p'))
    by (eexists; vm_compute; reflexivity).
  destruct Hgen as [p' Hgen]. exists p'. split; [exact Hgen|].
  destruct (generate_proof_blob_layout (H := Reference.lib) 400
              completed_context (byte.of_Z 0) empty_proof p' Hgen)
    as [(l & pi & data & _ & _ & Hp & Hdata & _) _].
  exists l, pi. rewrite Hp, Hdata. reflexivity.
Defined.

(** * Truncated blobs *)

Lemma skipn_cons_nth {A : Type} (d : A) (off : nat) (data : list A) (x : A)
  (tl : list A) :
  skipn off data = x :: tl ->
  nth off data d = x /\ skipn (S off) data = tl
  /\ length data = (off + 1 + length tl)%nat.
Proof.
  revert data. induction off as [|off IH]; intros data Hs.
  - cbn in Hs. subst data. cbn. repeat split; lia.
  - destruct data as [|y data]; [discriminate|].
    cbn [skipn] in Hs. destruct (IH data Hs) as (Hn & Hk & Hl).
    cbn [nth length]. repeat split; [exact Hn | exact Hk | lia].
Qed.

Lemma skipn_nil_length {A : Type} (off : nat) (data : list A) :
  skipn off data = [] -> (length data <= off)%nat.
Proof.
  revert data. induction off as [|off IH]; intros data Hs.
  - cbn in Hs. subst. cbn. lia.
  - destruct data as [|y data]; [cbn; lia|].
    cbn [skipn] in Hs. apply IH in Hs. cbn [length]. lia.
Qed.

(** [read_integer] at the offset [off] of a blob: it fails exactly when the
    field overruns the blob, and otherwise moves to the end of the field. *)
Lemma read_integer_at (data : list byte) (off : nat) :
  read_integer (skipn off data)
  = if field_overrun data off then None
    else Some (mpz_import (firstn (Z.to_nat (u16_at data off))
                             (skipn (off + 2) data)),
               skipn (field_end data off) data).
Proof.
  unfold field_overrun, field_end, u16_at, byte_at.
  destruct (skipn off data) as [|hi [|lo rest]] eqn:Hs.
  - apply skipn_nil_length in Hs.
    destruct (Z.ltb_spec (Z.of_nat (length data)) (Z.of_nat off + 2));
      [reflexivity | lia].
  - apply (skipn_cons_nth Byte.x00) in Hs. destruct Hs as (_ & _ & Hl).
    cbn [length] in Hl.
    destruct (Z.ltb_spec (Z.of_nat (length data)) (Z.of_nat off + 2));
      [reflexivity | lia].
  - apply (skipn_cons_nth Byte.x00) in Hs. destruct Hs as (Hhi & Hs & Hl).
    apply (skipn_cons_nth Byte.x00) in Hs. destruct Hs as (Hlo & Hs & _).
    cbn [length] in Hl. rewrite Hhi, Hlo.
    cbn [read_integer].
    pose proof (byte.unsigned_range lo) as Hr. change (2 ^ 8) with 256 in Hr.
    pose proof (byte.unsigned_range hi) as Hr'.
    rewrite lor_shiftl_8 by exact Hr.
    replace (256 * byte.unsigned hi + byte.unsigned lo)
      with (byte.unsigned hi * 256 + byte.unsigned lo) by ring.
    set (size := byte.unsigned hi * 256 + byte.unsigned lo).
    assert (Hsize : 0 <= size) by (subst size; lia).
    destruct (Z.ltb_spec (Z.of_nat (length data)) (Z.of_nat off + 2));
      [lia|]. cbn [orb].
    replace (off + 2)%nat with (S (S off)) by lia. rewrite Hs.
    destruct (Z.ltb_spec (Z.of_nat (length rest)) size);
      destruct (Z.ltb_spec (Z.of_nat (length data))
                  (Z.of_nat off + 2 + size)); try lia; [reflexivity|].
    f_equal. f_equal.
    rewrite <- Hs, skipn_skipn. f_equal. lia.
Qed.

Lemma parse_proof_short (data : list byte) (iterations : Z)
  (recursion_level : byte) :
  Z.of_nat (length data) < 11 ->
  parse_proof data iterations recursion_level = None.
Proof.
  intros Hlen. unfold parse_proof.
  destruct data as [|version [|level ptr2]]; [reflexivity| |].
  - now destruct (negb _).
  - destruct (negb _); [reflexivity|].
    destruct (negb _); [reflexivity|].
    destruct (Z.ltb_spec (Z.of_nat (length ptr2)) 8) as [Hp|Hp];
      [reflexivity|].
    destruct (negb _); [reflexivity|].
    destruct (skipn 8 ptr2) as [|l_size ptr3] eqn:Hs; [reflexivity|].
    apply (skipn_cons_nth Byte.x00) in Hs. destruct Hs as (_ & _ & Hl).
    cbn [length] in Hlen. lia.
Qed.

(** The parser on a blob of at least 11 bytes, by offsets. *)
Lemma parse_proof_at (data : list byte) (iterations : Z)
  (recursion_level : byte) :
  11 <= Z.of_nat (length data) ->
  Z.of_nat (length data) < 11 + byte_at data 10
  \/ field_overrun data (11 + Z.to_nat (byte_at data 10)) = true
  \/ field_overrun data
       (field_end data (11 + Z.to_nat (byte_at data 10))) = true
  \/ field_overrun data
       (field_end data
          (field_end data (11 + Z.to_nat (byte_at data 10)))) = true ->
  parse_proof data iterations recursion_level = None.
Proof.
  intros Hlen Hbad. unfold parse_proof.
  destruct data as [|version [|level ptr2]]; [reflexivity| |].
  { now destruct (negb _). }
  destruct (negb _); [reflexivity|].
  destruct (negb _); [reflexivity|].
  destruct (Z.ltb_spec (Z.of_nat (length ptr2)) 8) as [Hp|Hp];
    [reflexivity|].
  destruct (negb _); [reflexivity|].
  destruct (skipn 8 ptr2) as [|l_size ptr3] eqn:Hs; [reflexivity|].
  pose proof (skipn_cons_nth Byte.x00 8 ptr2 l_size ptr3 Hs)
    as (Hn & Hs' & Hl).
  assert (H10 : byte_at (version :: level :: ptr2) 10 = byte.unsigned l_size).
  { unfold byte_at. cbn [nth]. now rewrite Hn. }
  rewrite H10 in Hbad.
  pose proof (byte.unsigned_range l_size) as Hr.
  set (n := Z.to_nat (byte.unsigned l_size)) in *.
  assert (Hptr : forall k, skipn k ptr3
                           = skipn (11 + k) (version :: level :: ptr2)).
  { intros k. rewrite <- Hs'. rewrite skipn_skipn.
    replace (11 + k)%nat with (S (S (k + 9))) by lia. reflexivity. }
  destruct (Z.ltb_spec (Z.of_nat (length ptr3)) (byte.unsigned l_size))
    as [Hov|Hov]; [reflexivity|].
  destruct Hbad as [Hb|Hb]; [cbn [length] in Hb; lia|].
  rewrite Hptr, read_integer_at.
  destruct Hb as [Hb|Hb]; [now rewrite Hb|].
  destruct (field_overrun _ (11 + n)); [reflexivity|].
  rewrite read_integer_at.
  destruct Hb as [Hb|Hb]; [now rewrite Hb|].
  destruct (field_overrun _ (field_end _ (11 + n))); [reflexivity|].
  rewrite read_integer_at. now rewrite Hb.
Qed.

Lemma parse_proof_truncated (data : list byte) (iterations : Z)
  (recursion_level : byte) :
  truncated_blob data = true ->
  parse_proof data iterations recursion_level = None.
Proof.
  unfold truncated_blob. intros Ht.
  destruct (Z.ltb_spec (Z.of_nat (length data)) 11) as [Hs|Hs].
  - now apply parse_proof_short.
  - apply parse_proof_at; [exact Hs|].
    cbn [orb] in Ht.
    destruct (Z.ltb_spec (Z.of_nat (length data)) (11 + byte_at data 10));
      [now left|right].
    cbn [orb] in Ht.
    repeat match type of Ht with
           | (_ || _) = true => apply orb_true_iff in Ht; destruct Ht as [Ht|Ht]
           end; auto.
Qed.

(** ** Prefixes of a well-formed blob *)

Lemma byte_at_firstn (data : list byte) (n k : nat) :
  (k < n)%nat -> byte_at (firstn n data) k = byte_at data k.
Proof.
  intros Hk. unfold byte_at. rewrite nth_firstn.
  destruct (Nat.ltb_spec k n); [reflexivity | lia].
Qed.

Lemma u16_at_firstn (data : list byte) (n off : nat) :
  (off + 2 <= n)%nat -> u16_at (firstn n data) off = u16_at data off.
Proof.
  intros Hoff. unfold u16_at. now rewrite !byte_at_firstn by lia.
Qed.

(** A list that starts with a length byte at offset 10 and has three
    length-prefixed fields after the field of l: every strict prefix of it
    is truncated. *)
Lemma truncated_firstn (L : list byte) (n nl na nb nc : nat) :
  byte_at L 10 = Z.of_nat nl ->
  u16_at L (11 + nl) = Z.of_nat na ->
  u16_at L (11 + nl + 2 + na) = Z.of_nat nb ->
  u16_at L (11 + nl + 2 + na + 2 + nb) = Z.of_nat nc ->
  length L = (11 + nl + 2 + na + 2 + nb + 2 + nc)%nat ->
  (n < length L)%nat ->
  truncated_blob (firstn n L) = true.
Proof.
  intros H10 Ha Hb Hc Hlen Hn. unfold truncated_blob. cbv zeta.
  assert (Hlenn : length (firstn n L) = n)
    by (rewrite length_firstn; lia).
  destruct (Z.ltb_spec (Z.of_nat (length (firstn n L))) 11) as [|H11];
    [reflexivity|].
  rewrite byte_at_firstn, H10 by lia.
  destruct (Z.ltb_spec (Z.of_nat (length (firstn n L))) (11 + Z.of_nat nl))
    as [|Hl]; [reflexivity|].
  rewrite Nat2Z.id. cbn [orb].
  unfold field_overrun at 1. rewrite Hlenn in *.
  destruct (Z.ltb_spec (Z.of_nat n) (Z.of_nat (11 + nl) + 2)) as [|Ha2];
    [reflexivity|].
  rewrite u16_at_firstn, Ha by lia.
  destruct (Z.ltb_spec (Z.of_nat n) (Z.of_nat (11 + nl) + 2 + Z.of_nat na))
    as [|Ha3]; [reflexivity|].
  cbn [orb].
  assert (Hea : field_end (firstn n L) (11 + nl) = (11 + nl + 2 + na)%nat).
  { unfold field_end. rewrite u16_at_firstn, Ha by lia. lia. }
  rewrite Hea. unfold field_overrun at 1. rewrite Hlenn.
  destruct (Z.ltb_spec (Z.of_nat n) (Z.of_nat (11 + nl + 2 + na) + 2))
    as [|Hb2]; [reflexivity|].
  rewrite u16_at_firstn, Hb by lia.
  destruct (Z.ltb_spec (Z.of_nat n)
              (Z.of_nat (11 + nl + 2 + na) + 2 + Z.of_nat nb))
    as [|Hb3]; [reflexivity|].
  cbn [orb].
  assert (Heb : field_end (firstn n L) (11 + nl + 2 + na)
                = (11 + nl + 2 + na + 2 + nb)%nat).
  { unfold field_end. rewrite u16_at_firstn, Hb by lia. lia. }
  rewrite Heb. unfold field_overrun. rewrite Hlenn.
  destruct (Z.ltb_spec (Z.of_nat n)
              (Z.of_nat (11 + nl + 2 + na + 2 + nb) + 2)) as [|Hc2];
    [reflexivity|].
  rewrite u16_at_firstn, Hc by lia.
  destruct (Z.ltb_spec (Z.of_nat n)
              (Z.of_nat (11 + nl + 2 + na + 2 + nb) + 2 + Z.of_nat nc));
    [reflexivity | lia].
Qed.

(** "Deserialize rejects any truncation": every strict prefix of a blob in
    the layout of the final proof is truncated, so the parser returns
    nothing on it. *)
Lemma layout_prefix_rejected (recursion_level : byte) (T : Z)
  (l_bytes a_bytes b_bytes c_bytes : list byte) (n : nat)
  (iterations : Z) (level : byte) :
  Z.of_nat (length l_bytes) <= 255 ->
  Z.of_nat (length a_bytes) <= 65535 ->
  Z.of_nat (length b_bytes) <= 65535 ->
  Z.of_nat (length c_bytes) <= 65535 ->
  (n < length (proof_layout recursion_level T l_bytes a_bytes b_bytes
                 c_bytes))%nat ->
  let data :=
    firstn n (proof_layout recursion_level T l_bytes a_bytes b_bytes c_bytes)
  in
  truncated_blob data = true /\ parse_proof data iterations level = None.
Proof.
  intros Hl Ha Hb Hc Hn data.
  assert (Ht : truncated_blob data = true).
  { subst data.
    apply (truncated_firstn _ n (length l_bytes) (length a_bytes)
             (length b_bytes) (length c_bytes)); [| | | | |exact Hn].
    - unfold proof_layout.
      change ([byte.of_Z 2; recursion_level] ++ be_bytes 8 T ++ ?r)
        with (([byte.of_Z 2; recursion_level] ++ be_bytes 8 T) ++ r).
      replace 10%nat
        with (length ([byte.of_Z 2; recursion_level] ++ be_bytes 8 T) + 0)%nat
        by (rewrite length_app, be_bytes_length; reflexivity).
      rewrite byte_at_app. unfold byte_at. cbn [app nth].
      rewrite byte.unsigned_of_Z. unfold byte.wrap.
      apply Z.mod_small. change (2 ^ 8) with 256. lia.
    - unfold proof_layout.
      replace (11 + length l_bytes)%nat
        with (length (([byte.of_Z 2; recursion_level] ++ be_bytes 8 T)
                      ++ [byte.of_Z (Z.of_nat (length l_bytes))] ++ l_bytes))
        by (unfold length_prefix; rewrite !length_app, be_bytes_length;
            cbn [length]; lia).
      rewrite <- (u16_at_length_prefix
                    (([byte.of_Z 2; recursion_level] ++ be_bytes 8 T)
                     ++ [byte.of_Z (Z.of_nat (length l_bytes))] ++ l_bytes)
                    a_bytes
                    (length_prefix (length b_bytes) ++ b_bytes
                     ++ length_prefix (length c_bytes) ++ c_bytes)) by lia.
      f_equal; repeat rewrite <- app_assoc; reflexivity.
    - unfold proof_layout.
      replace (11 + length l_bytes + 2 + length a_bytes)%nat
        with (length (([byte.of_Z 2; recursion_level] ++ be_bytes 8 T)
                      ++ [byte.of_Z (Z.of_nat (length l_bytes))] ++ l_bytes
                      ++ length_prefix (length a_bytes) ++ a_bytes))
        by (unfold length_prefix; rewrite !length_app, be_bytes_length;
            cbn [length]; lia).
      rewrite <- (u16_at_length_prefix
                    (([byte.of_Z 2; recursion_level] ++ be_bytes 8 T)
                     ++ [byte.of_Z (Z.of_nat (length l_bytes))] ++ l_bytes
                     ++ length_prefix (length a_bytes) ++ a_bytes)
                    b_bytes
                    (length_prefix (length c_bytes) ++ c_bytes)) by lia.
      f_equal; repeat rewrite <- app_assoc; reflexivity.
    - unfold proof_layout.
      replace (11 + length l_bytes + 2 + length a_bytes + 2
               + length b_bytes)%nat
        with (length (([byte.of_Z 2; recursion_level] ++ be_bytes 8 T)
                      ++ [byte.of_Z (Z.of_nat (length l_bytes))] ++ l_bytes
                      ++ length_prefix (length a_bytes) ++ a_bytes
                      ++ length_prefix (length b_bytes) ++ b_bytes))
        by (unfold length_prefix; rewrite !length_app, be_bytes_length;
            cbn [length]; lia).
      rewrite <- (u16_at_length_prefix
                    (([byte.of_Z 2; recursion_level] ++ be_bytes 8 T)
                     ++ [byte.of_Z (Z.of_nat (length l_bytes))] ++ l_bytes
                     ++ length_prefix (length a_bytes) ++ a_bytes
                     ++ length_prefix (length b_bytes) ++ b_bytes)
                    c_bytes []) by lia.
      f_equal; repeat rewrite <- app_assoc; now rewrite app_nil_r.
    - unfold proof_layout, length_prefix.
      rewrite !length_app, be_bytes_length. cbn [length]. lia. }
  split; [exact Ht | now apply parse_proof_truncated].
Qed.

(** C7. For every blob that is truncated (shorter than the 11-byte header,
    or with the field of l or of a coefficient reaching past the end of the
    buffer), [cpu_vdf_verify_proof] returns false, whatever the other
    arguments and whatever the class-group library: the parser returns
    nothing, so the verification equation is not evaluated. *)
Theorem verify_rejects_truncated `{VdfLib}
  (dbytes initial_form_bytes : option (list byte)) (data : list byte)
  (p : cpu_vdf_proof_t) (iterations : Z) (recursion_level : byte) :
  proof_data p = Some data ->
  truncated_blob data = true ->
  cpu_vdf_verify_proof dbytes initial_form_bytes (Some p) iterations
    recursion_level = Some false
  /\ parse_proof data iterations recursion_level = None.
Proof.
  intros Hdata Ht.
  pose proof (parse_proof_truncated data iterations recursion_level Ht)
    as Hparse.
  split; [|exact Hparse].
  unfold cpu_vdf_verify_proof. destruct dbytes; [|reflexivity].
  rewrite Hdata, Hparse. now destruct (_ <? 10).
Qed.

Lemma verify_rejects_truncated_witness :
  truncated_blob cut_blob = true
  /\ cpu_vdf_verify_proof (H := Reference.lib) (Some bytes_23) None
       (Some (proof_of cut_blob 3 (byte.of_Z 0))) 3 (byte.of_Z 0)
     = Some false.
Proof.
  assert (Ht : truncated_blob cut_blob = true) by (vm_compute; reflexivity).
  split; [exact Ht|].
  exact (proj1 (verify_rejects_truncated (H := Reference.lib) (Some bytes_23)
                  None cut_blob (proof_of cut_blob 3 (byte.of_Z 0)) 3
                  (byte.of_Z 0) eq_refl Ht)).
Defined.

(** * The challenge prime of the provers *)

Lemma NextPrime_loop_ge `{VdfLib} (fuel : nat) (n p : Z) :
  NextPrime_loop fuel n = Some p -> n <= p.
Proof.
  revert n. induction fuel as [|fuel IH]; intros n Hn; [discriminate|].
  cbn [NextPrime_loop] in Hn.
  destruct (mpz_probab_prime_p n 25 =? 0).
  - apply IH in Hn. lia.
  - apply Some_inj in Hn. lia.
Qed.

(** The prime both provers derive has bit 263 or a higher one set. *)
Lemma challenge_prime_lower_bound `{VdfLib} (fuel : nat) (D : Z)
  (x y : form) (iterations l : Z) :
  challenge_prime_of fuel D x y iterations = Some l -> 2 ^ 263 <= l.
Proof.
  unfold challenge_prime_of, NextPrime. intros Hl.
  apply NextPrime_loop_ge in Hl.
  set (h := mpz_import _) in Hl.
  assert (Hh : 0 <= h) by (subst h; apply mpz_import_range).
  assert (Hs : 2 ^ 263 <= Z.setbit h 263).
  { assert (Hnn : 0 <= Z.setbit h 263).
    { rewrite Z.setbit_spec'. apply Z.lor_nonneg. split; [exact Hh|].
      apply Z.pow_nonneg. lia. }
    destruct (Z.lt_ge_cases (Z.setbit h 263) (2 ^ 263)) as [Hlt|Hge];
      [|exact Hge]. exfalso.
    assert (Hbit : Z.testbit (Z.setbit h 263) 263 = true)
      by (apply Z.setbit_eq; lia).
    destruct (Z.eq_dec (Z.setbit h 263) 0) as [E|E].
    - rewrite E, Z.bits_0 in Hbit. discriminate.
    - rewrite Z.bits_above_log2 in Hbit; [discriminate | exact Hnn |].
      apply Z.log2_lt_pow2; [lia | exact Hlt]. }
  destruct (Z.even (Z.setbit h 263)); lia.
Qed.

(** * The challenge prime of the verifier *)

Lemma parse_proof_prime (data : list byte) (iterations : Z)
  (recursion_level : byte) (l : Z) (pi : form) :
  parse_proof data iterations recursion_level = Some (l, pi) ->
  11 <= Z.of_nat (length data)
  /\ l = mpz_import (firstn (Z.to_nat (byte_at data 10)) (skipn 11 data)).
Proof.
  intros Hparse. split.
  - destruct (Z.lt_ge_cases (Z.of_nat (length data)) 11) as [Hs|Hs]; [|lia].
    rewrite parse_proof_short in Hparse by exact Hs. discriminate.
  - unfold parse_proof in Hparse.
    destruct data as [|version [|level ptr2]]; [discriminate| |].
    { now destruct (negb _). }
    destruct (negb _); [discriminate|].
    destruct (negb _); [discriminate|].
    destruct (Z.of_nat (length ptr2) <? 8); [discriminate|].
    destruct (negb _); [discriminate|].
    destruct (skipn 8 ptr2) as [|l_size ptr3] eqn:Hs; [discriminate|].
    pose proof (skipn_cons_nth Byte.x00 8 ptr2 l_size ptr3 Hs)
      as (Hn & Hs' & _).
    unfold byte_at. cbn [nth]. rewrite Hn.
    change (skipn 11 (version :: level :: ptr2)) with (skipn 9 ptr2).
    rewrite Hs'.
    destruct (_ <? byte.unsigned l_size); [discriminate|].
    destruct (read_integer _) as [[a ptr4]|]; [|discriminate].
    destruct (read_integer ptr4) as [[b ptr5]|]; [|discriminate].
    destruct (read_integer ptr5) as [[c0 ptr6]|]; [|discriminate].
    now injection Hparse as <- _.
Qed.

(** C1 (as amended). The challenge prime of the verification equation is
    the one read from the blob: whenever the blob parses, with l the value of
    its field of l, the verifier returns the outcome of
    pi^l * x^(2^T mod l) = y for that l. No prime is derived from
    (D, x, y, T). *)
Theorem verify_takes_prime_from_blob `{VdfLib}
  (dbytes : list byte) (initial_form_bytes : option (list byte))
  (data : list byte) (p : cpu_vdf_proof_t) (iterations : Z)
  (recursion_level : byte) (l : Z) (pi : form) :
  proof_data p = Some data ->
  parse_proof data iterations recursion_level = Some (l, pi) ->
  l = mpz_import (firstn (Z.to_nat (byte_at data 10)) (skipn 11 data))
  /\ cpu_vdf_verify_proof (Some dbytes) initial_form_bytes (Some p)
       iterations recursion_level
     = let D := - mpz_import dbytes in
       let x := generator D in
       let y := Nat.iter (Z.to_nat iterations) square x in
       if negb (check_valid pi D) then Some false
       else if l =? 0 then None
       else
         Some (Form.eqb
                 (form_mul (FastPowFormNucomp pi D l (root (- D) 4))
                    (FastPowFormNucomp x D (2 ^ iterations mod l)
                       (root (- D) 4)))
                 y).
Proof.
  intros Hdata Hparse.
  destruct (parse_proof_prime data iterations recursion_level l pi Hparse)
    as [Hlen Hl].
  split; [exact Hl|].
  unfold cpu_vdf_verify_proof. rewrite Hdata, Hparse.
  destruct (Z.ltb_spec (Z.of_nat (length data)) 10); [lia|].
  unfold wesolowski_check. destruct initial_form_bytes; reflexivity.
Qed.

Lemma verify_takes_prime_from_blob_witness :
  parse_proof (forged_blob 3) 1 (byte.of_Z 0) = Some (3, Form.mk 2 1 3)
  /\ cpu_vdf_verify_proof (H := Reference.lib) (Some bytes_23) None
       (Some (proof_of (forged_blob 3) 1 (byte.of_Z 0))) 1 (byte.of_Z 0)
     = Some true.
Proof.
  assert (Hp : parse_proof (forged_blob 3) 1 (byte.of_Z 0)
               = Some (3, Form.mk 2 1 3)) by (vm_compute; reflexivity).
  split; [exact Hp|].
  rewrite (proj2 (verify_takes_prime_from_blob (H := Reference.lib) bytes_23
                    None (forged_blob 3)
                    (proof_of (forged_blob 3) 1 (byte.of_Z 0)) 1
                    (byte.of_Z 0) 3 (Form.mk 2 1 3) eq_refl Hp)).
  vm_compute. reflexivity.
Defined.

(** C1, the claim as written fails. For the discriminant -23 and one
    iteration, the Fiat-Shamir derivation on (D, x, y, T) gives a 264-bit
    prime; the verifier accepts a blob whose field of l is 3 and rejects the
    blob that differs from it in that field only. *)
Lemma blob_prime_decides_verification :
  challenge_prime_of (H := Reference.lib) 400 (-23) (Reference.generator (-23))
    (Reference.square (Reference.generator (-23))) 1
  = Some 14840167967285289389502906526863142906434278752168525870413138837683982099471043
  /\ parse_proof (forged_blob 3) 1 (byte.of_Z 0) = Some (3, Form.mk 2 1 3)
  /\ cpu_vdf_verify_proof (H := Reference.lib) (Some bytes_23) None
       (Some (proof_of (forged_blob 3) 1 (byte.of_Z 0))) 1 (byte.of_Z 0)
     = Some true
  /\ cpu_vdf_verify_proof (H := Reference.lib) (Some bytes_23) None
       (Some (proof_of (forged_blob 1) 1 (byte.of_Z 0))) 1 (byte.of_Z 0)
     = Some false.
Proof.
  split; [vm_compute; reflexivity|].
  split; [vm_compute; reflexivity|].
  split; vm_compute; reflexivity.
Qed.

(** * The worker and its checkpoints *)

Lemma segment_chain_snoc (prev : Z) (cps : list CheckpointProof)
  (cp : CheckpointProof) :
  segment_chain prev cps ->
  firstn 9 (serialized_proof cp)
  = byte.of_Z 3 :: be_bytes 8 (u64 (iteration cp - last_iteration prev cps)) ->
  segment_chain prev (cps ++ [cp]).
Proof.
  revert prev. induction cps as [|c0 cps IH]; intros prev Hc Hcp.
  - cbn in *. split; [exact Hcp | exact I].
  - cbn [segment_chain app] in *. destruct Hc as [H0 Hc].
    split; [exact H0|]. apply IH; [exact Hc|]. exact Hcp.
Qed.

Lemma last_iteration_snoc (prev : Z) (cps : list CheckpointProof)
  (cp : CheckpointProof) :
  last_iteration prev (cps ++ [cp]) = iteration cp.
Proof. unfold last_iteration. now rewrite fold_left_app. Qed.

Lemma generate_checkpoint_proof_header `{VdfLib} (fuel : nat)
  (start_form end_form : form) (iterations D : Z) (cp : CheckpointProof) :
  generate_checkpoint_proof fuel start_form end_form iterations D = Some cp ->
  firstn 9 (serialized_proof cp) = byte.of_Z 3 :: be_bytes 8 iterations
  /\ iteration cp = iterations
  /\ checkpoint_form cp = end_form.
Proof.
  unfold generate_checkpoint_proof.
  destruct (challenge_prime_of _ _ _ _ _) as [l|]; [|discriminate].
  intros Hcp. apply Some_inj in Hcp. subst cp.
  cbn [serialized_proof iteration checkpoint_form].
  split; [|split; reflexivity].
  change ([byte.of_Z 3] ++ be_bytes 8 iterations ++ ?r)
    with ((byte.of_Z 3 :: be_bytes 8 iterations) ++ r).
  apply firstn_exact. cbn [length]. now rewrite be_bytes_length.
Qed.

Section Streaming.
Context `{VdfLib}.
Variable fuel : nat.
Variable stop_at : option nat.
Variable sentinel : CheckpointProof.

Lemma streaming_inv_tick (w : worker_state) :
  streaming_inv sentinel w -> streaming_inv sentinel (tick w).
Proof. exact (fun H => H). Qed.

Lemma iteration_body_streaming (completed_iterations i : Z)
  (w w' : worker_state) :
  streaming_inv sentinel w ->
  iteration_body fuel completed_iterations i w = Some w' ->
  streaming_inv sentinel w'.
Proof.
  intros (Hs & rest & Hl & Hc & Hlast) Hbody.
  unfold iteration_body in Hbody.
  cbn [store_checkpoints checkpoint_interval generate_streaming_proofs
       target_iterations discriminant set_current_iteration] in Hbody.
  rewrite Hs in Hbody.
  assert (Hkeep : streaming_inv sentinel
            (mk_worker
               (set_current_iteration (wctx w)
                  (u64 (completed_iterations + i + 1)))
               (square (current w)) (last_checkpoint w)
               (last_checkpoint_iter w) (polls w))).
  { split; [exact Hs|]. exists rest. cbn. auto. }
  destruct (store_checkpoints (wctx w) && (0 <? checkpoint_interval (wctx w)));
    [|injection Hbody as <-; exact Hkeep].
  destruct ((_ mod _ =? 0) || (_ =? _));
    [|injection Hbody as <-; exact Hkeep].
  destruct (generate_checkpoint_proof _ _ _ _ _) as [cp|] eqn:Hcp;
    [|discriminate].
  injection Hbody as <-.
  apply generate_checkpoint_proof_header in Hcp.
  destruct Hcp as (Hhead & _ & _).
  split; [exact Hs|].
  exists (rest ++ [set_iteration cp (u64 (completed_iterations + i + 1))]).
  cbn [wctx push_checkpoint set_checkpoint_proofs checkpoint_proofs
       set_current_iteration last_checkpoint_iter].
  rewrite Hl. split; [reflexivity|]. split.
  - apply segment_chain_snoc; [exact Hc|].
    cbn [set_iteration serialized_proof iteration].
    rewrite <- Hlast. exact Hhead.
  - now rewrite last_iteration_snoc.
Qed.

Lemma batch_loop_streaming (n : nat) (completed_iterations i : Z)
  (w w' : worker_state) :
  streaming_inv sentinel w ->
  batch_loop fuel stop_at n completed_iterations i w = Some w' ->
  streaming_inv sentinel w'.
Proof.
  revert i w. induction n as [|n IH]; intros i w Hinv Hloop.
  - cbn in Hloop. now injection Hloop as <-.
  - cbn [batch_loop] in Hloop.
    destruct (should_stop_load stop_at (polls w)).
    + injection Hloop as <-. now apply streaming_inv_tick.
    + destruct (iteration_body fuel completed_iterations i (tick w))
        as [w1|] eqn:Hbody; [|discriminate].
      apply (IH (i + 1) w1); [|exact Hloop].
      eapply iteration_body_streaming; [|exact Hbody].
      now apply streaming_inv_tick.
Qed.

Lemma main_loop_streaming (rounds : nat) (completed_iterations : Z)
  (w : worker_state) (r : Z * worker_state) :
  streaming_inv sentinel w ->
  main_loop fuel stop_at rounds completed_iterations w = Some r ->
  streaming_inv sentinel (snd r).
Proof.
  revert completed_iterations w.
  induction rounds as [|rounds IH]; intros completed_iterations w Hinv Hloop;
    [discriminate|].
  cbn [main_loop] in Hloop.
  destruct (completed_iterations <? target_iterations (wctx w)).
  - destruct (should_stop_load stop_at (polls w)).
    + injection Hloop as <-. now apply streaming_inv_tick.
    + destruct (batch_loop _ _ _ _ _ _) as [w1|] eqn:Hbatch; [|discriminate].
      eapply IH; [|exact Hloop].
      eapply batch_loop_streaming; [|exact Hbatch].
      now apply streaming_inv_tick.
  - injection Hloop as <-. exact Hinv.
Qed.

End Streaming.

Lemma worker_init_streaming (c : cpu_vdf_context) :
  store_checkpoints c = true ->
  generate_streaming_proofs c = true ->
  0 < target_iterations c ->
  checkpoint_proofs c = [] ->
  checkpoint_proofs (worker_init c) = [initial_checkpoint (initial_form c)]
  /\ generate_streaming_proofs (worker_init c) = true
  /\ initial_form (worker_init c) = initial_form c.
Proof.
  intros Hstore Hstream Ht Hnil. unfold worker_init.
  rewrite Hstore. destruct (Z.ltb_spec 0 (target_iterations c)); [|lia].
  cbn [andb generate_streaming_proofs set_checkpoint_interval].
  rewrite Hstream. cbn. rewrite Hnil. repeat split. exact Hstream.
Qed.

Lemma start_computation_success `{VdfLib} (c c0 : cpu_vdf_context)
  (ch : list byte) (initial_form_bytes : option (list byte))
  (iterations bits : Z) :
  cpu_vdf_start_computation (Some c) (Some ch) initial_form_bytes iterations
    bits = (CPU_VDF_SUCCESS, Some c0) ->
  config c0 = config c
  /\ target_iterations c0 = iterations
  /\ store_checkpoints c0 = (0 <? segment_size (config c))
  /\ generate_streaming_proofs c0 = (0 <? segment_size (config c))
  /\ checkpoint_proofs c0 = []
  /\ checkpoint_interval c0 = checkpoint_interval c.
Proof.
  unfold cpu_vdf_start_computation.
  destruct (iterations =? 0); [discriminate|].
  destruct (state_eqb (state c) CPU_VDF_STATE_COMPUTING); [discriminate|].
  intros Hc0. apply (f_equal snd) in Hc0. cbn [snd] in Hc0.
  apply Some_inj in Hc0. subst c0.
  destruct initial_form_bytes; repeat split.
Qed.

(** C2 (as amended). In every run of the worker with checkpoints and
    streaming proofs enabled, as [cpu_vdf_start_computation] starts them,
    the stored records are the initial record (blob 0x04, iteration 0)
    followed by records whose blob begins with 0x03 and then holds, in 8
    bytes big-endian, the length of the segment: the record's iteration
    minus the iteration of the record before it. The absolute iteration is
    in the record's [iteration] field. *)
Theorem checkpoint_blob_holds_segment_length `{VdfLib}
  (fuel : nat) (stop_at : option nat) (now : Z) (c0 c' : cpu_vdf_context) :
  store_checkpoints c0 = true ->
  generate_streaming_proofs c0 = true ->
  checkpoint_proofs c0 = [] ->
  0 < target_iterations c0 ->
  vdf_computation_thread fuel stop_at now c0 = Some c' ->
  exists rest,
    checkpoint_proofs c' = initial_checkpoint (initial_form c0) :: rest
    /\ segment_chain 0 rest.
Proof.
  intros Hstore Hstream Hnil Hpos Hrun.
  unfold vdf_computation_thread in Hrun.
  set (ctx0 := set_start_time (set_state c0 CPU_VDF_STATE_COMPUTING) now)
    in Hrun.
  destruct (worker_init_streaming ctx0) as (Hl & Hs & Hf);
    [exact Hstore | exact Hstream | exact Hpos | exact Hnil |].
  change (initial_form ctx0) with (initial_form c0) in Hl, Hf.
  set (w0 := mk_worker _ _ _ _ _) in Hrun.
  assert (Hinv : streaming_inv (initial_checkpoint (initial_form c0)) w0).
  { split; [exact Hs|]. exists []. cbn. rewrite Hl. repeat split. }
  destruct (main_loop fuel stop_at fuel 0 w0) as [[done w]|] eqn:Hloop;
    [|discriminate].
  apply (main_loop_streaming fuel stop_at _ fuel 0 w0 (done, w) Hinv) in Hloop.
  destruct Hloop as (_ & rest & Hrest & Hchain & _). cbn [snd] in Hrest.
  exists rest.
  destruct (should_stop_load stop_at (polls w));
    apply Some_inj in Hrun; subst c'; cbn; rewrite Hrest; auto.
Qed.

(** [cpu_vdf_start_computation] with a positive segment size starts such a
    run. *)
Lemma start_computation_streams `{VdfLib} (c c0 : cpu_vdf_context)
  (ch : list byte) (initial_form_bytes : option (list byte))
  (iterations bits : Z) :
  0 < segment_size (config c) ->
  0 < iterations ->
  cpu_vdf_start_computation (Some c) (Some ch) initial_form_bytes iterations
    bits = (CPU_VDF_SUCCESS, Some c0) ->
  store_checkpoints c0 = true
  /\ generate_streaming_proofs c0 = true
  /\ checkpoint_proofs c0 = []
  /\ 0 < target_iterations c0.
Proof.
  intros Hseg Hit Hstart.
  destruct (start_computation_success c c0 ch initial_form_bytes iterations
              bits Hstart) as (_ & Ht & Hstore & Hstream & Hnil & _).
  destruct (Z.ltb_spec 0 (segment_size (config c))); [|lia].
  rewrite Ht. auto.
Qed.

Lemma context_of_returned (o : option cpu_vdf_context) :
  match o with Some _ => true | None => false end = true ->
  o = Some (context_of o).
Proof. destruct o; [reflexivity | discriminate]. Qed.

Lemma checkpoint_blob_holds_segment_length_witness :
  cpu_vdf_start_computation (H := Reference.lib) (Some fresh_context)
    (Some test_challenge) None 4 16
  = (CPU_VDF_SUCCESS, Some started_streaming)
  /\ exists rest,
       checkpoint_proofs streaming_run
       = initial_checkpoint (initial_form started_streaming) :: rest
       /\ segment_chain 0 rest.
Proof.
  split; [vm_compute; reflexivity|].
  apply (checkpoint_blob_holds_segment_length (H := Reference.lib) 400 None 0
           started_streaming streaming_run).
  - vm_compute. reflexivity.
  - vm_compute. reflexivity.
  - vm_compute. reflexivity.
  - vm_compute. reflexivity.
  - apply context_of_returned. vm_compute. reflexivity.
Defined.

(** C2, the claim as written fails. In the run of four iterations with a
    checkpoint every second one, which completes, the record of iteration 4
    has a blob whose bytes 1 to 8 hold 2, the length of its segment. *)
Lemma second_segment_blob_holds_two :
  (state streaming_run,
   map (fun cp => (iteration cp, firstn 9 (serialized_proof cp)))
     (checkpoint_proofs streaming_run))
  = (CPU_VDF_STATE_COMPLETED,
     [(0, [byte.of_Z 4]);
      (2, byte.of_Z 3 :: be_bytes 8 2);
      (4, byte.of_Z 3 :: be_bytes 8 2)])
  /\ be_bytes 8 2 <> be_bytes 8 4.
Proof.
  split; [vm_compute; reflexivity | vm_compute; discriminate].
Qed.

(** * Checkpoint iterations *)

Lemma last_from_snoc (prev : Z) (l : list Z) (x : Z) :
  last_from prev (l ++ [x]) = x.
Proof. unfold last_from. now rewrite fold_left_app. Qed.

Lemma increasing_from_snoc (prev : Z) (l : list Z) (x : Z) :
  increasing_from prev l -> last_from prev l < x ->
  increasing_from prev (l ++ [x]).
Proof.
  revert prev. induction l as [|y l IH]; intros prev Hinc Hlast.
  - cbn in *. auto.
  - cbn [app increasing_from] in *. destruct Hinc as [Hp Hinc].
    split; [exact Hp|]. apply IH; [exact Hinc | exact Hlast].
Qed.

Lemma increasing_from_bounds (prev : Z) (l : list Z) :
  increasing_from prev l ->
  prev <= last_from prev l
  /\ Forall (fun x => prev < x <= last_from prev l) l.
Proof.
  revert prev. induction l as [|y l IH]; intros prev Hinc.
  - cbn. split; [lia | constructor].
  - destruct Hinc as [Hp Hinc]. destruct (IH y Hinc) as [Hle Hall].
    change (last_from prev (y :: l)) with (last_from y l).
    split; [lia|]. constructor; [lia|].
    eapply Forall_impl; [|exact Hall]. cbn. intros x Hx. lia.
Qed.

Lemma u64_small (x : Z) : 0 <= x < 2 ^ 64 -> u64 x = x.
Proof. intros Hx. unfold u64. now apply Z.mod_small. Qed.

Lemma should_stop_load_seen (stop_at : option nat) (p : nat) :
  should_stop_load stop_at p = true <-> stop_seen stop_at (S p).
Proof.
  unfold should_stop_load, stop_seen. destruct stop_at as [k|].
  - rewrite Nat.leb_le. lia.
  - split; [discriminate | tauto].
Qed.

Lemma stop_seen_mono (stop_at : option nat) (p q : nat) :
  (p <= q)%nat -> stop_seen stop_at p -> stop_seen stop_at q.
Proof. unfold stop_seen. destruct stop_at; [lia | tauto]. Qed.

Section Counting.
Context `{VdfLib}.
Variable fuel : nat.
Variable stop_at : option nat.
Variable pre : list Z.
Variable T : Z.
Hypothesis T_range : 0 < T /\ T + 1000 <= 2 ^ 64.

Lemma counting_inv_tick (w : worker_state) : counting_inv pre T w -> counting_inv pre T (tick w).
Proof. exact (fun Hw => Hw). Qed.

(** One iteration when the count of iterations done is exact. *)
Lemma iteration_body_counting (completed_iterations i : Z)
  (w w' : worker_state) :
  counting_inv pre T w ->
  current_iteration (wctx w) = completed_iterations + i ->
  completed_iterations + i + 1 <= T ->
  iteration_body fuel completed_iterations i w = Some w' ->
  counting_inv pre T w'
  /\ current_iteration (wctx w') = completed_iterations + i + 1
  /\ polls w' = polls w.
Proof.
  intros (Hstore & Hint & Htarget & Hcur & rest & Hits & Hinc & Hlast & Hend)
    Hexact Hle Hbody.
  unfold iteration_body in Hbody.
  cbn [store_checkpoints checkpoint_interval generate_streaming_proofs
       target_iterations discriminant set_current_iteration] in Hbody.
  rewrite u64_small in Hbody by lia.
  set (t := completed_iterations + i + 1) in *.
  rewrite Hstore, Htarget in Hbody.
  destruct (Z.ltb_spec 0 (checkpoint_interval (wctx w))); [|lia].
  cbn [andb] in Hbody.
  assert (Hpush : forall cp ctx', iteration cp = t ->
            store_checkpoints ctx' = true ->
            checkpoint_interval ctx' = checkpoint_interval (wctx w) ->
            target_iterations ctx' = T ->
            current_iteration ctx' = t ->
            checkpoint_proofs ctx' = checkpoint_proofs (wctx w) ++ [cp] ->
            forall a b c0 d, counting_inv pre T (mk_worker ctx' a b c0 d)).
  { intros cp ctx' Hcp Hs' Hi' Ht' Hc' Hp' a b c0 d.
    split; [exact Hs'|]. split; [cbn; lia|]. split; [exact Ht'|].
    split; [cbn; lia|].
    exists (rest ++ [t]). cbn [wctx]. unfold iterations_of in *.
    rewrite Hp', map_app, Hits, Hc', last_from_snoc. cbn [map].
    rewrite Hcp, <- app_assoc.
    split; [reflexivity|].
    split; [apply increasing_from_snoc; [exact Hinc | lia]|].
    split; [lia | tauto]. }
  assert (Hkeep : t <> T ->
            counting_inv pre T (mk_worker (set_current_iteration (wctx w) t)
                   (square (current w)) (last_checkpoint w)
                   (last_checkpoint_iter w) (polls w))).
  { intros Hne. split; [exact Hstore|]. split; [exact Hint|].
    split; [exact Htarget|]. split; [cbn; lia|].
    exists rest. cbn. split; [exact Hits|]. split; [exact Hinc|].
    split; [lia | intros; lia]. }
  destruct (t mod checkpoint_interval (wctx w) =? 0) eqn:Hmod;
    [|destruct (Z.eqb_spec t T) as [HeqT|HneT]];
    cbn [orb] in Hbody.
  1,2: destruct (generate_streaming_proofs (wctx w));
    [destruct (generate_checkpoint_proof _ _ _ _ _) as [cp|];
       [|discriminate]|];
    apply Some_inj in Hbody; subst w';
    (split; [|split; reflexivity]);
    (eapply Hpush; [| | | | |reflexivity]); reflexivity || assumption.
  apply Some_inj in Hbody. subst w'.
  split; [now apply Hkeep | split; reflexivity].
Qed.

Lemma batch_loop_counting (n : nat) (completed_iterations i : Z)
  (w w' : worker_state) :
  counting_inv pre T w ->
  (~ stop_seen stop_at (polls w) ->
   current_iteration (wctx w) = completed_iterations + i) ->
  completed_iterations + i + Z.of_nat n <= T ->
  batch_loop fuel stop_at n completed_iterations i w = Some w' ->
  counting_inv pre T w'
  /\ (~ stop_seen stop_at (polls w') ->
      current_iteration (wctx w') = completed_iterations + i + Z.of_nat n).
Proof.
  revert i w. induction n as [|n IH]; intros i w Hinv Hexact Hle Hloop.
  - cbn in Hloop. apply Some_inj in Hloop. subst w'.
    split; [exact Hinv|]. intros Hns. rewrite Hexact by exact Hns. lia.
  - cbn [batch_loop] in Hloop.
    destruct (should_stop_load stop_at (polls w)) eqn:Hload.
    + apply Some_inj in Hloop. subst w'.
      split; [exact Hinv|]. intros Hns. exfalso. apply Hns.
      cbn [tick polls]. now apply should_stop_load_seen.
    + assert (Hns1 : ~ stop_seen stop_at (S (polls w))).
      { intros Hs. apply should_stop_load_seen in Hs. congruence. }
      assert (Hns : ~ stop_seen stop_at (polls w)).
      { intros Hs. apply Hns1.
        eapply stop_seen_mono; [|exact Hs]. lia. }
      destruct (iteration_body fuel completed_iterations i (tick w))
        as [w1|] eqn:Hbody; [|discriminate].
      apply iteration_body_counting in Hbody;
        [| exact Hinv | cbn [tick wctx]; now apply Hexact | lia].
      destruct Hbody as (Hinv1 & Hcur1 & Hpolls1).
      destruct (IH (i + 1) w1 Hinv1) as [Hinv' Hexact'];
        [intros _; rewrite Hcur1; lia | lia | exact Hloop |].
      split; [exact Hinv'|]. intros Hs. rewrite Hexact' by exact Hs. lia.
Qed.

Lemma main_loop_counting (rounds : nat) (completed_iterations : Z)
  (w : worker_state) (r : Z * worker_state) :
  counting_inv pre T w ->
  (~ stop_seen stop_at (polls w) ->
   current_iteration (wctx w) = completed_iterations) ->
  0 <= completed_iterations <= T ->
  main_loop fuel stop_at rounds completed_iterations w = Some r ->
  counting_inv pre T (snd r)
  /\ (~ stop_seen stop_at (polls (snd r)) ->
      current_iteration (wctx (snd r)) = T).
Proof.
  revert completed_iterations w.
  induction rounds as [|rounds IH];
    intros completed_iterations w Hinv Hexact Hrange Hloop; [discriminate|].
  cbn [main_loop] in Hloop.
  assert (Htarget : target_iterations (wctx w) = T) by apply Hinv.
  rewrite Htarget in Hloop.
  destruct (Z.ltb_spec completed_iterations T) as [Hlt|Hge].
  - destruct (should_stop_load stop_at (polls w)) eqn:Hload.
    + apply Some_inj in Hloop. subst r. cbn [snd].
      split; [exact Hinv|]. intros Hns. exfalso. apply Hns.
      cbn [tick polls]. now apply should_stop_load_seen.
    + assert (Hns1 : ~ stop_seen stop_at (S (polls w))).
      { intros Hs. apply should_stop_load_seen in Hs. congruence. }
      assert (Hns : ~ stop_seen stop_at (polls w)).
      { intros Hs. apply Hns1.
        eapply stop_seen_mono; [|exact Hs]. lia. }
      rewrite (u64_small (completed_iterations + 1000)) in Hloop by lia.
      set (batch_end := Z.min (completed_iterations + 1000) T) in *.
      assert (Hbe : completed_iterations <= batch_end <= T)
        by (subst batch_end; lia).
      rewrite (u64_small (batch_end - completed_iterations)) in Hloop
        by lia.
      destruct (batch_loop _ _ _ _ _ _) as [w1|] eqn:Hbatch;
        [|discriminate].
      apply batch_loop_counting in Hbatch;
        [| exact Hinv
         | intros _; cbn [tick wctx]; rewrite (Hexact Hns); lia
         | rewrite Z2Nat.id by lia; lia].
      destruct Hbatch as [Hinv1 Hexact1].
      apply (IH batch_end w1 Hinv1); [|lia|exact Hloop].
      intros Hs. rewrite Hexact1 by exact Hs.
      rewrite Z2Nat.id by lia. lia.
  - apply Some_inj in Hloop. subst r. cbn [snd].
    split; [exact Hinv|]. intros Hns. rewrite Hexact by exact Hns. lia.
Qed.

End Counting.

Lemma increasing_from_weaken (p q : Z) (l : list Z) :
  p <= q -> increasing_from q l -> increasing_from p l.
Proof. destruct l as [|x l]; cbn; [tauto | intros Hpq [Hq Hl]; split; [lia | exact Hl]]. Qed.

Lemma increasing_from_strict (p : Z) (l : list Z) :
  increasing_from p l -> strictly_increasing l.
Proof. destruct l as [|x l]; cbn; tauto. Qed.

Lemma worker_init_counting (c : cpu_vdf_context) :
  store_checkpoints c = true ->
  0 < target_iterations c ->
  checkpoint_proofs c = [] ->
  store_checkpoints (worker_init c) = true
  /\ 0 < checkpoint_interval (worker_init c)
  /\ target_iterations (worker_init c) = target_iterations c
  /\ current_iteration (worker_init c) = current_iteration c
  /\ iterations_of (worker_init c)
     = if generate_streaming_proofs c then [0] else [].
Proof.
  intros Hstore Ht Hnil. unfold worker_init, iterations_of.
  rewrite Hstore. destruct (Z.ltb_spec 0 (target_iterations c)); [|lia].
  cbn [andb generate_streaming_proofs set_checkpoint_interval].
  assert (Hint : 0 < (if 0 <? segment_size (config c)
                      then segment_size (config c) else 65536))
    by (destruct (Z.ltb_spec 0 (segment_size (config c))); lia).
  destruct (generate_streaming_proofs c); cbn; rewrite ?Hnil;
    repeat split; try assumption.
Qed.

(** The records of a completed run that stores checkpoints: after the
    initial record, if the run generates streaming proofs, their iterations
    increase strictly from above 0 up to the target. *)
Lemma completed_run_iterations `{VdfLib} (fuel : nat) (stop_at : option nat)
  (now : Z) (c0 c' : cpu_vdf_context) :
  store_checkpoints c0 = true ->
  checkpoint_proofs c0 = [] ->
  current_iteration c0 = 0 ->
  0 < target_iterations c0 ->
  target_iterations c0 + 1000 <= 2 ^ 64 ->
  vdf_computation_thread fuel stop_at now c0 = Some c' ->
  state c' = CPU_VDF_STATE_COMPLETED ->
  exists rest,
    iterations_of c'
    = (if generate_streaming_proofs c0 then [0] else []) ++ rest
    /\ increasing_from 0 rest
    /\ last_from 0 rest = target_iterations c0.
Proof.
  intros Hstore Hnil Hzero Hpos Hmax Hrun Hstate.
  unfold vdf_computation_thread in Hrun.
  set (ctx0 := set_start_time (set_state c0 CPU_VDF_STATE_COMPUTING) now)
    in Hrun.
  destruct (worker_init_counting ctx0 Hstore Hpos Hnil)
    as (Hs1 & Hi1 & Ht1 & Hc1 & Hits1).
  change (target_iterations ctx0) with (target_iterations c0) in Ht1.
  change (current_iteration ctx0) with (current_iteration c0) in Hc1.
  change (generate_streaming_proofs ctx0)
    with (generate_streaming_proofs c0) in Hits1.
  set (pre := if generate_streaming_proofs c0 then [0] else []) in *.
  set (w0 := mk_worker _ _ _ _ _) in Hrun.
  assert (Hinv : counting_inv pre (target_iterations c0) w0).
  { split; [exact Hs1|]. split; [exact Hi1|]. split; [exact Ht1|].
    cbn [wctx w0]. rewrite Hc1, Hzero. split; [lia|].
    exists []. rewrite app_nil_r. cbn. repeat split; [exact Hits1|lia|lia]. }
  destruct (main_loop fuel stop_at fuel 0 w0) as [[done w]|] eqn:Hloop;
    [|discriminate].
  apply (main_loop_counting fuel stop_at pre (target_iterations c0)
           (conj Hpos Hmax) fuel 0 w0 (done, w) Hinv) in Hloop;
    [| intros _; cbn [wctx w0]; rewrite Hc1; exact Hzero | lia].
  cbn [snd] in Hloop. destruct Hloop as [Hinv' Hexact].
  destruct (should_stop_load stop_at (polls w)) eqn:Hload;
    apply Some_inj in Hrun; subst c'; [discriminate|].
  assert (Hns : ~ stop_seen stop_at (polls w)).
  { intros Hseen.
    assert (Hs : stop_seen stop_at (S (polls w)))
      by (eapply stop_seen_mono; [|exact Hseen]; lia).
    apply should_stop_load_seen in Hs. congruence. }
  specialize (Hexact Hns).
  destruct Hinv' as (_ & _ & _ & _ & rest & Hits & Hinc & _ & Hend).
  exists rest. split; [exact Hits|]. split; [exact Hinc|]. now apply Hend.
Qed.

(** * Reading the checkpoints back *)

(** An entry written carries the iteration of its record. *)
Lemma export_checkpoint_iteration (cp : CheckpointProof)
  (entry : cpu_vdf_checkpoint_proof_t) :
  export_checkpoint cp = Some entry -> out_iteration entry = iteration cp.
Proof.
  unfold export_checkpoint. destruct (_ || _); [discriminate|].
  intros Heq. injection Heq as <-. reflexivity.
Qed.

Lemma copy_checkpoints_increasing (cps : list CheckpointProof)
  (start_iteration end_iteration prev : Z) (room : nat)
  (entries : list cpu_vdf_checkpoint_proof_t) :
  increasing_from prev (map iteration cps) ->
  copy_checkpoints cps start_iteration end_iteration room = Some entries ->
  increasing_from prev (map out_iteration entries).
Proof.
  revert prev room entries.
  induction cps as [|cp cps IH]; intros prev room entries Hinc Hcopy.
  - injection Hcopy as <-. exact I.
  - cbn [map increasing_from] in Hinc. destruct Hinc as [Hp Hinc].
    cbn [copy_checkpoints] in Hcopy.
    destruct ((start_iteration <=? iteration cp)
              && (iteration cp <=? end_iteration)).
    + destruct room as [|room]; [injection Hcopy as <-; exact I|].
      destruct (export_checkpoint cp) as [entry|] eqn:Hentry;
        [|discriminate].
      destruct (copy_checkpoints cps start_iteration end_iteration room)
        as [rest|] eqn:Hrest; [|discriminate].
      injection Hcopy as <-.
      cbn [map increasing_from].
      rewrite (export_checkpoint_iteration cp entry Hentry).
      split; [exact Hp | now apply (IH (iteration cp) room)].
    + apply (IH prev room); [|exact Hcopy].
      eapply increasing_from_weaken; [|exact Hinc]. lia.
Qed.

Lemma copy_checkpoints_all (cps : list CheckpointProof)
  (start_iteration end_iteration : Z) (room : nat)
  (entries : list cpu_vdf_checkpoint_proof_t) :
  Forall (fun t => start_iteration <= t <= end_iteration)
    (map iteration cps) ->
  (length cps <= room)%nat ->
  copy_checkpoints cps start_iteration end_iteration room = Some entries ->
  map out_iteration entries = map iteration cps.
Proof.
  revert room entries.
  induction cps as [|cp cps IH]; intros room entries Hall Hroom Hcopy.
  - injection Hcopy as <-. reflexivity.
  - cbn [map] in Hall. inversion Hall as [|t l Ht Hall']; subst.
    cbn [copy_checkpoints length] in *.
    destruct (Z.leb_spec start_iteration (iteration cp)); [|lia].
    destruct (Z.leb_spec (iteration cp) end_iteration); [|lia].
    cbn [andb] in Hcopy. destruct room as [|room]; [lia|].
    destruct (export_checkpoint cp) as [entry|] eqn:Hentry; [|discriminate].
    destruct (copy_checkpoints cps start_iteration end_iteration room)
      as [rest|] eqn:Hrest; [|discriminate].
    injection Hcopy as <-. cbn [map].
    rewrite (export_checkpoint_iteration cp entry Hentry). f_equal.
    apply (IH room); [exact Hall' | lia | exact Hrest].
Qed.

(** The sibling path: a completed run started by
    [cpu_vdf_start_computation] with checkpoints enabled. Whatever the
    window and the capacity of the query, the iterations returned increase
    strictly; a query from 0 to the target or beyond, with room for every
    record, returns a list that starts at 0 and ends at the target. The
    query is one whose forms fit the arrays of the caller. *)
Lemma start_computation_checkpoints `{VdfLib} (fuel : nat)
  (stop_at : option nat) (now : Z) (c c0 c' : cpu_vdf_context)
  (ch : list byte) (initial_form_bytes : option (list byte))
  (iterations bits : Z) (start_iteration end_iteration : Z)
  (proofs : list cpu_vdf_checkpoint_proof_t) (max_proofs : nat)
  (returned : list Z) :
  0 < segment_size (config c) ->
  0 < iterations -> iterations + 1000 <= 2 ^ 64 ->
  cpu_vdf_start_computation (Some c) (Some ch) initial_form_bytes iterations
    bits = (CPU_VDF_SUCCESS, Some c0) ->
  vdf_computation_thread fuel stop_at now c0 = Some c' ->
  state c' = CPU_VDF_STATE_COMPLETED ->
  returned_iterations
    (cpu_vdf_get_checkpoint_proofs (Some c') start_iteration end_iteration
       (Some proofs) (Some max_proofs)) = Some returned ->
  strictly_increasing returned
  /\ (start_iteration <= 0 -> iterations <= end_iteration ->
      (length (checkpoint_proofs c') <= max_proofs)%nat ->
      exists rest,
        returned = 0 :: rest /\ last_from 0 rest = iterations).
Proof.
  intros Hseg Hpos Hmax Hstart Hrun Hstate Hreturned.
  destruct (start_computation_success c c0 ch initial_form_bytes iterations
              bits Hstart) as (_ & Ht & Hstore & Hstream & Hnil & _).
  destruct (Z.ltb_spec 0 (segment_size (config c))); [|lia].
  assert (Hzero : current_iteration c0 = 0).
  { unfold cpu_vdf_start_computation in Hstart.
    destruct (iterations =? 0); [discriminate|].
    destruct (state_eqb (state c) CPU_VDF_STATE_COMPUTING); [discriminate|].
    apply (f_equal snd) in Hstart. cbn [snd] in Hstart.
    apply Some_inj in Hstart. subst c0.
    destruct initial_form_bytes; reflexivity. }
  destruct (completed_run_iterations fuel stop_at now c0 c' Hstore Hnil Hzero)
    as (rest & Hits & Hinc & Hlast); try (rewrite Ht; assumption);
    [exact Hrun | exact Hstate |].
  rewrite Hstream in Hits. cbn [app] in Hits. rewrite Ht in Hlast.
  unfold returned_iterations in Hreturned.
  cbn [cpu_vdf_get_checkpoint_proofs] in Hreturned.
  destruct (copy_checkpoints (checkpoint_proofs c') start_iteration
              end_iteration max_proofs) as [entries|] eqn:Hcopy;
    [|discriminate].
  injection Hreturned as <-. unfold iterations_of in Hits.
  split.
  - apply (increasing_from_strict (-1)).
    apply (copy_checkpoints_increasing (checkpoint_proofs c')
             start_iteration end_iteration (-1) max_proofs);
      [|exact Hcopy].
    rewrite Hits. cbn. split; [lia|exact Hinc].
  - intros Hs He Hroom. exists rest. split; [|exact Hlast].
    rewrite (copy_checkpoints_all (checkpoint_proofs c') start_iteration
               end_iteration max_proofs entries), Hits;
      [reflexivity| |exact Hroom|exact Hcopy].
    rewrite Hits. constructor; [lia|].
    destruct (increasing_from_bounds 0 rest Hinc) as [_ Hall].
    eapply Forall_impl; [|exact Hall]. cbn. intros t Hb. lia.
Qed.

(** The path that misses the flag: a completed run started by
    [cpu_vdf_start_computation_with_discriminant] on a context that does not
    generate streaming proofs, as every context from [cpu_vdf_create] until
    [cpu_vdf_start_computation] has run on it. The list increases strictly
    and ends at the target, but no record is at iteration 0. *)
Lemma start_with_discriminant_checkpoints `{VdfLib} (fuel : nat)
  (stop_at : option nat) (now : Z) (c c0 c' : cpu_vdf_context)
  (dbytes : list byte) (initial_form_arg : option (list byte))
  (iterations : Z) :
  0 < segment_size (config c) ->
  generate_streaming_proofs c = false ->
  0 < iterations -> iterations + 1000 <= 2 ^ 64 ->
  cpu_vdf_start_computation_with_discriminant (Some c) (Some dbytes)
    initial_form_arg iterations = (CPU_VDF_SUCCESS, Some c0) ->
  vdf_computation_thread fuel stop_at now c0 = Some c' ->
  state c' = CPU_VDF_STATE_COMPLETED ->
  strictly_increasing (iterations_of c')
  /\ last_from 0 (iterations_of c') = iterations
  /\ Forall (fun t => 0 < t) (iterations_of c').
Proof.
  intros Hseg Hflag Hpos Hmax Hstart Hrun Hstate.
  unfold cpu_vdf_start_computation_with_discriminant in Hstart.
  destruct ((Z.of_nat (length dbytes) =? 0) || (iterations =? 0));
    [discriminate|].
  destruct (state_eqb (state c) CPU_VDF_STATE_COMPUTING); [discriminate|].
  destruct (0 <=? _); [discriminate|].
  match type of Hstart with context [negb ?b] => destruct b end;
    [|discriminate].
  apply (f_equal snd) in Hstart. cbn [snd negb] in Hstart.
  apply Some_inj in Hstart.
  assert (Hfields : store_checkpoints c0 = true
                    /\ checkpoint_proofs c0 = []
                    /\ current_iteration c0 = 0
                    /\ target_iterations c0 = iterations
                    /\ generate_streaming_proofs c0 = false).
  { subst c0. cbn. destruct (Z.ltb_spec 0 (segment_size (config c))); [|lia].
    repeat split. exact Hflag. }
  destruct Hfields as (Hstore & Hnil & Hzero & Ht & Hstream).
  destruct (completed_run_iterations fuel stop_at now c0 c' Hstore Hnil Hzero)
    as (rest & Hits & Hinc & Hlast); try (rewrite Ht; assumption);
    [exact Hrun | exact Hstate |].
  rewrite Hstream in Hits. cbn [app] in Hits. rewrite Ht in Hlast.
  rewrite Hits. split; [now apply (increasing_from_strict 0)|].
  split; [exact Hlast|].
  destruct (increasing_from_bounds 0 rest Hinc) as [_ Hall].
  eapply Forall_impl; [|exact Hall]. cbn. intros t Hb. lia.
Qed.

(** C5, the code at the failing input. On a fresh context with a checkpoint
    every second iteration, a run of four iterations started by
    [cpu_vdf_start_computation_with_discriminant] completes with the records
    of iterations 2 and 4 only: the list returned has no record at
    iteration 0. *)
Theorem run_from_bytes_has_no_initial_record :
  fst (cpu_vdf_start_computation_with_discriminant (H := Reference.lib)
         (Some fresh_context) (Some bytes_23) None 4) = CPU_VDF_SUCCESS
  /\ vdf_computation_thread (H := Reference.lib) 400 None 0
       started_from_bytes = Some run_from_bytes
  /\ state run_from_bytes = CPU_VDF_STATE_COMPLETED
  /\ generate_streaming_proofs started_from_bytes = false
  /\ returned_iterations
       (cpu_vdf_get_checkpoint_proofs (Some run_from_bytes) 0 4 (Some [])
          (Some 10%nat)) = Some [2; 4].
Proof.
  split; [vm_compute; reflexivity|].
  split; [vm_compute; reflexivity|].
  split; [vm_compute; reflexivity|].
  split; vm_compute; reflexivity.
Qed.

(** * The loops of the worker

    A property of the worker state that holds before the first iteration
    and is kept by every iteration holds when the loops are left; unless a
    stop request has been seen, all iterations are done then. *)

Lemma iteration_body_polls `{VdfLib} (fuel : nat)
  (completed_iterations i : Z) (w w' : worker_state) :
  iteration_body fuel completed_iterations i w = Some w' ->
  polls w' = polls w.
Proof.
  unfold iteration_body. intros Hbody.
  repeat match type of Hbody with
         | (if ?b then _ else _) = _ => destruct b
         | match ?o with Some _ => _ | None => _ end = _ =>
             destruct o; [|discriminate]
         end;
    apply Some_inj in Hbody; subst w'; reflexivity.
Qed.

Section LoopRule.
Context `{VdfLib}.
Variable fuel : nat.
Variable stop_at : option nat.
Variable T : Z.
Variable P : Z -> worker_state -> Prop.
Hypothesis T_range : 0 <= T /\ T + 1000 <= 2 ^ 64.
Hypothesis P_target : forall n w, P n w -> target_iterations (wctx w) = T.
Hypothesis P_tick : forall n w, P n w -> P n (tick w).
Hypothesis P_step :
  forall completed_iterations i w w',
    P (completed_iterations + i) w ->
    0 <= completed_iterations + i < T ->
    iteration_body fuel completed_iterations i w = Some w' ->
    P (completed_iterations + i + 1) w'.

Lemma batch_loop_rule (n : nat) (completed_iterations i : Z)
  (w w' : worker_state) :
  0 <= completed_iterations + i ->
  completed_iterations + i + Z.of_nat n <= T ->
  P (completed_iterations + i) w ->
  batch_loop fuel stop_at n completed_iterations i w = Some w' ->
  exists m,
    completed_iterations + i <= m <= completed_iterations + i + Z.of_nat n
    /\ P m w'
    /\ (~ stop_seen stop_at (polls w') ->
        m = completed_iterations + i + Z.of_nat n).
Proof.
  revert i w. induction n as [|n IH]; intros i w Hge Hle HP Hloop.
  - cbn in Hloop. apply Some_inj in Hloop. subst w'.
    exists (completed_iterations + i). repeat split; try lia. exact HP.
  - cbn [batch_loop] in Hloop.
    destruct (should_stop_load stop_at (polls w)) eqn:Hload.
    + apply Some_inj in Hloop. subst w'.
      exists (completed_iterations + i).
      split; [lia|]. split; [now apply P_tick|].
      intros Hns. exfalso. apply Hns. cbn [tick polls].
      now apply should_stop_load_seen.
    + destruct (iteration_body fuel completed_iterations i (tick w))
        as [w1|] eqn:Hbody; [|discriminate].
      apply P_step in Hbody; [|now apply P_tick|lia].
      destruct (IH (i + 1) w1) as (m & Hm & HPm & Hex);
        [lia | lia
         | now replace (completed_iterations + (i + 1))
             with (completed_iterations + i + 1) by lia
         | exact Hloop |].
      exists m. split; [lia|]. split; [exact HPm|].
      intros Hns. rewrite (Hex Hns). lia.
Qed.

Lemma main_loop_rule (rounds : nat) (completed_iterations m : Z)
  (w : worker_state) (r : Z * worker_state) :
  0 <= m <= completed_iterations ->
  completed_iterations <= T ->
  P m w ->
  (~ stop_seen stop_at (polls w) -> m = completed_iterations) ->
  main_loop fuel stop_at rounds completed_iterations w = Some r ->
  exists m',
    0 <= m' <= T
    /\ P m' (snd r)
    /\ (~ stop_seen stop_at (polls (snd r)) -> m' = T).
Proof.
  revert completed_iterations m w.
  induction rounds as [|rounds IH];
    intros completed_iterations m w Hm HleT HP Hexact Hloop;
    [discriminate|].
  cbn [main_loop] in Hloop.
  rewrite (P_target m w HP) in Hloop.
  destruct (Z.ltb_spec completed_iterations T) as [Hlt|Hge].
  - destruct (should_stop_load stop_at (polls w)) eqn:Hload.
    + apply Some_inj in Hloop. subst r. cbn [snd].
      exists m. split; [lia|]. split; [now apply P_tick|].
      intros Hns. exfalso. apply Hns. cbn [tick polls].
      now apply should_stop_load_seen.
    + assert (Hns1 : ~ stop_seen stop_at (S (polls w))).
      { intros Hs. apply should_stop_load_seen in Hs. congruence. }
      assert (Hns : ~ stop_seen stop_at (polls w)).
      { intros Hs. apply Hns1. eapply stop_seen_mono; [|exact Hs]. lia. }
      assert (Hmc : m = completed_iterations) by now apply Hexact.
      subst m.
      rewrite (u64_small (completed_iterations + 1000)) in Hloop by lia.
      set (batch_end := Z.min (completed_iterations + 1000) T) in *.
      assert (Hbe : completed_iterations <= batch_end <= T)
        by (subst batch_end; lia).
      rewrite (u64_small (batch_end - completed_iterations)) in Hloop
        by lia.
      destruct (batch_loop _ _ _ _ _ _) as [w1|] eqn:Hbatch;
        [|discriminate].
      apply batch_loop_rule in Hbatch;
        [| lia | rewrite Z2Nat.id by lia; lia
         | rewrite Z.add_0_r; now apply P_tick].
      destruct Hbatch as (m1 & Hm1 & HP1 & Hex1).
      rewrite Z2Nat.id in Hm1, Hex1 by lia.
      apply (IH batch_end m1 w1); [lia | lia | exact HP1 | | exact Hloop].
      intros Hs. rewrite (Hex1 Hs). lia.
  - apply Some_inj in Hloop. subst r. cbn [snd].
    exists m. split; [lia|]. split; [exact HP|].
    intros Hns. rewrite (Hexact Hns). lia.
Qed.

End LoopRule.

(** * What a run computes *)

Lemma iterate_square_succ `{VdfLib} (n : Z) (x : form) :
  0 <= n -> iterate_square (n + 1) x = square (iterate_square n x).
Proof.
  intros Hn. unfold iterate_square.
  replace (Z.to_nat (n + 1)) with (S (Z.to_nat n)) by lia. reflexivity.
Qed.

Lemma expected_iterations_succ (k T : Z) (n : nat) :
  expected_iterations k T (S n)
  = expected_iterations k T n
    ++ (if (Z.of_nat (S n) mod k =? 0) || (Z.of_nat (S n) =? T)
        then [Z.of_nat (S n)] else []).
Proof.
  unfold expected_iterations.
  rewrite seq_S, map_app, filter_app. reflexivity.
Qed.

Lemma expected_iterations_bounds (k T : Z) (n : nat) :
  Forall (fun t => 1 <= t <= Z.of_nat n) (expected_iterations k T n).
Proof.
  unfold expected_iterations. apply Forall_forall. intros t Hin.
  apply filter_In in Hin. destruct Hin as [Hin _].
  apply in_map_iff in Hin. destruct Hin as (j & <- & Hj).
  apply in_seq in Hj. lia.
Qed.

Lemma last_from_bounds (lo hi prev : Z) (l : list Z) :
  lo <= prev <= hi -> Forall (fun t => lo <= t <= hi) l ->
  lo <= last_from prev l <= hi.
Proof.
  revert prev. induction l as [|x l IH]; intros prev Hp Hall; [exact Hp|].
  inversion Hall as [|y l' Hx Hall']; subst.
  change (last_from prev (x :: l)) with (last_from x l). now apply IH.
Qed.

Lemma expected_iterations_last (k T : Z) (n : nat) :
  0 <= last_from 0 (expected_iterations k T n) <= Z.of_nat n.
Proof.
  apply last_from_bounds; [lia|].
  eapply Forall_impl; [|apply expected_iterations_bounds].
  cbn. intros t Ht. lia.
Qed.

Lemma segment_records_snoc `{VdfLib} (fuel : nat) (D : Z) (x0 : form)
  (prev : Z) (ts : list Z) (t : Z) (recs : list CheckpointProof)
  (cp : CheckpointProof) :
  segment_records fuel D x0 prev ts = Some recs ->
  generate_checkpoint_proof fuel (iterate_square (last_from prev ts) x0)
    (iterate_square t x0) (t - last_from prev ts) D = Some cp ->
  segment_records fuel D x0 prev (ts ++ [t])
  = Some (recs ++ [set_iteration cp t]).
Proof.
  revert prev recs. induction ts as [|s ts IH]; intros prev recs Hrecs Hgen.
  - cbn in Hrecs. apply Some_inj in Hrecs. subst recs.
    cbn [app segment_records]. cbn [last_from fold_left] in Hgen.
    unfold last_from in Hgen. cbn in Hgen. now rewrite Hgen.
  - cbn [app segment_records] in *.
    destruct (generate_checkpoint_proof fuel (iterate_square prev x0)
                (iterate_square s x0) (s - prev) D) as [cps|];
      [|discriminate].
    destruct (segment_records fuel D x0 s ts) as [rest|] eqn:Hrest;
      [|discriminate].
    apply Some_inj in Hrecs. subst recs.
    change (last_from prev (s :: ts)) with (last_from s ts) in Hgen.
    now rewrite (IH s rest Hrest Hgen).
Qed.

Lemma context_eta (c : cpu_vdf_context) :
  set_checkpoint_proofs (set_current_iteration c (current_iteration c))
    (checkpoint_proofs c ++ []) = c.
Proof. destruct c. cbn. now rewrite app_nil_r. Qed.

Section RunInv.
Context `{VdfLib}.
Variable fuel : nat.
Variable c1 : cpu_vdf_context.
Hypothesis T_range : target_iterations c1 + 1000 <= 2 ^ 64.

Lemma run_inv_target (n : Z) (w : worker_state) :
  run_inv fuel c1 n w -> target_iterations (wctx w) = target_iterations c1.
Proof. intros (_ & _ & _ & recs & _ & ->). reflexivity. Qed.

Lemma run_inv_tick (n : Z) (w : worker_state) :
  run_inv fuel c1 n w -> run_inv fuel c1 n (tick w).
Proof. exact (fun Hw => Hw). Qed.

Lemma run_inv_step (completed_iterations i : Z) (w w' : worker_state) :
  run_inv fuel c1 (completed_iterations + i) w ->
  0 <= completed_iterations + i < target_iterations c1 ->
  iteration_body fuel completed_iterations i w = Some w' ->
  run_inv fuel c1 (completed_iterations + i + 1) w'.
Proof.
  set (n := completed_iterations + i).
  intros (Hn & Hcur & Hlast & recs & Hrecs & Hctx) Hrange Hbody.
  unfold iteration_body in Hbody. rewrite Hctx in Hbody.
  cbn [store_checkpoints checkpoint_interval generate_streaming_proofs
       target_iterations discriminant set_current_iteration
       set_checkpoint_proofs push_checkpoint checkpoint_proofs] in Hbody.
  fold n in Hbody. rewrite (u64_small (n + 1)) in Hbody by lia.
  set (t := n + 1) in *.
  assert (Hnat : Z.to_nat t = S (Z.to_nat n)) by lia.
  assert (Ht0 : (t =? 0) = false) by (apply Z.eqb_neq; lia).
  assert (HofS : Z.of_nat (S (Z.to_nat n)) = t) by lia.
  unfold records_after in Hrecs.
  change (store_checkpoints c1 && (0 <? checkpoint_interval c1))
    with (stores c1) in Hbody.
  set (k := checkpoint_interval c1) in *.
  set (T := target_iterations c1) in *.
  set (x0 := initial_form c1) in *.
  assert (Hcur' : square (current w) = iterate_square t x0).
  { subst t. rewrite iterate_square_succ by lia. now rewrite Hcur. }
  assert (Hexp : expected_iterations k T (Z.to_nat t)
                 = expected_iterations k T (Z.to_nat n)
                   ++ (if (t mod k =? 0) || (t =? T) then [t] else [])).
  { rewrite Hnat, expected_iterations_succ, HofS. reflexivity. }
  rewrite Hcur' in Hbody.
  unfold run_inv. fold n t k T x0. rewrite Ht0.
  unfold records_after. fold k T x0. rewrite Hexp.
  destruct (stores c1) eqn:Hstores.
  - destruct ((t mod k =? 0) || (t =? T)) eqn:Hcond.
    + destruct (generate_streaming_proofs c1) eqn:Hstream.
      * destruct (Hlast eq_refl eq_refl) as [Hli Hlf].
        rewrite Hlf, Hli in Hbody.
        pose proof (expected_iterations_last k T (Z.to_nat n)) as Hb.
        rewrite u64_small in Hbody by lia.
        destruct (generate_checkpoint_proof _ _ _ _ _) as [cp|] eqn:Hgen;
          [|discriminate].
        apply Some_inj in Hbody. subst w'.
        cbn [current last_checkpoint last_checkpoint_iter wctx].
        split; [lia|]. split; [reflexivity|]. split.
        -- intros _ _. rewrite last_from_snoc. split; reflexivity.
        -- exists (recs ++ [set_iteration cp t]). split.
           ++ now apply segment_records_snoc.
           ++ cbn. now rewrite app_assoc.
      * apply Some_inj in Hbody. subst w'. apply Some_inj in Hrecs.
        cbn [current last_checkpoint last_checkpoint_iter wctx].
        split; [lia|]. split; [reflexivity|].
        split; [intros _ Hs; discriminate|].
        exists (recs ++ [plain_record x0 t]). split.
        -- rewrite map_app, Hrecs. reflexivity.
        -- cbn. now rewrite app_assoc.
    + apply Some_inj in Hbody. subst w'.
      cbn [current last_checkpoint last_checkpoint_iter wctx].
      rewrite app_nil_r.
      split; [lia|]. split; [reflexivity|]. split; [exact Hlast|].
      exists recs. split; [exact Hrecs | reflexivity].
  - apply Some_inj in Hbody. subst w'.
    cbn [current last_checkpoint last_checkpoint_iter wctx].
    split; [lia|]. split; [reflexivity|].
    split; [intros Hs; discriminate|].
    exists recs. split; [exact Hrecs | reflexivity].
Qed.

End RunInv.

Lemma loop_entry_fields (now : Z) (c0 : cpu_vdf_context) :
  let c1 := loop_entry now c0 in
  config c1 = config c0
  /\ state c1 = CPU_VDF_STATE_COMPUTING
  /\ current_iteration c1 = current_iteration c0
  /\ target_iterations c1 = target_iterations c0
  /\ discriminant c1 = discriminant c0
  /\ initial_form c1 = initial_form c0
  /\ current_form c1 = current_form c0
  /\ final_form c1 = final_form c0
  /\ should_stop c1 = should_stop c0
  /\ store_checkpoints c1 = store_checkpoints c0
  /\ generate_streaming_proofs c1 = generate_streaming_proofs c0.
Proof.
  unfold loop_entry, worker_init. cbn.
  destruct (store_checkpoints c0 && (0 <? target_iterations c0)); cbn;
    [destruct (generate_streaming_proofs c0) eqn:Hstream; cbn|];
    repeat split; assumption.
Qed.

Lemma run_inv_entry `{VdfLib} (fuel : nat) (c1 : cpu_vdf_context) :
  run_inv fuel c1 0 (mk_worker c1 (initial_form c1) (initial_form c1) 0 O).
Proof.
  split; [lia|]. split; [reflexivity|]. split.
  - intros _ _. split; reflexivity.
  - exists []. split.
    + unfold records_after. cbn.
      destruct (stores c1); [destruct (generate_streaming_proofs c1)|];
        reflexivity.
    + cbn [wctx Z.eqb]. symmetry. apply context_eta.
Qed.

(** The two ways the thread function ends, with the number [n] of
    iterations done and the records [recs] added. *)
Lemma thread_outcome `{VdfLib} (fuel : nat) (stop_at : option nat)
  (now : Z) (c0 c' : cpu_vdf_context) :
  0 <= target_iterations c0 ->
  target_iterations c0 + 1000 <= 2 ^ 64 ->
  vdf_computation_thread fuel stop_at now c0 = Some c' ->
  let c1 := loop_entry now c0 in
  let y := iterate_square (target_iterations c0) (initial_form c0) in
  exists n recs,
    0 <= n <= target_iterations c0
    /\ records_after fuel c1 n = Some recs
    /\ let ctx :=
         set_checkpoint_proofs
           (set_current_iteration c1
              (if n =? 0 then current_iteration c0 else n))
           (checkpoint_proofs c1 ++ recs) in
       (stop_at <> None /\ c' = set_state ctx CPU_VDF_STATE_STOPPED)
       \/ (n = target_iterations c0
           /\ c' = set_state (set_current_form (set_final_form ctx y) y)
                     CPU_VDF_STATE_COMPLETED).
Proof.
  intros HT0 HT Hrun c1 y.
  destruct (loop_entry_fields now c0)
    as (_ & _ & Hci & Htgt & _ & Hinit & _).
  fold c1 in Hci, Htgt, Hinit.
  unfold vdf_computation_thread in Hrun.
  change (worker_init _) with c1 in Hrun.
  destruct (main_loop fuel stop_at fuel 0 _) as [[z w]|] eqn:Hloop;
    [|discriminate].
  apply (main_loop_rule fuel stop_at (target_iterations c1)
           (run_inv fuel c1)) with (m := 0) in Hloop.
  - destruct Hloop as (n & Hn & (_ & Hcur & _ & recs & Hrecs & Hctx) & Hex).
    cbn [snd] in *. exists n, recs. rewrite Htgt in Hn.
    split; [exact Hn|]. split; [exact Hrecs|]. cbv zeta.
    rewrite <- Hci, <- Hctx.
    destruct (should_stop_load stop_at (polls w)) eqn:Hload.
    + left. split; [|now apply Some_inj in Hrun].
      destruct stop_at; [discriminate | discriminate].
    + right.
      assert (HnT : n = target_iterations c1).
      { apply Hex. intros Hs.
        assert (Hs1 : stop_seen stop_at (S (polls w)))
          by (eapply stop_seen_mono; [|exact Hs]; lia).
        apply should_stop_load_seen in Hs1. congruence. }
      rewrite Htgt in HnT. split; [exact HnT|].
      apply Some_inj in Hrun. subst c' y.
      rewrite Hcur, HnT, Hinit. reflexivity.
  - rewrite Htgt. lia.
  - apply run_inv_target.
  - apply run_inv_tick.
  - intros ci i w0 w1 Hinv Hr Hbody.
    eapply run_inv_step; [rewrite Htgt; exact HT | exact Hinv | exact Hr
                         | exact Hbody].
  - lia.
  - rewrite Htgt. lia.
  - apply run_inv_entry.
  - intros _. reflexivity.
Qed.

(** X1. A run that ends in the state COMPLETED has squared the initial form
    exactly [target_iterations] times: that iterate is published as the
    final and the current form, the iteration count stands at the target,
    and the parameters of the run are untouched. Whether and where
    checkpoints are stored makes no difference. *)
Theorem completed_run_squares_to_target `{VdfLib} (fuel : nat)
  (stop_at : option nat) (now : Z) (c0 c' : cpu_vdf_context) :
  0 <= target_iterations c0 ->
  target_iterations c0 + 1000 <= 2 ^ 64 ->
  vdf_computation_thread fuel stop_at now c0 = Some c' ->
  state c' = CPU_VDF_STATE_COMPLETED ->
  final_form c'
  = Nat.iter (Z.to_nat (target_iterations c0)) square (initial_form c0)
  /\ current_form c' = final_form c'
  /\ (0 < target_iterations c0 ->
      current_iteration c' = target_iterations c0)
  /\ target_iterations c' = target_iterations c0
  /\ discriminant c' = discriminant c0
  /\ initial_form c' = initial_form c0
  /\ config c' = config c0.
Proof.
  intros HT0 HT Hrun Hstate.
  destruct (thread_outcome fuel stop_at now c0 c' HT0 HT Hrun)
    as (n & recs & Hn & _ & [[_ Hc]|[HnT Hc]]);
    [rewrite Hc in Hstate; discriminate|].
  destruct (loop_entry_fields now c0)
    as (Hcfg & _ & _ & Htgt & Hd & Hinit & _).
  subst c'. cbn. repeat split; try assumption.
  intros Hpos. subst n.
  destruct (Z.eqb_spec (target_iterations c0) 0); [lia | reflexivity].
Qed.

Lemma completed_run_squares_to_target_witness :
  state run_from_bytes = CPU_VDF_STATE_COMPLETED
  /\ final_form run_from_bytes
     = Nat.iter 4 (square (VdfLib := Reference.lib))
         (initial_form started_from_bytes).
Proof.
  assert (Hstate : state run_from_bytes = CPU_VDF_STATE_COMPLETED)
    by (vm_compute; reflexivity).
  split; [exact Hstate|].
  apply (completed_run_squares_to_target (H := Reference.lib) 400 None 0
           started_from_bytes run_from_bytes);
    [vm_compute; discriminate | vm_compute; discriminate | | exact Hstate].
  apply context_of_returned. vm_compute. reflexivity.
Defined.

(** X2. A run that ends in the state STOPPED was asked to stop, and it
    publishes nothing: the final and the current form of the context are
    the ones from before the run, [cpu_vdf_is_complete] answers false, and
    both [cpu_vdf_get_result_form] and [cpu_vdf_generate_proof] refuse with
    CPU_VDF_ERROR_COMPUTATION_FAILED, leaving their output untouched. *)
Theorem stopped_run_publishes_nothing `{VdfLib} (fuel proof_fuel : nat)
  (stop_at : option nat) (now : Z) (c0 c' : cpu_vdf_context)
  (recursion_level : byte) (p : cpu_vdf_proof_t) (f : cpu_vdf_form_t) :
  0 <= target_iterations c0 ->
  target_iterations c0 + 1000 <= 2 ^ 64 ->
  vdf_computation_thread fuel stop_at now c0 = Some c' ->
  state c' = CPU_VDF_STATE_STOPPED ->
  stop_at <> None
  /\ final_form c' = final_form c0
  /\ current_form c' = current_form c0
  /\ cpu_vdf_is_complete (Some c') = false
  /\ cpu_vdf_get_result_form (Some c') (Some f)
     = Some (CPU_VDF_ERROR_COMPUTATION_FAILED, Some f)
  /\ cpu_vdf_generate_proof proof_fuel (Some c') recursion_level (Some p)
     = Some (CPU_VDF_ERROR_COMPUTATION_FAILED, Some p).
Proof.
  intros HT0 HT Hrun Hstate.
  destruct (thread_outcome fuel stop_at now c0 c' HT0 HT Hrun)
    as (n & recs & Hn & _ & [[Hstop Hc]|[HnT Hc]]);
    [|rewrite Hc in Hstate; discriminate].
  destruct (loop_entry_fields now c0)
    as (_ & _ & _ & _ & _ & _ & Hcf & Hff & _).
  split; [exact Hstop|].
  unfold cpu_vdf_is_complete, cpu_vdf_get_result_form,
    cpu_vdf_generate_proof.
  rewrite Hstate. subst c'. cbn. repeat split; assumption.
Qed.

Lemma stopped_run_publishes_nothing_witness :
  state stopped_from_bytes = CPU_VDF_STATE_STOPPED
  /\ final_form stopped_from_bytes = final_form started_from_bytes
  /\ cpu_vdf_generate_proof (H := Reference.lib) 0 (Some stopped_from_bytes)
       (byte.of_Z 0) (Some empty_proof)
     = Some (CPU_VDF_ERROR_COMPUTATION_FAILED, Some empty_proof).
Proof.
  assert (Hstate : state stopped_from_bytes = CPU_VDF_STATE_STOPPED)
    by (vm_compute; reflexivity).
  split; [exact Hstate|].
  destruct (stopped_run_publishes_nothing (H := Reference.lib) 400 0
              (Some 3%nat) 0 started_from_bytes stopped_from_bytes
              (byte.of_Z 0) empty_proof (mk_form_t [] [] [] 0))
    as (_ & Hf & _ & _ & _ & Hp);
    [vm_compute; discriminate | vm_compute; discriminate | | exact Hstate |].
  - apply context_of_returned. vm_compute. reflexivity.
  - split; [exact Hf | exact Hp].
Defined.

(** * Runs that are not stopped *)

Section Total.
Context `{VdfLib}.
Variable fuel : nat.
Variable c1 : cpu_vdf_context.
Hypothesis T_range : target_iterations c1 + 1000 <= 2 ^ 64.
Hypothesis no_records : store_checkpoints c1 = false.




End Total.



(** * A stop request after the last iteration *)

Lemma batch_loop_polls `{VdfLib} (fuel : nat) (n : nat)
  (completed_iterations i : Z) (w w' : worker_state) :
  batch_loop fuel None n completed_iterations i w = Some w' ->
  polls w' = (polls w + n)%nat.
Proof.
  revert i w. induction n as [|n IH]; intros i w Hloop.
  - cbn in Hloop. apply Some_inj in Hloop. subst w'. lia.
  - cbn [batch_loop should_stop_load] in Hloop.
    destruct (iteration_body fuel completed_iterations i (tick w))
      as [w1|] eqn:Hbody; [|discriminate].
    apply iteration_body_polls in Hbody. apply IH in Hloop.
    rewrite Hloop, Hbody. cbn [tick polls]. lia.
Qed.

Lemma batch_loop_agree `{VdfLib} (fuel : nat) (k n : nat)
  (completed_iterations i : Z) (w w' : worker_state) :
  batch_loop fuel None n completed_iterations i w = Some w' ->
  (polls w' <= k)%nat ->
  batch_loop fuel (Some k) n completed_iterations i w = Some w'.
Proof.
  revert i w. induction n as [|n IH]; intros i w Hloop Hk;
    [exact Hloop|].
  pose proof (batch_loop_polls fuel _ _ _ _ _ Hloop) as Hp.
  cbn [batch_loop should_stop_load] in *.
  destruct (Nat.leb_spec k (polls w)); [lia|].
  destruct (iteration_body fuel completed_iterations i (tick w))
    as [w1|]; [|discriminate].
  now apply IH.
Qed.

Lemma main_loop_polls `{VdfLib} (fuel : nat) (rounds : nat)
  (completed_iterations : Z) (w : worker_state) (r : Z * worker_state) :
  main_loop fuel None rounds completed_iterations w = Some r ->
  (polls w <= polls (snd r))%nat.
Proof.
  revert completed_iterations w.
  induction rounds as [|rounds IH]; intros completed_iterations w Hloop;
    [discriminate|].
  cbn [main_loop should_stop_load] in Hloop.
  destruct (completed_iterations <? target_iterations (wctx w)).
  - destruct (batch_loop _ _ _ _ _ _) as [w1|] eqn:Hbatch; [|discriminate].
    apply batch_loop_polls in Hbatch. apply IH in Hloop.
    cbn [tick polls] in Hbatch. lia.
  - apply Some_inj in Hloop. subst r. cbn. lia.
Qed.

Lemma main_loop_agree `{VdfLib} (fuel : nat) (k rounds : nat)
  (completed_iterations : Z) (w : worker_state) (r : Z * worker_state) :
  main_loop fuel None rounds completed_iterations w = Some r ->
  (polls (snd r) <= k)%nat ->
  main_loop fuel (Some k) rounds completed_iterations w = Some r.
Proof.
  revert completed_iterations w.
  induction rounds as [|rounds IH]; intros completed_iterations w Hloop Hk;
    [discriminate|].
  cbn [main_loop should_stop_load] in *.
  destruct (completed_iterations <? target_iterations (wctx w));
    [|exact Hloop].
  destruct (batch_loop fuel None _ _ _ _) as [w1|] eqn:Hbatch;
    [|discriminate].
  pose proof (batch_loop_polls fuel _ _ _ _ _ Hbatch) as Hp1.
  pose proof (main_loop_polls fuel _ _ _ _ Hloop) as Hp2.
  cbn [tick polls] in Hp1.
  destruct (Nat.leb_spec k (polls w)); [lia|].
  rewrite (batch_loop_agree fuel k _ _ _ _ _ Hbatch) by lia.
  now apply IH.
Qed.

(** X4. The last load of [should_stop] comes after the loops: a stop
    requested between the last squaring and that load ends the run in the
    state STOPPED although every iteration is done. For every run that
    completes there is a moment of the stop request for which the run does
    the same iterations and stores the same records, yet ends STOPPED and
    does not publish the final form. *)
Theorem stop_after_last_iteration `{VdfLib} (fuel : nat) (now : Z)
  (c0 c' : cpu_vdf_context) :
  0 <= target_iterations c0 ->
  target_iterations c0 + 1000 <= 2 ^ 64 ->
  vdf_computation_thread fuel None now c0 = Some c' ->
  exists k c'',
    vdf_computation_thread fuel (Some k) now c0 = Some c''
    /\ state c'' = CPU_VDF_STATE_STOPPED
    /\ current_iteration c'' = current_iteration c'
    /\ checkpoint_proofs c'' = checkpoint_proofs c'
    /\ final_form c'' = final_form c0.
Proof.
  intros HT0 HT Hrun.
  pose proof Hrun as Hrun0.
  unfold vdf_computation_thread in Hrun.
  destruct (main_loop fuel None fuel 0 _) as [[z w]|] eqn:Hloop;
    [|discriminate].
  cbn [should_stop_load] in Hrun. apply Some_inj in Hrun.
  exists (polls w), (set_state (wctx w) CPU_VDF_STATE_STOPPED).
  assert (Hrun' : vdf_computation_thread fuel (Some (polls w)) now c0
                  = Some (set_state (wctx w) CPU_VDF_STATE_STOPPED)).
  { unfold vdf_computation_thread.
    rewrite (main_loop_agree fuel (polls w) _ _ _ _ Hloop) by (cbn; lia).
    cbn [should_stop_load]. now rewrite Nat.leb_refl. }
  split; [exact Hrun'|]. subst c'. cbn.
  repeat split.
  destruct (thread_outcome fuel (Some (polls w)) now c0 _ HT0 HT Hrun')
    as (n & recs & _ & _ & [[_ Hc]|[_ Hc]]).
  - apply (f_equal final_form) in Hc. cbn in Hc. rewrite Hc.
    now destruct (loop_entry_fields now c0)
      as (_ & _ & _ & _ & _ & _ & _ & Hff & _).
  - apply (f_equal state) in Hc. discriminate.
Qed.

Lemma stop_after_last_iteration_witness :
  state run_from_bytes = CPU_VDF_STATE_COMPLETED
  /\ exists k c'',
       vdf_computation_thread (H := Reference.lib) 400 (Some k) 0
         started_from_bytes = Some c''
       /\ state c'' = CPU_VDF_STATE_STOPPED
       /\ current_iteration c'' = current_iteration run_from_bytes
       /\ checkpoint_proofs c'' = checkpoint_proofs run_from_bytes
       /\ final_form c'' = final_form started_from_bytes.
Proof.
  split; [vm_compute; reflexivity|].
  apply (stop_after_last_iteration (H := Reference.lib) 400 0
           started_from_bytes run_from_bytes);
    [vm_compute; discriminate | vm_compute; discriminate |].
  apply context_of_returned. vm_compute. reflexivity.
Defined.

(** * The records of a run *)

Lemma records_after_zero `{VdfLib} (fuel : nat) (c1 : cpu_vdf_context) :
  records_after fuel c1 0 = Some [].
Proof.
  unfold records_after. cbn.
  destruct (stores c1); [destruct (generate_streaming_proofs c1)|];
    reflexivity.
Qed.

Lemma loop_entry_store (now : Z) (c0 : cpu_vdf_context) :
  store_checkpoints c0 = true ->
  0 < target_iterations c0 ->
  let c1 := loop_entry now c0 in
  stores c1 = true
  /\ checkpoint_interval c1
     = (if 0 <? segment_size (config c0) then segment_size (config c0)
        else 65536)
  /\ checkpoint_proofs c1
     = checkpoint_proofs c0
       ++ (if generate_streaming_proofs c0
           then [initial_checkpoint (initial_form c0)] else []).
Proof.
  intros Hstore Hpos. unfold loop_entry, worker_init, stores. cbn.
  rewrite Hstore. destruct (Z.ltb_spec 0 (target_iterations c0)); [|lia].
  cbn.
  assert (Hint : (0 <? (if 0 <? segment_size (config c0)
                        then segment_size (config c0) else 65536)) = true).
  { apply Z.ltb_lt. destruct (Z.ltb_spec 0 (segment_size (config c0))); lia. }
  destruct (generate_streaming_proofs c0); cbn; rewrite Hstore, Hint;
    repeat split. now rewrite app_nil_r.
Qed.

Lemma loop_entry_no_store (now : Z) (c0 : cpu_vdf_context) :
  store_checkpoints c0 && (0 <? target_iterations c0) = false ->
  loop_entry now c0
  = set_start_time (set_state c0 CPU_VDF_STATE_COMPUTING) now.
Proof.
  intros Hno. unfold loop_entry, worker_init. cbn. now rewrite Hno.
Qed.

Lemma generate_checkpoint_proof_fields `{VdfLib} (fuel : nat)
  (start_form end_form : form) (iterations D : Z) (cp : CheckpointProof) :
  generate_checkpoint_proof fuel start_form end_form iterations D = Some cp ->
  iteration cp = iterations
  /\ checkpoint_form cp = end_form
  /\ serialized_proof cp <> [].
Proof.
  unfold generate_checkpoint_proof.
  destruct (challenge_prime_of _ _ _ _ _); [|discriminate].
  intros Hcp. apply Some_inj in Hcp. subst cp. cbn.
  repeat split. discriminate.
Qed.

Lemma set_iteration_back (cp : CheckpointProof) (t : Z) :
  set_iteration (set_iteration cp t) (iteration cp) = cp.
Proof. now destruct cp. Qed.

Lemma segment_records_facts `{VdfLib} (fuel : nat) (D : Z) (x0 : form)
  (prev : Z) (ts : list Z) (recs : list CheckpointProof) :
  segment_records fuel D x0 prev ts = Some recs ->
  map iteration recs = ts
  /\ Forall (fun cp =>
               checkpoint_form cp = iterate_square (iteration cp) x0
               /\ serialized_proof cp <> []) recs
  /\ forall first,
       iteration first = prev ->
       checkpoint_form first = iterate_square prev x0 ->
       proof_chain fuel D first recs.
Proof.
  revert prev recs. induction ts as [|t ts IH]; intros prev recs Hrecs.
  - cbn in Hrecs. apply Some_inj in Hrecs. subst recs.
    split; [reflexivity|]. split; [constructor|]. intros; exact I.
  - cbn [segment_records] in Hrecs.
    destruct (generate_checkpoint_proof _ _ _ _ _) as [cp|] eqn:Hgen;
      [|discriminate].
    destruct (segment_records fuel D x0 t ts) as [cps|] eqn:Hrest;
      [|discriminate].
    apply Some_inj in Hrecs. subst recs.
    destruct (IH t cps Hrest) as (Hmap & Hall & Hchain).
    destruct (generate_checkpoint_proof_fields _ _ _ _ _ _ Hgen)
      as (Hit & Hform & Hblob).
    split; [cbn; now rewrite Hmap|]. split.
    + constructor; [|exact Hall]. cbn. now split.
    + intros first Hfi Hff. cbn [proof_chain]. split.
      * cbn [set_iteration iteration checkpoint_form].
        rewrite Hfi, Hff, Hform.
        rewrite <- Hit at 2. rewrite set_iteration_back. exact Hgen.
      * apply Hchain; [reflexivity|]. cbn. exact Hform.
Qed.

Lemma thread_records `{VdfLib} (fuel : nat) (stop_at : option nat)
  (now : Z) (c0 c' : cpu_vdf_context) :
  0 <= target_iterations c0 ->
  target_iterations c0 + 1000 <= 2 ^ 64 ->
  vdf_computation_thread fuel stop_at now c0 = Some c' ->
  exists n recs,
    0 <= n <= target_iterations c0
    /\ (state c' = CPU_VDF_STATE_COMPLETED -> n = target_iterations c0)
    /\ records_after fuel (loop_entry now c0) n = Some recs
    /\ checkpoint_proofs c' = checkpoint_proofs (loop_entry now c0) ++ recs.
Proof.
  intros HT0 HT Hrun.
  destruct (thread_outcome fuel stop_at now c0 c' HT0 HT Hrun)
    as (n & recs & Hn & Hrecs & [[_ Hc]|[HnT Hc]]);
    exists n, recs; subst c'; cbn; repeat split; try assumption; try lia.
  discriminate.
Qed.

Lemma records_after_iterations `{VdfLib} (fuel : nat)
  (c1 : cpu_vdf_context) (n : Z) (recs : list CheckpointProof) :
  stores c1 = true ->
  records_after fuel c1 n = Some recs ->
  map iteration recs
  = expected_iterations (checkpoint_interval c1) (target_iterations c1)
      (Z.to_nat n).
Proof.
  unfold records_after. intros -> Hrecs.
  destruct (generate_streaming_proofs c1).
  - now apply segment_records_facts in Hrecs.
  - apply Some_inj in Hrecs. subst recs. rewrite map_map. cbn.
    apply map_id.
Qed.

Lemma records_after_forms `{VdfLib} (fuel : nat) (c1 : cpu_vdf_context)
  (n : Z) (recs : list CheckpointProof) :
  0 <= n ->
  records_after fuel c1 n = Some recs ->
  Forall (fun cp =>
            1 <= iteration cp <= n
            /\ checkpoint_form cp
               = iterate_square (iteration cp) (initial_form c1)
            /\ (serialized_proof cp = []
                <-> generate_streaming_proofs c1 = false)) recs.
Proof.
  intros Hn Hrecs.
  destruct (stores c1) eqn:Hstores.
  - pose proof (records_after_iterations fuel c1 n recs Hstores Hrecs)
      as Hits.
    pose proof (expected_iterations_bounds (checkpoint_interval c1)
                  (target_iterations c1) (Z.to_nat n)) as Hb.
    rewrite <- Hits, Forall_map in Hb.
    unfold records_after in Hrecs. rewrite Hstores in Hrecs.
    destruct (generate_streaming_proofs c1).
    + apply segment_records_facts in Hrecs.
      destruct Hrecs as (_ & Hall & _).
      rewrite Forall_forall in *. intros cp Hin.
      specialize (Hb cp Hin). destruct (Hall cp Hin) as [Hf Hs].
      split; [lia|]. split; [exact Hf|]. split; [tauto | discriminate].
    + apply Some_inj in Hrecs. subst recs.
      rewrite Forall_forall in *. intros cp Hin.
      specialize (Hb cp Hin).
      apply in_map_iff in Hin. destruct Hin as (t & <- & _).
      cbn in *. split; [lia|]. split; [reflexivity|]. tauto.
  - unfold records_after in Hrecs. rewrite Hstores in Hrecs.
    apply Some_inj in Hrecs. subst recs. constructor.
Qed.

Lemma expected_iterations_In (k T : Z) (n : nat) (t : Z) :
  In t (expected_iterations k T n)
  <-> 1 <= t <= Z.of_nat n /\ (t mod k = 0 \/ t = T).
Proof.
  unfold expected_iterations. rewrite filter_In, in_map_iff, orb_true_iff.
  rewrite !Z.eqb_eq. split.
  - intros [(j & <- & Hj) Hc]. apply in_seq in Hj. split; [lia | exact Hc].
  - intros [Hr Hc]. split; [|exact Hc].
    exists (Z.to_nat t). split; [lia|]. apply in_seq. lia.
Qed.

Lemma div_succ (k n : Z) :
  0 < k -> 0 <= n ->
  (n + 1) / k = n / k + (if (n + 1) mod k =? 0 then 1 else 0).
Proof.
  intros Hk Hn.
  pose proof (Z.div_mod n k ltac:(lia)) as Hdm.
  pose proof (Z.mod_pos_bound n k Hk) as Hr.
  destruct (Z.eq_dec (n mod k + 1) k) as [E|E].
  - assert (Hm : (n + 1) mod k = 0).
    { symmetry. apply (Z.mod_unique _ _ (n / k + 1)); [lia | nia]. }
    rewrite Hm. cbn.
    symmetry. apply (Z.div_unique _ _ _ 0); [lia | nia].
  - assert (Hm : (n + 1) mod k = n mod k + 1).
    { symmetry. apply (Z.mod_unique _ _ (n / k)); [lia | nia]. }
    rewrite Hm. destruct (Z.eqb_spec (n mod k + 1) 0); [lia|].
    rewrite Z.add_0_r.
    symmetry. apply (Z.div_unique _ _ _ (n mod k + 1)); [lia | nia].
Qed.

Lemma expected_iterations_length (k T : Z) (n : nat) :
  0 < k -> Z.of_nat n <= T ->
  Z.of_nat (length (expected_iterations k T n))
  = Z.of_nat n / k
    + (if (Z.of_nat n =? T) && negb (T mod k =? 0) then 1 else 0).
Proof.
  intros Hk. induction n as [|n IH]; intros HnT.
  - cbn [expected_iterations seq map filter length].
    change (Z.of_nat 0) with 0. rewrite Z.div_0_l by lia.
    destruct (Z.eqb_spec 0 T) as [<-|]; [|reflexivity].
    rewrite Z.mod_0_l by lia. reflexivity.
  - rewrite expected_iterations_succ, length_app, Nat2Z.inj_add, IH by lia.
    destruct (Z.eqb_spec (Z.of_nat n) T); [lia|]. cbn [andb].
    replace (Z.of_nat (S n)) with (Z.of_nat n + 1) by lia.
    rewrite (div_succ k (Z.of_nat n)) by lia.
    destruct (Z.eqb_spec ((Z.of_nat n + 1) mod k) 0) as [Hm|Hm].
    + cbn [orb length]. 
      destruct (Z.eqb_spec (Z.of_nat n + 1) T) as [<-|].
      * rewrite Hm. cbn. lia.
      * cbn. lia.
    + cbn [orb].
      destruct (Z.eqb_spec (Z.of_nat n + 1) T) as [<-|].
      * destruct (Z.eqb_spec ((Z.of_nat n + 1) mod k) 0); [lia|]. cbn. lia.
      * cbn. lia.
Qed.

(** X5. Every record a run stores is a true intermediate value: its
    iteration lies between 0 and the target, and its checkpoint form is the
    initial form squared that many times. This holds however the run ends
    and whether or not streaming proofs are generated. *)
Theorem checkpoint_forms_are_iterates `{VdfLib} (fuel : nat)
  (stop_at : option nat) (now : Z) (c0 c' : cpu_vdf_context) :
  checkpoint_proofs c0 = [] ->
  0 <= target_iterations c0 ->
  target_iterations c0 + 1000 <= 2 ^ 64 ->
  vdf_computation_thread fuel stop_at now c0 = Some c' ->
  Forall (fun cp =>
            0 <= iteration cp <= target_iterations c0
            /\ checkpoint_form cp
               = Nat.iter (Z.to_nat (iteration cp)) square (initial_form c0))
    (checkpoint_proofs c').
Proof.
  intros Hnil HT0 HT Hrun.
  destruct (thread_records fuel stop_at now c0 c' HT0 HT Hrun)
    as (n & recs & Hn & _ & Hrecs & Hcps).
  destruct (loop_entry_fields now c0) as (_ & _ & _ & _ & _ & Hinit & _).
  rewrite Hcps. apply Forall_app. split.
  - destruct (store_checkpoints c0 && (0 <? target_iterations c0)) eqn:Hs.
    + apply andb_true_iff in Hs. destruct Hs as [Hstore Hpos].
      apply Z.ltb_lt in Hpos.
      destruct (loop_entry_store now c0 Hstore Hpos) as (_ & _ & ->).
      rewrite Hnil. destruct (generate_streaming_proofs c0);
        constructor; [|constructor].
      cbn. split; [lia | reflexivity].
    + rewrite (loop_entry_no_store now c0 Hs). cbn. rewrite Hnil.
      constructor.
  - apply records_after_forms in Hrecs; [|lia].
    eapply Forall_impl; [|exact Hrecs]. cbn.
    intros cp (Hit & Hform & _). rewrite Hinit in Hform.
    split; [lia | exact Hform].
Qed.

Lemma checkpoint_forms_are_iterates_witness :
  Forall (fun cp =>
            0 <= iteration cp <= 4
            /\ checkpoint_form cp
               = Nat.iter (Z.to_nat (iteration cp))
                   (square (VdfLib := Reference.lib))
                   (initial_form started_from_bytes))
    (checkpoint_proofs run_from_bytes).
Proof.
  apply (checkpoint_forms_are_iterates (H := Reference.lib) 400 None 0
           started_from_bytes run_from_bytes);
    [vm_compute; reflexivity | vm_compute; discriminate
     | vm_compute; discriminate |].
  apply context_of_returned. vm_compute. reflexivity.
Defined.

(** X6. The records of a completed run with checkpoints enabled sit at
    exactly these iterations, in this order: 0 when streaming proofs are
    generated, then every multiple of the configured segment size up to the
    target, then the target itself when it is not such a multiple. *)
Theorem completed_run_checkpoint_iterations `{VdfLib} (fuel : nat)
  (stop_at : option nat) (now : Z) (c0 c' : cpu_vdf_context) :
  store_checkpoints c0 = true ->
  checkpoint_proofs c0 = [] ->
  0 < segment_size (config c0) ->
  0 < target_iterations c0 ->
  target_iterations c0 + 1000 <= 2 ^ 64 ->
  vdf_computation_thread fuel stop_at now c0 = Some c' ->
  state c' = CPU_VDF_STATE_COMPLETED ->
  iterations_of c'
  = (if generate_streaming_proofs c0 then [0] else [])
    ++ expected_iterations (segment_size (config c0)) (target_iterations c0)
         (Z.to_nat (target_iterations c0))
  /\ forall t,
       In t (iterations_of c')
       <-> (t = 0 /\ generate_streaming_proofs c0 = true)
           \/ (1 <= t <= target_iterations c0
               /\ (t mod segment_size (config c0) = 0
                   \/ t = target_iterations c0)).
Proof.
  intros Hstore Hnil Hseg Hpos HT Hrun Hstate.
  destruct (thread_records fuel stop_at now c0 c' ltac:(lia) HT Hrun)
    as (n & recs & _ & HnT & Hrecs & Hcps).
  specialize (HnT Hstate). subst n.
  destruct (loop_entry_store now c0 Hstore Hpos) as (Hstores & Hint & Hpre).
  destruct (loop_entry_fields now c0) as (_ & _ & _ & Htgt & _).
  apply (records_after_iterations fuel _ _ _ Hstores) in Hrecs.
  rewrite Hint, Htgt in Hrecs.
  destruct (Z.ltb_spec 0 (segment_size (config c0))); [|lia].
  assert (Hits : iterations_of c'
                 = (if generate_streaming_proofs c0 then [0] else [])
                   ++ expected_iterations (segment_size (config c0))
                        (target_iterations c0)
                        (Z.to_nat (target_iterations c0))).
  { unfold iterations_of. rewrite Hcps, Hpre, Hnil, map_app, Hrecs.
    now destruct (generate_streaming_proofs c0). }
  split; [exact Hits|]. intros t. rewrite Hits, in_app_iff.
  rewrite expected_iterations_In, Z2Nat.id by lia.
  destruct (generate_streaming_proofs c0); cbn; intuition (lia || congruence).
Qed.

Lemma completed_run_checkpoint_iterations_witness :
  iterations_of run_from_bytes = [2; 4].
Proof.
  refine (proj1 (completed_run_checkpoint_iterations (H := Reference.lib)
                   400 None 0 started_from_bytes run_from_bytes
                   _ _ _ _ _ _ _));
    [vm_compute; reflexivity | vm_compute; reflexivity
     | vm_compute; reflexivity | vm_compute; reflexivity
     | vm_compute; discriminate
     | apply context_of_returned; vm_compute; reflexivity
     | vm_compute; reflexivity].
Defined.

(** X7. [cpu_vdf_get_checkpoint_count] after a completed run with
    checkpoints enabled: one record for the start when streaming proofs are
    generated, one for every full segment, and one for the rest of the run
    when the target is not a multiple of the segment size. The count never
    exceeds the [target / interval + 2] records reserved at line 240. *)
Theorem completed_run_checkpoint_count `{VdfLib} (fuel : nat)
  (stop_at : option nat) (now : Z) (c0 c' : cpu_vdf_context)
  (count : nat) :
  store_checkpoints c0 = true ->
  checkpoint_proofs c0 = [] ->
  0 < segment_size (config c0) ->
  0 < target_iterations c0 ->
  target_iterations c0 + 1000 <= 2 ^ 64 ->
  vdf_computation_thread fuel stop_at now c0 = Some c' ->
  state c' = CPU_VDF_STATE_COMPLETED ->
  exists N,
    cpu_vdf_get_checkpoint_count (Some c') (Some count)
    = (CPU_VDF_SUCCESS, Some N)
    /\ Z.of_nat N
       = (if generate_streaming_proofs c0 then 1 else 0)
         + target_iterations c0 / segment_size (config c0)
         + (if target_iterations c0 mod segment_size (config c0) =? 0
            then 0 else 1)
    /\ Z.of_nat N <= target_iterations c0 / segment_size (config c0) + 2.
Proof.
  intros Hstore Hnil Hseg Hpos HT Hrun Hstate.
  destruct (thread_records fuel stop_at now c0 c' ltac:(lia) HT Hrun)
    as (n & recs & _ & HnT & Hrecs & Hcps).
  specialize (HnT Hstate). subst n.
  destruct (loop_entry_store now c0 Hstore Hpos) as (Hstores & Hint & Hpre).
  destruct (loop_entry_fields now c0) as (_ & _ & _ & Htgt & _).
  apply (records_after_iterations fuel _ _ _ Hstores) in Hrecs.
  rewrite Hint, Htgt in Hrecs.
  destruct (Z.ltb_spec 0 (segment_size (config c0))); [|lia].
  apply (f_equal (@length Z)) in Hrecs. rewrite length_map in Hrecs.
  pose proof (expected_iterations_length (segment_size (config c0))
                (target_iterations c0) (Z.to_nat (target_iterations c0))
                Hseg ltac:(lia)) as Hlen.
  rewrite <- Hrecs, Z2Nat.id, Z.eqb_refl in Hlen by lia. cbn [andb] in Hlen.
  exists (length (checkpoint_proofs c')).
  split; [reflexivity|].
  rewrite Hcps, Hpre, Hnil, !length_app, !Nat2Z.inj_add, Hlen.
  destruct (generate_streaming_proofs c0);
    destruct (target_iterations c0 mod segment_size (config c0) =? 0);
    cbn [length negb]; lia.
Qed.

Lemma completed_run_checkpoint_count_witness :
  exists N,
    cpu_vdf_get_checkpoint_count (Some run_from_bytes) (Some 0%nat)
    = (CPU_VDF_SUCCESS, Some N)
    /\ Z.of_nat N = 2.
Proof.
  destruct (completed_run_checkpoint_count (H := Reference.lib) 400 None 0
              started_from_bytes run_from_bytes 0)
    as (N & Hcount & HN & _);
    [vm_compute; reflexivity | vm_compute; reflexivity
     | vm_compute; reflexivity | vm_compute; reflexivity
     | vm_compute; discriminate
     | apply context_of_returned; vm_compute; reflexivity
     | vm_compute; reflexivity |].
  exists N. split; [exact Hcount | exact HN].
Defined.

(** X8. In a run that generates streaming proofs, the first record is the
    initial one and every later record is, field for field, the checkpoint
    proof [generate_checkpoint_proof] computes for the segment since the
    record before it: from that record's form to its own, over the
    difference of their iterations. Only the iteration field differs: it
    holds the absolute iteration. *)
Theorem streaming_records_prove_segments `{VdfLib} (fuel : nat)
  (stop_at : option nat) (now : Z) (c0 c' : cpu_vdf_context) :
  store_checkpoints c0 = true ->
  generate_streaming_proofs c0 = true ->
  checkpoint_proofs c0 = [] ->
  0 < target_iterations c0 ->
  target_iterations c0 + 1000 <= 2 ^ 64 ->
  vdf_computation_thread fuel stop_at now c0 = Some c' ->
  exists rest,
    checkpoint_proofs c' = initial_checkpoint (initial_form c0) :: rest
    /\ proof_chain fuel (discriminant c0)
         (initial_checkpoint (initial_form c0)) rest.
Proof.
  intros Hstore Hstream Hnil Hpos HT Hrun.
  destruct (thread_records fuel stop_at now c0 c' ltac:(lia) HT Hrun)
    as (n & recs & _ & _ & Hrecs & Hcps).
  destruct (loop_entry_store now c0 Hstore Hpos) as (Hstores & _ & Hpre).
  destruct (loop_entry_fields now c0)
    as (_ & _ & _ & _ & Hd & Hinit & _ & _ & _ & _ & Hs).
  unfold records_after in Hrecs.
  rewrite Hstores, Hs, Hstream, Hd, Hinit in Hrecs.
  apply segment_records_facts in Hrecs. destruct Hrecs as (_ & _ & Hchain).
  exists recs. rewrite Hcps, Hpre, Hnil, Hstream. split; [reflexivity|].
  apply Hchain; reflexivity.
Qed.

Lemma streaming_records_prove_segments_witness :
  exists rest,
    checkpoint_proofs streaming_run
    = initial_checkpoint (initial_form started_streaming) :: rest
    /\ proof_chain (H := Reference.lib) 400 (discriminant started_streaming)
         (initial_checkpoint (initial_form started_streaming)) rest.
Proof.
  apply (streaming_records_prove_segments (H := Reference.lib) 400 None 0
           started_streaming streaming_run);
    [vm_compute; reflexivity | vm_compute; reflexivity
     | vm_compute; reflexivity | vm_compute; reflexivity
     | vm_compute; discriminate
     | apply context_of_returned; vm_compute; reflexivity].
Defined.

(** X9. With a segment size of zero no checkpoint is ever stored: a run
    started by either entry point on such a configuration ends, however it
    ends, with an empty list of records, and
    [cpu_vdf_get_checkpoint_count] reports 0. *)
Theorem no_records_without_segment_size `{VdfLib} (fuel : nat)
  (stop_at : option nat) (now : Z) (c c0 c' : cpu_vdf_context)
  (bytes : list byte) (initial_form_arg : option (list byte))
  (iterations bits : Z) (count : nat) :
  segment_size (config c) = 0 ->
  0 < iterations ->
  iterations + 1000 <= 2 ^ 64 ->
  cpu_vdf_start_computation (Some c) (Some bytes) initial_form_arg
    iterations bits = (CPU_VDF_SUCCESS, Some c0)
  \/ cpu_vdf_start_computation_with_discriminant (Some c) (Some bytes)
       initial_form_arg iterations = (CPU_VDF_SUCCESS, Some c0) ->
  vdf_computation_thread fuel stop_at now c0 = Some c' ->
  checkpoint_proofs c' = []
  /\ cpu_vdf_get_checkpoint_count (Some c') (Some count)
     = (CPU_VDF_SUCCESS, Some 0%nat).
Proof.
  intros Hseg Hpos HT Hstart Hrun.
  assert (Hc0 : store_checkpoints c0 = false
                /\ checkpoint_proofs c0 = []
                /\ target_iterations c0 = iterations).
  { destruct Hstart as [Hstart|Hstart].
    - unfold cpu_vdf_start_computation in Hstart.
      destruct (iterations =? 0); [discriminate|].
      destruct (state_eqb (state c) CPU_VDF_STATE_COMPUTING);
        [discriminate|].
      apply (f_equal snd) in Hstart. cbn [snd] in Hstart.
      apply Some_inj in Hstart. subst c0.
      destruct initial_form_arg; cbn; rewrite Hseg; repeat split.
    - unfold cpu_vdf_start_computation_with_discriminant in Hstart.
      destruct ((Z.of_nat (length bytes) =? 0) || (iterations =? 0));
        [discriminate|].
      destruct (state_eqb (state c) CPU_VDF_STATE_COMPUTING);
        [discriminate|].
      destruct (0 <=? _); [discriminate|].
      match type of Hstart with context [negb ?b] => destruct b end;
        [|discriminate].
      apply (f_equal snd) in Hstart. cbn [snd negb] in Hstart.
      apply Some_inj in Hstart. subst c0. cbn. rewrite Hseg.
      repeat split. }
  destruct Hc0 as (Hstore & Hnil & Htgt).
  destruct (thread_records fuel stop_at now c0 c') as
    (n & recs & _ & _ & Hrecs & Hcps);
    [rewrite Htgt; lia | rewrite Htgt; exact HT | exact Hrun |].
  rewrite (loop_entry_no_store now c0) in Hrecs, Hcps
    by (now rewrite Hstore).
  unfold records_after, stores in Hrecs. cbn in Hrecs, Hcps.
  rewrite Hstore in Hrecs. cbn in Hrecs. apply Some_inj in Hrecs.
  subst recs. rewrite Hnil in Hcps. cbn in Hcps.
  unfold cpu_vdf_get_checkpoint_count. rewrite Hcps. split; reflexivity.
Qed.

Lemma no_records_without_segment_size_witness :
  state plain_run = CPU_VDF_STATE_COMPLETED
  /\ checkpoint_proofs plain_run = []
  /\ cpu_vdf_get_checkpoint_count (Some plain_run) (Some 7%nat)
     = (CPU_VDF_SUCCESS, Some 0%nat).
Proof.
  split; [vm_compute; reflexivity|].
  apply (no_records_without_segment_size (H := Reference.lib) 400 None 0
           (context_of (cpu_vdf_create (Some plain_config))) started_plain
           plain_run bytes_23 None 4 0 7);
    [vm_compute; reflexivity | vm_compute; reflexivity
     | vm_compute; discriminate
     | right; vm_compute; reflexivity
     | apply context_of_returned; vm_compute; reflexivity].
Defined.

(** * Reading records back *)

(** What an entry holds when the three exports fit. *)
Lemma export_checkpoint_fields (cp : CheckpointProof)
  (entry : cpu_vdf_checkpoint_proof_t) :
  export_checkpoint cp = Some entry ->
  out_iteration entry = iteration cp
  /\ a_data (out_checkpoint_form entry)
     = mpz_export (Form.a (checkpoint_form cp))
  /\ b_data (out_checkpoint_form entry)
     = mpz_export (Form.b (checkpoint_form cp))
  /\ c_data (out_checkpoint_form entry)
     = mpz_export (Form.c (checkpoint_form cp))
  /\ out_proof_data entry
     = match serialized_proof cp with
       | [] => None
       | _ :: _ => Some (serialized_proof cp)
       end
  /\ out_proof_length entry = Z.of_nat (length (serialized_proof cp))
  /\ out_has_proof entry
     = match serialized_proof cp with [] => false | _ :: _ => true end.
Proof.
  unfold export_checkpoint. destruct (_ || _); [discriminate|].
  intros Heq. injection Heq as <-. cbn. repeat split.
Qed.

(** An entry is written past its arrays exactly when a coefficient of the
    record takes more than 256 bytes. *)
Lemma export_checkpoint_overrun (cp : CheckpointProof) :
  export_checkpoint cp = None
  <-> (256 < length (mpz_export (Form.a (checkpoint_form cp)))
       \/ 256 < length (mpz_export (Form.b (checkpoint_form cp)))
       \/ 256 < length (mpz_export (Form.c (checkpoint_form cp))))%nat.
Proof.
  unfold export_checkpoint.
  destruct (Z.ltb_spec 256
              (Z.of_nat (length (mpz_export (Form.a (checkpoint_form cp))))));
    destruct (Z.ltb_spec 256
                (Z.of_nat (length (mpz_export (Form.b (checkpoint_form cp))))));
    destruct (Z.ltb_spec 256
                (Z.of_nat (length (mpz_export (Form.c (checkpoint_form cp))))));
    cbn [orb]; split; intros Hx; try reflexivity; try discriminate; lia.
Qed.

Lemma copy_checkpoints_spec (cps : list CheckpointProof)
  (start_iteration end_iteration : Z) (room : nat)
  (entries : list cpu_vdf_checkpoint_proof_t) :
  copy_checkpoints cps start_iteration end_iteration room = Some entries
  <-> Forall2 (fun cp entry => export_checkpoint cp = Some entry)
        (firstn room
           (filter (fun cp => (start_iteration <=? iteration cp)
                              && (iteration cp <=? end_iteration)) cps))
        entries.
Proof.
  revert room entries. induction cps as [|cp cps IH]; intros room entries.
  - rewrite firstn_nil. cbn [copy_checkpoints]. split.
    + intros Heq. injection Heq as <-. constructor.
    + intros Hall. inversion Hall. reflexivity.
  - cbn [copy_checkpoints filter].
    destruct ((start_iteration <=? iteration cp)
              && (iteration cp <=? end_iteration)); [|apply IH].
    destruct room as [|room].
    + cbn [firstn]. split.
      * intros Heq. injection Heq as <-. constructor.
      * intros Hall. inversion Hall. reflexivity.
    + cbn [firstn]. split.
      * intros Hcopy.
        destruct (export_checkpoint cp) as [entry|] eqn:Hentry;
          [|discriminate].
        destruct (copy_checkpoints cps start_iteration end_iteration room)
          as [rest|] eqn:Hrest; [|discriminate].
        injection Hcopy as <-. constructor; [exact Hentry|].
        now apply IH.
      * intros Hall. inversion Hall as [|cp' entry l rest Hentry Hrest];
          subst.
        rewrite Hentry. apply IH in Hrest. now rewrite Hrest.
Qed.

Lemma copy_checkpoints_overrun (cps : list CheckpointProof)
  (start_iteration end_iteration : Z) (room : nat) :
  copy_checkpoints cps start_iteration end_iteration room = None
  <-> Exists (fun cp => export_checkpoint cp = None)
        (firstn room
           (filter (fun cp => (start_iteration <=? iteration cp)
                              && (iteration cp <=? end_iteration)) cps)).
Proof.
  revert room. induction cps as [|cp cps IH]; intros room.
  - rewrite firstn_nil. cbn [copy_checkpoints]. split;
      [discriminate | intros Hex; inversion Hex].
  - cbn [copy_checkpoints filter].
    destruct ((start_iteration <=? iteration cp)
              && (iteration cp <=? end_iteration)); [|apply IH].
    destruct room as [|room].
    + cbn [firstn]. split; [discriminate | intros Hex; inversion Hex].
    + cbn [firstn]. rewrite Exists_cons, <- IH.
      destruct (export_checkpoint cp) as [entry|];
        [|split; [now left | reflexivity]].
      destruct (copy_checkpoints cps start_iteration end_iteration room);
        split; try discriminate; try reflexivity;
        [intros [Hx|Hx]; discriminate | now right].
Qed.

Lemma In_firstn_inv {A : Type} (n : nat) (l : list A) (x : A) :
  In x (firstn n l) -> In x l.
Proof.
  revert n. induction l as [|y l IH]; intros [|n]; cbn; try tauto.
  intros [Hx|Hx]; [now left | right; now apply (IH n)].
Qed.

(** Every entry returned was written for a stored record of the window. *)
Lemma returned_entry_record (c : cpu_vdf_context)
  (start_iteration end_iteration : Z)
  (proofs : list cpu_vdf_checkpoint_proof_t) (max_proofs : nat)
  (result : cpu_vdf_error_t * list cpu_vdf_checkpoint_proof_t) :
  cpu_vdf_get_checkpoint_proofs (Some c) start_iteration end_iteration
    (Some proofs) (Some max_proofs) = Some result ->
  Forall (fun entry =>
            exists cp,
              In cp (checkpoint_proofs c)
              /\ start_iteration <= iteration cp <= end_iteration
              /\ export_checkpoint cp = Some entry)
    (snd result).
Proof.
  cbn [cpu_vdf_get_checkpoint_proofs].
  destruct (copy_checkpoints (checkpoint_proofs c) start_iteration
              end_iteration max_proofs) as [entries|] eqn:Hcopy;
    [|discriminate].
  intros Heq. injection Heq as <-. cbn [snd].
  apply copy_checkpoints_spec in Hcopy.
  assert (Hwin : forall cp,
             In cp (firstn max_proofs
                      (filter (fun cp => (start_iteration <=? iteration cp)
                                         && (iteration cp <=? end_iteration))
                         (checkpoint_proofs c))) ->
             In cp (checkpoint_proofs c)
             /\ start_iteration <= iteration cp <= end_iteration).
  { intros cp Hin. apply In_firstn_inv, filter_In in Hin.
    destruct Hin as [Hin Hw]. split; [exact Hin|].
    apply andb_true_iff in Hw. destruct Hw as [Hlo Hhi].
    apply Z.leb_le in Hlo, Hhi. lia. }
  induction Hcopy as [|cp entry l rest Hentry _ IH]; [constructor|].
  constructor.
  - exists cp. destruct (Hwin cp (or_introl eq_refl)) as [Hin Hw].
    repeat split; try assumption; lia.
  - apply IH. intros cp' Hin'. apply Hwin. now right.
Qed.

(** X10. [cpu_vdf_get_checkpoint_proofs] exports the first [*num_proofs]
    stored records whose iteration lies in the window from
    [start_iteration] to [end_iteration], both ends included, in the order
    they were stored. When one of them has a coefficient of more than 256
    bytes the export writes past the array of the entry; otherwise the call
    returns CPU_VDF_SUCCESS with one entry per record: never more than the
    capacity given, and all of the window when the capacity allows. Each
    entry carries the record's iteration, the magnitudes of its
    coefficients and its blob, and [has_proof] tells whether the blob is
    non-empty. *)
Theorem get_checkpoint_proofs_window (c : cpu_vdf_context)
  (start_iteration end_iteration : Z)
  (proofs : list cpu_vdf_checkpoint_proof_t) (max_proofs : nat) :
  let in_window cp :=
    (start_iteration <=? iteration cp) && (iteration cp <=? end_iteration) in
  let window := firstn max_proofs (filter in_window (checkpoint_proofs c)) in
  let overruns cp :=
    (256 < length (mpz_export (Form.a (checkpoint_form cp)))
     \/ 256 < length (mpz_export (Form.b (checkpoint_form cp)))
     \/ 256 < length (mpz_export (Form.c (checkpoint_form cp))))%nat in
  let call :=
    cpu_vdf_get_checkpoint_proofs (Some c) start_iteration end_iteration
      (Some proofs) (Some max_proofs) in
  (call = None <-> Exists overruns window)
  /\ forall result,
       call = Some result ->
       fst result = CPU_VDF_SUCCESS
       /\ length (snd result)
          = Nat.min max_proofs
              (length (filter in_window (checkpoint_proofs c)))
       /\ Forall2
            (fun cp entry =>
               out_iteration entry = iteration cp
               /\ start_iteration <= out_iteration entry <= end_iteration
               /\ a_data (out_checkpoint_form entry)
                  = mpz_export (Form.a (checkpoint_form cp))
               /\ b_data (out_checkpoint_form entry)
                  = mpz_export (Form.b (checkpoint_form cp))
               /\ c_data (out_checkpoint_form entry)
                  = mpz_export (Form.c (checkpoint_form cp))
               /\ out_proof_data entry
                  = (if out_has_proof entry
                     then Some (serialized_proof cp) else None)
               /\ out_proof_length entry
                  = Z.of_nat (length (serialized_proof cp))
               /\ out_has_proof entry
                  = negb (Nat.eqb (length (serialized_proof cp)) 0))
            window (snd result).
Proof.
  intros in_window window overruns call. split.
  - subst call. cbn [cpu_vdf_get_checkpoint_proofs].
    destruct (copy_checkpoints (checkpoint_proofs c) start_iteration
                end_iteration max_proofs) as [entries|] eqn:Hcopy.
    + split; [discriminate|]. intros Hex. exfalso.
      assert (Hnone : copy_checkpoints (checkpoint_proofs c) start_iteration
                        end_iteration max_proofs = None).
      { apply copy_checkpoints_overrun. fold in_window. fold window.
        eapply Exists_impl; [|exact Hex]. intros cp Hcp.
        now apply export_checkpoint_overrun. }
      congruence.
    + split; [|reflexivity]. intros _.
      apply copy_checkpoints_overrun in Hcopy.
      eapply Exists_impl; [|exact Hcopy]. intros cp Hcp.
      now apply export_checkpoint_overrun.
  - intros result Hcall. subst call.
    cbn [cpu_vdf_get_checkpoint_proofs] in Hcall.
    destruct (copy_checkpoints (checkpoint_proofs c) start_iteration
                end_iteration max_proofs) as [entries|] eqn:Hcopy;
      [|discriminate].
    injection Hcall as <-. cbn [fst snd].
    apply copy_checkpoints_spec in Hcopy. fold in_window in Hcopy.
    fold window in Hcopy.
    split; [reflexivity|]. split.
    + rewrite <- (Forall2_length Hcopy). subst window.
      now rewrite length_firstn.
    + assert (Hwin : Forall (fun cp => in_window cp = true) window).
      { apply Forall_forall. intros cp Hin. subst window.
        apply In_firstn_inv, filter_In in Hin. apply Hin. }
      induction Hcopy as [|cp entry l rest Hentry _ IH]; [constructor|].
      inversion Hwin as [|cp' l' Hw Hwin']; subst.
      constructor; [|now apply IH].
      destruct (export_checkpoint_fields cp entry Hentry)
        as (Hit & Ha & Hb & Hc & Hdata & Hlen & Hhas).
      unfold in_window in Hw. apply andb_true_iff in Hw.
      destruct Hw as [Hlo Hhi]. apply Z.leb_le in Hlo, Hhi.
      rewrite Hit, Ha, Hb, Hc, Hdata, Hlen, Hhas.
      repeat split; try lia; destruct (serialized_proof cp); reflexivity.
Qed.

Lemma get_checkpoint_proofs_window_witness :
  exists result,
    cpu_vdf_get_checkpoint_proofs (Some run_from_bytes) 0 4 (Some [])
      (Some 10%nat) = Some result
    /\ fst result = CPU_VDF_SUCCESS
    /\ length (snd result) = 2%nat.
Proof.
  assert (Hcall : exists result,
             cpu_vdf_get_checkpoint_proofs (Some run_from_bytes) 0 4
               (Some []) (Some 10%nat) = Some result)
    by (eexists; vm_compute; reflexivity).
  destruct Hcall as [result Hcall]. exists result.
  split; [exact Hcall|].
  destruct (get_checkpoint_proofs_window run_from_bytes 0 4 [] 10)
    as [_ Hwindow].
  destruct (Hwindow result Hcall) as (Hcode & Hlen & _).
  split; [exact Hcode|]. rewrite Hlen. vm_compute. reflexivity.
Defined.

(** X11. Whether the records read back carry a proof is decided by one
    flag of the run: after a run that generates streaming proofs every
    entry [cpu_vdf_get_checkpoint_proofs] returns has [has_proof] set and a
    blob, the initial record included; after a run that does not, no entry
    has one. The call is one that returns, its forms fitting the arrays of
    the entries. *)
Theorem returned_proofs_follow_streaming_flag `{VdfLib} (fuel : nat)
  (stop_at : option nat) (now : Z) (c0 c' : cpu_vdf_context)
  (start_iteration end_iteration : Z)
  (proofs : list cpu_vdf_checkpoint_proof_t) (max_proofs : nat)
  (result : cpu_vdf_error_t * list cpu_vdf_checkpoint_proof_t) :
  checkpoint_proofs c0 = [] ->
  0 <= target_iterations c0 ->
  target_iterations c0 + 1000 <= 2 ^ 64 ->
  vdf_computation_thread fuel stop_at now c0 = Some c' ->
  cpu_vdf_get_checkpoint_proofs (Some c') start_iteration end_iteration
    (Some proofs) (Some max_proofs) = Some result ->
  Forall (fun r =>
            out_has_proof r = generate_streaming_proofs c0
            /\ (out_proof_data r = None
                <-> generate_streaming_proofs c0 = false))
    (snd result).
Proof.
  intros Hnil HT0 HT Hrun Hcall.
  destruct (thread_records fuel stop_at now c0 c' HT0 HT Hrun)
    as (n & recs & Hn & _ & Hrecs & Hcps).
  destruct (loop_entry_fields now c0)
    as (_ & _ & _ & _ & _ & _ & _ & _ & _ & _ & Hs).
  assert (Hall : Forall (fun cp => serialized_proof cp = []
                                   <-> generate_streaming_proofs c0 = false)
                   (checkpoint_proofs c')).
  { rewrite Hcps. apply Forall_app. split.
    - destruct (store_checkpoints c0 && (0 <? target_iterations c0)) eqn:Hst.
      + apply andb_true_iff in Hst. destruct Hst as [Hstore Hpos].
        apply Z.ltb_lt in Hpos.
        destruct (loop_entry_store now c0 Hstore Hpos) as (_ & _ & ->).
        rewrite Hnil. destruct (generate_streaming_proofs c0);
          constructor; [|constructor].
        cbn. split; discriminate.
      + rewrite (loop_entry_no_store now c0 Hst). cbn. rewrite Hnil.
        constructor.
    - apply records_after_forms in Hrecs; [|lia].
      eapply Forall_impl; [|exact Hrecs]. cbn.
      intros cp (_ & _ & Hblob). now rewrite <- Hs. }
  eapply Forall_impl;
    [|exact (returned_entry_record c' start_iteration end_iteration proofs
               max_proofs result Hcall)].
  intros r (cp & Hin & _ & Hentry).
  rewrite Forall_forall in Hall. specialize (Hall cp Hin).
  destruct (export_checkpoint_fields cp r Hentry)
    as (_ & _ & _ & _ & Hdata & _ & Hhas).
  rewrite Hdata, Hhas.
  destruct (serialized_proof cp), (generate_streaming_proofs c0);
    split; try reflexivity; try split; try congruence;
    destruct Hall as [H1 H2]; try (specialize (H1 eq_refl); discriminate);
    try (specialize (H2 eq_refl); discriminate).
Qed.

Lemma returned_proofs_follow_streaming_flag_witness :
  exists result,
    cpu_vdf_get_checkpoint_proofs (Some run_from_bytes) 0 4 (Some [])
      (Some 10%nat) = Some result
    /\ Forall (fun r =>
                 out_has_proof r = false
                 /\ (out_proof_data r = None <-> false = false))
         (snd result).
Proof.
  assert (Hcall : exists result,
             cpu_vdf_get_checkpoint_proofs (Some run_from_bytes) 0 4
               (Some []) (Some 10%nat) = Some result)
    by (eexists; vm_compute; reflexivity).
  destruct Hcall as [result Hcall]. exists result.
  split; [exact Hcall|].
  apply (returned_proofs_follow_streaming_flag (H := Reference.lib) 400 None
           0 started_from_bytes run_from_bytes 0 4 [] 10 result);
    [vm_compute; reflexivity | vm_compute; discriminate
     | vm_compute; discriminate
     | apply context_of_returned; vm_compute; reflexivity
     | exact Hcall].
Defined.

(** * Configuration *)

(** X12. Whatever number of hardware threads the platform reports,
    [cpu_vdf_config_init] writes a configuration with at least one
    computation thread, with at least one and at most as many proof
    threads, fast mode on, AVX-512 and logging off and a segment size of
    65536: one [cpu_vdf_set_thread_count] accepts on any context that is
    not computing. A report of 0, or of a multiple of 256, gives 4
    threads. *)
Theorem config_init_thread_counts (hw : Z) (config0 : cpu_vdf_config_t)
  (c : cpu_vdf_context) :
  exists cfg,
    cpu_vdf_config_init hw (Some config0) = Some cfg
    /\ 1 <= proof_threads cfg <= num_threads cfg
    /\ num_threads cfg <= 255
    /\ (hw mod 256 = 0 -> num_threads cfg = 4 /\ proof_threads cfg = 2)
    /\ enable_fast_mode cfg = true
    /\ enable_avx512 cfg = false
    /\ enable_logging cfg = false
    /\ segment_size cfg = 65536
    /\ (state c <> CPU_VDF_STATE_COMPUTING ->
        fst (cpu_vdf_set_thread_count (Some c) (num_threads cfg)
               (proof_threads cfg)) = CPU_VDF_SUCCESS).
Proof.
  eexists. split; [reflexivity|]. cbn.
  unfold u8. change (2 ^ 8) with 256.
  pose proof (Z.mod_pos_bound hw 256 ltac:(lia)) as Hb.
  set (h := hw mod 256) in *.
  set (n := if h =? 0 then 4 else h).
  assert (Hn : 1 <= n <= 255) by (subst n; destruct (Z.eqb_spec h 0); lia).
  assert (Hz : h = 0 -> n = 4) by (intros Hz; subst n; now rewrite Hz).
  clearbody n.
  assert (Hlo : 0 <= n / 2) by (apply Z.div_pos; lia).
  assert (Hhalf : n / 2 <= n) by (apply Z.div_le_upper_bound; lia).
  rewrite (Z.mod_small (Z.max 1 (n / 2)) 256) by lia.
  split; [lia|]. split; [lia|].
  split; [intros Hh; rewrite (Hz Hh); split; reflexivity|].
  do 4 (split; [reflexivity|]).
  intros Hst.
  - destruct (Z.eqb_spec n 0); [lia|].
    destruct (Z.ltb_spec n (Z.max 1 (n / 2))); [lia|]. cbn [orb].
    destruct (state c); try reflexivity. congruence.
Qed.

(** X13. While a context is in the state COMPUTING no call of the API
    changes it: both start entry points and the three configuration
    setters return an error (invalid parameters or already running) and
    hand the context back as it was. *)
Theorem computing_context_is_frozen `{VdfLib} (c : cpu_vdf_context)
  (bytes initial_form_arg : option (list byte)) (iterations bits : Z)
  (threads proofs size : Z) (fast_mode avx512 : bool) :
  state c = CPU_VDF_STATE_COMPUTING ->
  let refused (r : cpu_vdf_error_t * option cpu_vdf_context) :=
    (fst r = CPU_VDF_ERROR_INVALID_PARAMETERS
     \/ fst r = CPU_VDF_ERROR_ALREADY_RUNNING)
    /\ snd r = Some c in
  refused (cpu_vdf_start_computation (Some c) bytes initial_form_arg
             iterations bits)
  /\ refused (cpu_vdf_start_computation_with_discriminant (Some c) bytes
                initial_form_arg iterations)
  /\ refused (cpu_vdf_set_thread_count (Some c) threads proofs)
  /\ refused (cpu_vdf_set_optimizations (Some c) fast_mode avx512)
  /\ refused (cpu_vdf_set_segment_size (Some c) size).
Proof.
  intros Hst refused. subst refused. cbv beta.
  unfold cpu_vdf_start_computation,
    cpu_vdf_start_computation_with_discriminant, cpu_vdf_set_thread_count,
    cpu_vdf_set_optimizations, cpu_vdf_set_segment_size.
  rewrite Hst. cbn [state_eqb].
  repeat split;
    repeat match goal with
           | |- context [match ?o with Some _ => _ | None => _ end] =>
               destruct o
           | |- context [if ?b then _ else _] => destruct b
           end; cbn; auto.
Qed.

Lemma computing_context_is_frozen_witness :
  let c := set_state started_from_bytes CPU_VDF_STATE_COMPUTING in
  state c = CPU_VDF_STATE_COMPUTING
  /\ snd (cpu_vdf_set_segment_size (Some c) 7) = Some c.
Proof.
  intros c. split; [reflexivity|].
  destruct (computing_context_is_frozen (H := Reference.lib) c None None 0 0
              0 0 7 true true eq_refl) as (_ & _ & _ & _ & _ & Hctx).
  exact Hctx.
Defined.

(** * The result form *)

Lemma mpz_export_abs (z : Z) : mpz_export (Z.abs z) = mpz_export z.
Proof.
  unfold mpz_export, mpz_export_count. rewrite Z.abs_idemp.
  destruct (Z.eqb_spec z 0), (Z.eqb_spec (Z.abs z) 0); try reflexivity; lia.
Qed.

Lemma mpz_import_zeros (n : nat) : mpz_import (repeat Byte.x00 n) = 0.
Proof.
  induction n as [|n IH]; [reflexivity|].
  cbn [repeat]. rewrite mpz_import_cons, IH. reflexivity.
Qed.

Lemma firstn_repeat_min {A : Type} (x : A) (n m : nat) :
  firstn n (repeat x m) = repeat x (Nat.min n m).
Proof.
  revert m. induction n as [|n IH]; intros [|m]; cbn; try reflexivity.
  now rewrite IH.
Qed.

Lemma zero_filled_length (bs : list byte) :
  (length bs <= 256)%nat -> length (zero_filled bs) = 256%nat.
Proof.
  intros Hle. unfold zero_filled. rewrite length_app, repeat_length. lia.
Qed.

Lemma zero_filled_read (bs : list byte) (n : nat) :
  (length bs <= n <= 256)%nat ->
  mpz_import (firstn n (zero_filled bs))
  = mpz_import bs * 256 ^ (Z.of_nat n - Z.of_nat (length bs)).
Proof.
  intros Hn. unfold zero_filled.
  rewrite firstn_app, firstn_all2 by lia.
  rewrite firstn_repeat_min.
  replace (Nat.min (n - length bs) (256 - length bs)) with (n - length bs)%nat
    by lia.
  rewrite mpz_import_app, repeat_length, mpz_import_zeros.
  rewrite Nat2Z.inj_sub by lia. ring.
Qed.

(** X14. What a client reads from the structure
    [cpu_vdf_get_result_form] fills after a completed run whose coefficients
    fit their 256-byte arrays: each array has the magnitude of its
    coefficient at its start and zeros after it, and [data_size] is the
    longest of the three lengths. Read as a big-endian number of
    [data_size] bytes, an array therefore gives the magnitude of its
    coefficient times 256 to the power of the bytes that coefficient is
    shorter: the exact value only for the longest. *)
Theorem result_form_read_back (c : cpu_vdf_context) (f0 : cpu_vdf_form_t) :
  let size z := Z.of_nat (length (mpz_export z)) in
  let read bs n := mpz_import (firstn (Z.to_nat n) bs) in
  state c = CPU_VDF_STATE_COMPLETED ->
  size (Form.a (final_form c)) <= 256 ->
  size (Form.b (final_form c)) <= 256 ->
  size (Form.c (final_form c)) <= 256 ->
  exists r,
    cpu_vdf_get_result_form (Some c) (Some f0)
    = Some (CPU_VDF_SUCCESS, Some r)
    /\ data_size r
       = Z.max (size (Form.a (final_form c)))
           (Z.max (size (Form.b (final_form c)))
              (size (Form.c (final_form c))))
    /\ length (a_data r) = 256%nat
    /\ length (b_data r) = 256%nat
    /\ length (c_data r) = 256%nat
    /\ read (a_data r) (data_size r)
       = Z.abs (Form.a (final_form c))
         * 256 ^ (data_size r - size (Form.a (final_form c)))
    /\ read (b_data r) (data_size r)
       = Z.abs (Form.b (final_form c))
         * 256 ^ (data_size r - size (Form.b (final_form c)))
    /\ read (c_data r) (data_size r)
       = Z.abs (Form.c (final_form c))
         * 256 ^ (data_size r - size (Form.c (final_form c))).
Proof.
  intros size read Hst Ha Hb Hc. subst size read. cbv beta in *.
  unfold cpu_vdf_get_result_form. rewrite Hst. cbn [state_eqb negb].
  destruct (Z.ltb_spec 256 (Z.of_nat (length (mpz_export
              (Form.a (final_form c)))))); [lia|].
  destruct (Z.ltb_spec 256 (Z.of_nat (length (mpz_export
              (Form.b (final_form c)))))); [lia|].
  destruct (Z.ltb_spec 256 (Z.of_nat (length (mpz_export
              (Form.c (final_form c)))))); [lia|].
  cbn [orb]. eexists. split; [reflexivity|].
  cbn [data_size a_data b_data c_data].
  split; [reflexivity|].
  do 3 (split; [apply zero_filled_length; lia|]).
  repeat split; rewrite zero_filled_read, mpz_import_export by lia;
    f_equal; f_equal; lia.
Qed.

Lemma result_form_read_back_witness :
  exists r,
    cpu_vdf_get_result_form (Some run_from_bytes) (Some (mk_form_t [] [] [] 0))
    = Some (CPU_VDF_SUCCESS, Some r)
    /\ data_size r = 1.
Proof.
  destruct (result_form_read_back run_from_bytes (mk_form_t [] [] [] 0))
    as (r & Hr & Hsize & _);
    [vm_compute; reflexivity | vm_compute; discriminate
     | vm_compute; discriminate | vm_compute; discriminate |].
  exists r. split; [exact Hr|]. rewrite Hsize. vm_compute. reflexivity.
Defined.

(** X15. The structure filled by [cpu_vdf_get_result_form] does not tell a
    form from the form with the signs of its coefficients changed: a
    final form (a, b, c) and the final form (a, -b, c), its inverse in the
    class group, give the same output. *)
Theorem result_form_drops_signs (c : cpu_vdf_context) (f g : form)
  (f0 : option cpu_vdf_form_t) :
  cpu_vdf_get_result_form
    (Some (set_final_form c (Form.mk (Form.a f) (- Form.b f) (Form.c f)))) f0
  = cpu_vdf_get_result_form (Some (set_final_form c f)) f0
  /\ (magnitudes f = magnitudes g ->
      cpu_vdf_get_result_form (Some (set_final_form c f)) f0
      = cpu_vdf_get_result_form (Some (set_final_form c g)) f0).
Proof.
  assert (Hmag : forall f1 f2, magnitudes f1 = magnitudes f2 ->
            cpu_vdf_get_result_form (Some (set_final_form c f1)) f0
            = cpu_vdf_get_result_form (Some (set_final_form c f2)) f0).
  { intros f1 f2 Hm. unfold magnitudes in Hm.
    injection Hm as Ha Hb Hc.
    unfold cpu_vdf_get_result_form.
    cbn [state set_final_form final_form].
    rewrite <- (mpz_export_abs (Form.a f1)), <- (mpz_export_abs (Form.b f1)),
      <- (mpz_export_abs (Form.c f1)), Ha, Hb, Hc, !mpz_export_abs.
    reflexivity. }
  split; [|apply Hmag].
  apply Hmag. unfold magnitudes. cbn. now rewrite Z.abs_opp.
Qed.

(** * The seed of the discriminant *)

Lemma seed_of_prefix (ch1 ch2 : list byte) :
  firstn 4 ch1 = firstn 4 ch2 -> seed_of ch1 = seed_of ch2.
Proof. unfold seed_of. now intros ->. Qed.

(** X16. Of the 32-byte challenge only the first four bytes are used: two
    challenges that agree on them give the same discriminant, so
    [cpu_vdf_start_computation], [cpu_vdf_create_discriminant] and
    [cpu_vdf_verify_proof_with_challenge] do not tell them apart. *)
Theorem challenge_counts_four_bytes `{VdfLib} (ch1 ch2 : list byte)
  (ctx : option cpu_vdf_context) (initial_form_arg : option (list byte))
  (iterations bits : Z) (out : option (list byte))
  (proof : option cpu_vdf_proof_t) (recursion_level : byte) :
  firstn 4 ch1 = firstn 4 ch2 ->
  cpu_vdf_start_computation ctx (Some ch1) initial_form_arg iterations bits
  = cpu_vdf_start_computation ctx (Some ch2) initial_form_arg iterations bits
  /\ cpu_vdf_create_discriminant (Some ch1) bits out
     = cpu_vdf_create_discriminant (Some ch2) bits out
  /\ cpu_vdf_verify_proof_with_challenge (Some ch1) bits initial_form_arg
       proof iterations recursion_level
     = cpu_vdf_verify_proof_with_challenge (Some ch2) bits initial_form_arg
         proof iterations recursion_level.
Proof.
  intros Hpre. apply seed_of_prefix in Hpre.
  unfold cpu_vdf_start_computation, cpu_vdf_create_discriminant,
    cpu_vdf_verify_proof_with_challenge.
  rewrite Hpre. repeat split.
Qed.

Lemma challenge_counts_four_bytes_witness :
  let other := firstn 4 test_challenge ++ repeat Byte.xff 28 in
  other <> test_challenge
  /\ cpu_vdf_create_discriminant (H := Reference.lib) (Some other) 16
       (Some (repeat Byte.x00 2))
     = cpu_vdf_create_discriminant (H := Reference.lib) (Some test_challenge)
         16 (Some (repeat Byte.x00 2)).
Proof.
  intros other. split; [vm_compute; discriminate|].
  apply (challenge_counts_four_bytes (H := Reference.lib) other
           test_challenge None None 0 16 (Some (repeat Byte.x00 2)) None
           Byte.x00).
  reflexivity.
Defined.

(** * The prime search *)

Lemma NextPrime_loop_first `{VdfLib} (fuel : nat) (n p : Z) :
  NextPrime_loop fuel n = Some p ->
  (exists j, 0 <= j /\ p = n + 2 * j
             /\ forall i, 0 <= i < j -> mpz_probab_prime_p (n + 2 * i) 25 = 0)
  /\ mpz_probab_prime_p p 25 <> 0.
Proof.
  revert n. induction fuel as [|fuel IH]; intros n Hp; [discriminate|].
  cbn [NextPrime_loop] in Hp.
  destruct (Z.eqb_spec (mpz_probab_prime_p n 25) 0) as [Hz|Hnz].
  - destruct (IH _ Hp) as [(j & Hj & Hpj & Hbelow) Hacc].
    split; [|exact Hacc].
    exists (j + 1). split; [lia|]. split; [lia|].
    intros i Hi. destruct (Z.eq_dec i 0) as [->|Hi0].
    + now rewrite Z.add_0_r.
    + replace (n + 2 * i) with (n + 2 + 2 * (i - 1)) by lia.
      apply Hbelow. lia.
  - apply Some_inj in Hp. subst p. split; [|exact Hnz].
    exists 0. split; [lia|]. split; [lia|]. intros i Hi. lia.
Qed.

(** X17. [NextPrime] returns the first odd number, not below its argument,
    that the primality test accepts: the result is odd, so it is never 2,
    and every odd number between the argument and the result was rejected
    by the test. *)
Theorem NextPrime_first_accepted_odd `{VdfLib} (fuel : nat) (start p : Z) :
  NextPrime fuel start = Some p ->
  start <= p
  /\ Z.odd p = true
  /\ mpz_probab_prime_p p 25 <> 0
  /\ forall q, start <= q < p -> Z.odd q = true ->
               mpz_probab_prime_p q 25 = 0.
Proof.
  unfold NextPrime. intros Hp.
  apply NextPrime_loop_first in Hp.
  destruct Hp as [(j & Hj & Hpj & Hbelow) Hacc].
  set (n := if Z.even start then start + 1 else start) in *.
  assert (Hn : start <= n <= start + 1 /\ Z.odd n = true).
  { subst n. destruct (Z.even start) eqn:He.
    - split; [lia|]. rewrite Z.odd_add, <- Z.negb_even, He. reflexivity.
    - split; [lia|]. now rewrite <- Z.negb_even, He. }
  destruct Hn as [Hn Hodd].
  assert (Hoddp : Z.odd p = true).
  { subst p. rewrite Z.odd_add_mul_2. exact Hodd. }
  split; [lia|]. split; [exact Hoddp|]. split; [exact Hacc|].
  intros q Hq Hoq.
  assert (Hqn : n <= q).
  { destruct (Z.eq_dec q start) as [->|]; [|lia].
    subst n. destruct (Z.even start) eqn:He; [|lia].
    rewrite <- Z.negb_even, He in Hoq. discriminate. }
  apply Z.odd_spec in Hoq, Hodd.
  destruct Hoq as [a Ha]. destruct Hodd as [b Hb].
  replace q with (n + 2 * (a - b)) by lia.
  apply Hbelow. lia.
Qed.

Lemma NextPrime_first_accepted_odd_witness :
  NextPrime (H := Reference.lib) 10 90 = Some 97
  /\ Z.odd 97 = true
  /\ Reference.mpz_probab_prime_p 91 25 = 0.
Proof.
  assert (Hp : NextPrime (H := Reference.lib) 10 90 = Some 97)
    by (vm_compute; reflexivity).
  split; [exact Hp|].
  destruct (NextPrime_first_accepted_odd (H := Reference.lib) 10 90 97 Hp)
    as (_ & Hodd & _ & Hbelow).
  split; [exact Hodd|].
  apply Hbelow; [lia | reflexivity].
Defined.

(** * Status after a run *)

(** X18. [cpu_vdf_get_status] after the thread function has ended, for a
    run started at iteration 0: the iteration count reported lies between 0
    and the target, the progress between 0 and 100 percent, and the elapsed
    time is counted from the start of the thread. A completed run reports
    the target as its iteration count and a progress of 100. *)
Theorem status_after_run `{VdfLib} (fuel : nat) (stop_at : option nat)
  (now later : Z) (c0 c' : cpu_vdf_context) (s0 : cpu_vdf_status_t) :
  current_iteration c0 = 0 ->
  0 < target_iterations c0 ->
  target_iterations c0 + 1000 <= 2 ^ 64 ->
  vdf_computation_thread fuel stop_at now c0 = Some c' ->
  exists s,
    cpu_vdf_get_status (Some c') (Some s0) later = (CPU_VDF_SUCCESS, Some s)
    /\ status_target_iterations s = target_iterations c0
    /\ 0 <= status_current_iteration s <= target_iterations c0
    /\ (0 <= status_progress_percentage s <= 100)%Q
    /\ status_elapsed_time_ms s = later - now
    /\ (status_state s = CPU_VDF_STATE_COMPLETED ->
        status_current_iteration s = target_iterations c0
        /\ (status_progress_percentage s == 100)%Q).
Proof.
  intros Hzero Hpos HT Hrun.
  destruct (thread_outcome fuel stop_at now c0 c' ltac:(lia) HT Hrun)
    as (n & recs & Hn & _ & Hc).
  destruct (loop_entry_fields now c0) as (_ & _ & _ & Htgt & _).
  assert (Hfields : target_iterations c' = target_iterations c0
                    /\ current_iteration c' = n
                    /\ start_time c' = now
                    /\ state c' <> CPU_VDF_STATE_IDLE
                    /\ (state c' = CPU_VDF_STATE_COMPLETED ->
                        n = target_iterations c0)).
  { assert (Hst : start_time (loop_entry now c0) = now).
    { unfold loop_entry, worker_init. cbn.
      destruct (_ && _); [destruct (generate_streaming_proofs c0)|];
        reflexivity. }
    rewrite Hzero in Hc. cbv zeta in Hc.
    destruct Hc as [[_ ->]|[HnT ->]]; cbn; rewrite Htgt, Hst;
      (split; [reflexivity|]);
      (split; [destruct (Z.eqb_spec n 0); lia|]);
      (split; [reflexivity|]); split; try discriminate; auto. }
  destruct Hfields as (Ht & Hcur & Hstart & Hidle & Hdone).
  eexists. split; [reflexivity|]. cbn.
  rewrite Ht, Hcur, Hstart.
  destruct (Z.ltb_spec 0 (target_iterations c0)); [|lia].
  split; [reflexivity|]. split; [exact Hn|].
  assert (Hden : Z.pos (Z.to_pos (target_iterations c0))
                 = target_iterations c0) by (apply Z2Pos.id; lia).
  split; [|split].
  - split; unfold Qle; cbn [Qnum Qden]; rewrite ?Hden; lia.
  - destruct (state c'); cbn; congruence.
  - intros Hs. specialize (Hdone Hs). split; [exact Hdone|].
    unfold Qeq. cbn [Qnum Qden]. rewrite Hden. lia.
Qed.

Lemma status_after_run_witness :
  exists s,
    cpu_vdf_get_status (Some run_from_bytes) (Some empty_status) 9
    = (CPU_VDF_SUCCESS, Some s)
    /\ status_target_iterations s = 4
    /\ status_elapsed_time_ms s = 9.
Proof.
  destruct (status_after_run (H := Reference.lib) 400 None 0 9
              started_from_bytes run_from_bytes empty_status)
    as (s & Hs & Ht & _ & _ & He & _);
    [vm_compute; reflexivity | vm_compute; reflexivity
     | vm_compute; discriminate
     | apply context_of_returned; vm_compute; reflexivity |].
  exists s. split; [exact Hs|]. split; [exact Ht | exact He].
Defined.

(** * What the verifier accepts *)

Lemma firstn_app_short {A : Type} (n : nat) (xs ys : list A) :
  (n <= length xs)%nat -> firstn n (xs ++ ys) = firstn n xs.
Proof.
  intros Hn. rewrite firstn_app.
  replace (n - length xs)%nat with O by lia.
  rewrite firstn_O. apply app_nil_r.
Qed.

Lemma skipn_app_short {A : Type} (n : nat) (xs ys : list A) :
  (n <= length xs)%nat -> skipn n (xs ++ ys) = skipn n xs ++ ys.
Proof.
  intros Hn. rewrite skipn_app.
  replace (n - length xs)%nat with O by lia. reflexivity.
Qed.

Lemma read_integer_app (ptr junk : list byte) (v : Z) (rest : list byte) :
  read_integer ptr = Some (v, rest) ->
  read_integer (ptr ++ junk) = Some (v, rest ++ junk)
  /\ (2 + length rest <= length ptr)%nat.
Proof.
  destruct ptr as [|hi [|lo body]]; try discriminate.
  cbn [read_integer app].
  set (size := Z.lor _ _).
  assert (Hsize : 0 <= size).
  { subst size. apply Z.lor_nonneg. split.
    - apply Z.shiftl_nonneg. apply byte.unsigned_range.
    - apply byte.unsigned_range. }
  destruct (Z.ltb_spec (Z.of_nat (length body)) size); [discriminate|].
  intros Hr. injection Hr as <- <-.
  rewrite length_app.
  destruct (Z.ltb_spec (Z.of_nat (length body + length junk)) size); [lia|].
  rewrite firstn_app_short, skipn_app_short by lia.
  split; [reflexivity|]. cbn [length]. rewrite length_skipn. lia.
Qed.

Lemma parse_proof_app (data junk : list byte) (iterations : Z)
  (recursion_level : byte) (r : Z * form) :
  parse_proof data iterations recursion_level = Some r ->
  parse_proof (data ++ junk) iterations recursion_level = Some r
  /\ (17 <= length data)%nat.
Proof.
  unfold parse_proof.
  destruct data as [|version [|level ptr2]]; try discriminate;
    [now destruct (negb _)|].
  cbn [app].
  destruct (negb (byte.unsigned version =? 2)); [discriminate|].
  destruct (negb (_ =? byte.unsigned recursion_level)); [discriminate|].
  destruct (Z.ltb_spec (Z.of_nat (length ptr2)) 8); [discriminate|].
  rewrite length_app.
  destruct (Z.ltb_spec (Z.of_nat (length ptr2 + length junk)) 8); [lia|].
  rewrite firstn_app_short, skipn_app_short by lia.
  destruct (negb (_ =? iterations)); [discriminate|].
  assert (Hlen2 : length ptr2 = (8 + length (skipn 8 ptr2))%nat)
    by (rewrite length_skipn; lia).
  destruct (skipn 8 ptr2) as [|l_size ptr3]; [discriminate|].
  cbn [app].
  pose proof (byte.unsigned_range l_size) as Hl.
  destruct (Z.ltb_spec (Z.of_nat (length ptr3)) (byte.unsigned l_size));
    [discriminate|].
  rewrite length_app.
  destruct (Z.ltb_spec (Z.of_nat (length ptr3 + length junk))
              (byte.unsigned l_size)); [lia|].
  rewrite firstn_app_short, skipn_app_short by lia.
  assert (Hlen3 : (length (skipn (Z.to_nat (byte.unsigned l_size)) ptr3)
                   <= length ptr3)%nat) by (rewrite length_skipn; lia).
  destruct (read_integer (skipn _ ptr3)) as [[a ptr4]|] eqn:Ha;
    [|discriminate].
  destruct (read_integer_app _ junk _ _ Ha) as [-> Hla].
  destruct (read_integer ptr4) as [[b ptr5]|] eqn:Hb; [|discriminate].
  destruct (read_integer_app _ junk _ _ Hb) as [-> Hlb].
  destruct (read_integer ptr5) as [[c ptr6]|] eqn:Hc; [|discriminate].
  destruct (read_integer_app _ junk _ _ Hc) as [-> Hlc].
  intros Hr. split; [exact Hr|].
  cbn [length] in *. lia.
Qed.

(** X20. The verifier does not look past the third coefficient: bytes
    appended to a blob it can parse change nothing, so a proof stays as
    valid or as invalid as it was. *)
Theorem verify_ignores_trailing_bytes `{VdfLib}
  (dbytes initial_form_bytes : option (list byte)) (data junk : list byte)
  (iterations : Z) (recursion_level : byte) (l : Z) (pf : form) :
  parse_proof data iterations recursion_level = Some (l, pf) ->
  cpu_vdf_verify_proof dbytes initial_form_bytes
    (Some (proof_of (data ++ junk) iterations recursion_level)) iterations
    recursion_level
  = cpu_vdf_verify_proof dbytes initial_form_bytes
      (Some (proof_of data iterations recursion_level)) iterations
      recursion_level.
Proof.
  intros Hparse.
  destruct (parse_proof_app data junk iterations recursion_level _ Hparse)
    as [Happ Hlen].
  unfold cpu_vdf_verify_proof, proof_of. cbn [proof_data].
  destruct dbytes; [|reflexivity].
  rewrite Happ, Hparse, length_app.
  destruct (Z.ltb_spec (Z.of_nat (length data + length junk)) 10); [lia|].
  destruct (Z.ltb_spec (Z.of_nat (length data)) 10); [lia|].
  reflexivity.
Qed.

Lemma verify_ignores_trailing_bytes_witness :
  cpu_vdf_verify_proof (H := Reference.lib) (Some bytes_23) None
    (Some (proof_of (forged_blob 3 ++ [Byte.xff; Byte.xff]) 1 Byte.x00)) 1
    Byte.x00
  = cpu_vdf_verify_proof (H := Reference.lib) (Some bytes_23) None
      (Some (proof_of (forged_blob 3) 1 Byte.x00)) 1 Byte.x00.
Proof.
  apply (verify_ignores_trailing_bytes (H := Reference.lib) (Some bytes_23)
           None (forged_blob 3) [Byte.xff; Byte.xff] 1 Byte.x00 3
           (Form.mk 2 1 3)).
  vm_compute. reflexivity.
Defined.

Lemma proof_blob_length (recursion_level : byte) (iterations l : Z)
  (pi : form) :
  (17 <= length (proof_blob recursion_level iterations l pi))%nat.
Proof.
  unfold proof_blob, add_prime, add_integer.
  rewrite !length_app, be_bytes_length. cbn [length]. lia.
Qed.

Lemma verify_proof_blob `{VdfLib} (dbytes : list byte)
  (initial_form_bytes : option (list byte)) (iterations : Z)
  (recursion_level : byte) (l : Z) (pi : form) (p : cpu_vdf_proof_t) :
  proof_data p = Some (proof_blob recursion_level iterations l pi) ->
  0 <= iterations < 2 ^ 64 ->
  l <> 0 ->
  Z.of_nat (length (mpz_export l)) <= 255 ->
  Z.of_nat (length (mpz_export (Form.a pi))) <= 65535 ->
  Z.of_nat (length (mpz_export (Form.b pi))) <= 65535 ->
  Z.of_nat (length (mpz_export (Form.c pi))) <= 65535 ->
  let D := - mpz_import dbytes in
  let x := generator D in
  let L := root (- D) 4 in
  cpu_vdf_verify_proof (Some dbytes) initial_form_bytes (Some p) iterations
    recursion_level
  = Some (check_valid (magnitudes pi) D
          && Form.eqb
               (form_mul (FastPowFormNucomp (magnitudes pi) D (Z.abs l) L)
                  (FastPowFormNucomp x D (2 ^ iterations mod Z.abs l) L))
               (Nat.iter (Z.to_nat iterations) square x)).
Proof.
  intros Hdata Hit Hl Hsl Ha Hb Hc D x L.
  unfold cpu_vdf_verify_proof. rewrite Hdata.
  pose proof (proof_blob_length recursion_level iterations l pi) as Hlen.
  destruct (Z.ltb_spec (Z.of_nat (length (proof_blob recursion_level
              iterations l pi))) 10); [lia|].
  rewrite parse_proof_blob by assumption.
  unfold wesolowski_check. fold D. fold (magnitudes pi).
  destruct (check_valid (magnitudes pi) D); [|reflexivity].
  cbn [negb andb].
  destruct (Z.eqb_spec (Z.abs l) 0); [lia|].
  destruct initial_form_bytes; reflexivity.
Qed.

(** X21. What [cpu_vdf_verify_proof] decides for a blob in the layout of
    [cpu_vdf_generate_proof], written for the prime l and the proof form
    pi: with x the generator of the discriminant, it accepts exactly when
    the form of the magnitudes (|pi.a|, |pi.b|, |pi.c|) is valid and that
    form to the power l, composed with x to the power 2^T mod l, equals x
    squared T times. The signs of the coefficients play no part: a proof
    form with a negative b is checked as its inverse. *)
Theorem verify_checks_magnitudes `{VdfLib} (dbytes : list byte)
  (initial_form_bytes : option (list byte)) (iterations : Z)
  (recursion_level : byte) (l : Z) (pi : form) :
  0 <= iterations < 2 ^ 64 ->
  l <> 0 ->
  Z.of_nat (length (mpz_export l)) <= 255 ->
  Z.of_nat (length (mpz_export (Form.a pi))) <= 65535 ->
  Z.of_nat (length (mpz_export (Form.b pi))) <= 65535 ->
  Z.of_nat (length (mpz_export (Form.c pi))) <= 65535 ->
  let D := - mpz_import dbytes in
  let x := generator D in
  let L := root (- D) 4 in
  cpu_vdf_verify_proof (Some dbytes) initial_form_bytes
    (Some (proof_of (proof_blob recursion_level iterations l pi) iterations
             recursion_level)) iterations recursion_level
  = Some (check_valid (magnitudes pi) D
          && Form.eqb
               (form_mul (FastPowFormNucomp (magnitudes pi) D (Z.abs l) L)
                  (FastPowFormNucomp x D (2 ^ iterations mod Z.abs l) L))
               (Nat.iter (Z.to_nat iterations) square x)).
Proof.
  intros Hit Hl Hsl Ha Hb Hc.
  now apply verify_proof_blob.
Qed.

Lemma verify_checks_magnitudes_witness :
  cpu_vdf_verify_proof (H := Reference.lib) (Some bytes_23) None
    (Some (proof_of (proof_blob Byte.x00 1 3 (Form.mk 2 (-1) 3)) 1
             Byte.x00)) 1 Byte.x00
  = Some true.
Proof.
  rewrite (verify_checks_magnitudes (H := Reference.lib) bytes_23 None 1
             Byte.x00 3 (Form.mk 2 (-1) 3));
    [vm_compute; reflexivity | lia | discriminate
     | vm_compute; discriminate | vm_compute; discriminate
     | vm_compute; discriminate | vm_compute; discriminate].
Defined.

(** X22. A blob whose field for the prime l is empty, or holds zero bytes
    only, makes the verifier divide by zero: when the three coefficients
    read from it form a valid form, [cpu_vdf_verify_proof] reaches
    [mpz_mod] with the divisor 0, which GMP answers by a division by zero
    and not by an exception the [catch] would turn into false. *)
Theorem verify_divides_by_zero_prime `{VdfLib} (dbytes : list byte)
  (initial_form_bytes : option (list byte)) (iterations : Z)
  (recursion_level : byte) (l_bytes a_bytes b_bytes c_bytes : list byte) :
  0 <= iterations < 2 ^ 64 ->
  Z.of_nat (length l_bytes) <= 255 ->
  Z.of_nat (length a_bytes) <= 65535 ->
  Z.of_nat (length b_bytes) <= 65535 ->
  Z.of_nat (length c_bytes) <= 65535 ->
  mpz_import l_bytes = 0 ->
  check_valid
    (Form.mk (mpz_import a_bytes) (mpz_import b_bytes) (mpz_import c_bytes))
    (- mpz_import dbytes) = true ->
  cpu_vdf_verify_proof (Some dbytes) initial_form_bytes
    (Some (proof_of
             (proof_layout recursion_level iterations l_bytes a_bytes
                b_bytes c_bytes) iterations recursion_level))
    iterations recursion_level
  = None.
Proof.
  intros Hit Hl Ha Hb Hc Hzero Hvalid.
  unfold cpu_vdf_verify_proof, proof_of. cbn [proof_data].
  assert (Hlen : (17 <= length (proof_layout recursion_level iterations
                                  l_bytes a_bytes b_bytes c_bytes))%nat).
  { unfold proof_layout, length_prefix.
    rewrite !length_app, be_bytes_length. cbn [length]. lia. }
  destruct (Z.ltb_spec (Z.of_nat (length (proof_layout recursion_level
              iterations l_bytes a_bytes b_bytes c_bytes))) 10); [lia|].
  rewrite <- (app_nil_r (proof_layout _ _ _ _ _ _)) at 1.
  rewrite parse_proof_layout by lia.
  unfold wesolowski_check. rewrite Hvalid, Hzero. reflexivity.
Qed.

Lemma verify_divides_by_zero_prime_witness :
  cpu_vdf_verify_proof (H := Reference.lib) (Some bytes_23) None
    (Some (proof_of
             (proof_layout Byte.x00 1 [] [byte.of_Z 1] [byte.of_Z 1]
                [byte.of_Z 6]) 1 Byte.x00)) 1 Byte.x00
  = None.
Proof.
  apply (verify_divides_by_zero_prime (H := Reference.lib) bytes_23 None 1
           Byte.x00 [] [byte.of_Z 1] [byte.of_Z 1] [byte.of_Z 6]);
    [lia | vm_compute; discriminate | vm_compute; discriminate
     | vm_compute; discriminate | vm_compute; discriminate
     | reflexivity | vm_compute; reflexivity].
Defined.

(** X23. The prime both provers derive by Fiat-Shamir is odd, has bit 263
    or a higher one set, so that it takes at least 33 bytes in a blob, and
    is accepted by the primality test. In particular it is not zero: a blob
    written by a prover never leads the verifier into the division by
    zero. *)
Theorem challenge_prime_is_large_and_odd `{VdfLib} (fuel : nat) (D : Z)
  (x y : form) (iterations l : Z) :
  challenge_prime_of fuel D x y iterations = Some l ->
  2 ^ 263 <= l
  /\ Z.odd l = true
  /\ mpz_probab_prime_p l 25 <> 0
  /\ (33 <= length (mpz_export l))%nat.
Proof.
  intros Hl.
  pose proof (challenge_prime_lower_bound fuel D x y iterations l Hl) as Hlo.
  unfold challenge_prime_of in Hl.
  pose proof Hl as Hl'. unfold NextPrime in Hl'.
  apply NextPrime_loop_first in Hl'.
  destruct Hl' as [(j & Hj & Hlj & _) Hacc].
  split; [exact Hlo|]. split; [|split; [exact Hacc|]].
  - rewrite Hlj, Z.odd_add_mul_2.
    destruct (Z.even (Z.setbit _ 263)) eqn:He.
    + rewrite Z.odd_add, <- Z.negb_even, He. reflexivity.
    + now rewrite <- Z.negb_even, He.
  - rewrite mpz_export_length. unfold mpz_export_count.
    destruct (Z.eqb_spec l 0); [lia|].
    rewrite Z.abs_eq by lia.
    assert (Hlog : 263 <= Z.log2 l).
    { apply Z.log2_le_pow2; lia. }
    assert (Hq : 32 <= Z.log2 l / 8).
    { apply Z.div_le_lower_bound; lia. }
    lia.
Qed.

Lemma challenge_prime_is_large_and_odd_witness :
  exists l,
    challenge_prime_of (H := Reference.lib) 400 (-23) (Form.mk 1 1 6)
      (Form.mk 1 1 6) 3 = Some l
    /\ 2 ^ 263 <= l
    /\ Z.odd l = true.
Proof.
  assert (Hl : exists l,
             challenge_prime_of (H := Reference.lib) 400 (-23)
               (Form.mk 1 1 6) (Form.mk 1 1 6) 3 = Some l)
    by (eexists; vm_compute; reflexivity).
  destruct Hl as [l Hl]. exists l. split; [exact Hl|].
  destruct (challenge_prime_is_large_and_odd (H := Reference.lib) 400 (-23)
              (Form.mk 1 1 6) (Form.mk 1 1 6) 3 l Hl) as (Hlo & Hodd & _).
  split; [exact Hlo | exact Hodd].
Defined.

(** * Discriminants between the entry points *)

Lemma import_discriminant_export (D : Z) :
  D < 0 -> D mod 4 = 1 -> import_discriminant (mpz_export D) = D.
Proof.
  intros Hneg Hmod. unfold import_discriminant.
  rewrite mpz_import_export, Z.abs_neq, Z.opp_involutive by lia.
  now rewrite Hmod.
Qed.

(** X24. [cpu_vdf_create_discriminant] returns, when it succeeds, the
    number of bytes it wrote and not CPU_VDF_SUCCESS: the magnitude of the
    discriminant, most significant byte first, at the start of the buffer,
    whose remaining bytes are untouched. When the discriminant generated is
    negative and congruent to 1 modulo 4, handing these bytes to
    [cpu_vdf_start_computation_with_discriminant] gives a run the
    discriminant [cpu_vdf_start_computation] derives from the same
    challenge. *)
Theorem created_discriminant_starts_same_run `{VdfLib}
  (challenge out : list byte) (bits : Z) (c : cpu_vdf_context)
  (initial_form_arg : option (list byte)) (iterations : Z) :
  let D := generate_discriminant bits (seed_of challenge) in
  let n := length (mpz_export D) in
  D < 0 ->
  D mod 4 = 1 ->
  bits / 8 <= Z.of_nat (length out) ->
  (n <= length out)%nat ->
  exists out',
    cpu_vdf_create_discriminant (Some challenge) bits (Some out)
    = Some (Z.of_nat n, Some out')
    /\ (0 < n)%nat
    /\ length out' = length out
    /\ firstn n out' = mpz_export D
    /\ skipn n out' = skipn n out
    /\ (forall c0,
          cpu_vdf_start_computation_with_discriminant (Some c)
            (Some (firstn n out')) initial_form_arg iterations
          = (CPU_VDF_SUCCESS, Some c0) ->
          discriminant c0 = D)
    /\ (forall c0,
          cpu_vdf_start_computation (Some c) (Some challenge)
            initial_form_arg iterations bits = (CPU_VDF_SUCCESS, Some c0) ->
          discriminant c0 = D).
Proof.
  intros D n Hneg Hmod Hcheck Hfit. subst n.
  exists (mpz_export D ++ skipn (length (mpz_export D)) out).
  unfold cpu_vdf_create_discriminant. fold D.
  destruct (Z.ltb_spec (Z.of_nat (length out)) (bits / 8)); [lia|].
  destruct (Z.ltb_spec (Z.of_nat (length out))
              (Z.of_nat (length (mpz_export D)))); [lia|].
  split; [reflexivity|].
  assert (Hn : (0 < length (mpz_export D))%nat).
  { rewrite mpz_export_length. unfold mpz_export_count.
    destruct (Z.eqb_spec D 0); [lia|].
    pose proof (Z.log2_nonneg (Z.abs D)).
    pose proof (Z.div_pos (Z.log2 (Z.abs D)) 8 ltac:(lia) ltac:(lia)). lia. }
  split; [exact Hn|].
  split; [rewrite length_app, length_skipn; lia|].
  assert (Hfirst : firstn (length (mpz_export D))
                     (mpz_export D ++ skipn (length (mpz_export D)) out)
                   = mpz_export D)
    by (rewrite firstn_app_short, firstn_all by lia; reflexivity).
  split; [exact Hfirst|].
  split.
  { rewrite skipn_app, skipn_all, Nat.sub_diag. reflexivity. }
  rewrite Hfirst.
  split.
  - intros c0 Hstart.
    unfold cpu_vdf_start_computation_with_discriminant in Hstart.
    destruct (_ || _); [discriminate|].
    destruct (state_eqb (state c) CPU_VDF_STATE_COMPUTING); [discriminate|].
    destruct (0 <=? _); [discriminate|].
    match type of Hstart with context [negb ?b] => destruct b end;
      [|discriminate].
    apply (f_equal snd) in Hstart. cbn [snd negb] in Hstart.
    apply Some_inj in Hstart. subst c0. cbn.
    now apply import_discriminant_export.
  - intros c0 Hstart.
    unfold cpu_vdf_start_computation in Hstart.
    destruct (iterations =? 0); [discriminate|].
    destruct (state_eqb (state c) CPU_VDF_STATE_COMPUTING); [discriminate|].
    apply (f_equal snd) in Hstart. cbn [snd] in Hstart.
    apply Some_inj in Hstart. subst c0.
    destruct initial_form_arg; reflexivity.
Qed.

Lemma created_discriminant_starts_same_run_witness :
  exists out',
    cpu_vdf_create_discriminant (H := Reference.lib) (Some test_challenge) 16
      (Some (repeat Byte.xff 3))
    = Some (2, Some out')
    /\ length out' = 3%nat.
Proof.
  destruct (created_discriminant_starts_same_run (H := Reference.lib)
              test_challenge (repeat Byte.xff 3) 16 fresh_context None 4)
    as (out' & Hcreate & _ & Hlen & _);
    [vm_compute; reflexivity | vm_compute; reflexivity
     | vm_compute; discriminate | vm_compute; lia |].
  exists out'. split; [exact Hcreate | exact Hlen].
Defined.

(** X25. The size check of [cpu_vdf_create_discriminant] rounds the bit
    count down to whole bytes. A discriminant whose magnitude does not fit
    [discriminant_size_bits / 8] bytes, as every magnitude of exactly that
    many bits when the count is not a multiple of 8, is written past the end
    of a buffer of that size, which the check lets through. *)
Theorem create_discriminant_overruns_rounded_buffer `{VdfLib}
  (challenge out : list byte) (bits : Z) :
  let D := generate_discriminant bits (seed_of challenge) in
  Z.of_nat (length out) = bits / 8 ->
  256 ^ (bits / 8) <= Z.abs D ->
  cpu_vdf_create_discriminant (Some challenge) bits (Some out) = None.
Proof.
  intros D Hsize Hbig.
  unfold cpu_vdf_create_discriminant. fold D.
  destruct (Z.ltb_spec (Z.of_nat (length out)) (bits / 8)); [lia|].
  destruct (Z.ltb_spec (Z.of_nat (length out))
              (Z.of_nat (length (mpz_export D)))) as [|Hfit];
    [reflexivity|].
  exfalso.
  pose proof (mpz_export_count_bound D) as Hb.
  rewrite <- mpz_export_length in Hb.
  assert (Hmono : 256 ^ Z.of_nat (length (mpz_export D))
                  <= 256 ^ (bits / 8))
    by (apply Z.pow_le_mono_r; lia).
  lia.
Qed.

Lemma create_discriminant_overruns_rounded_buffer_witness :
  Z.of_nat (length [Byte.x00]) = 12 / 8
  /\ cpu_vdf_create_discriminant (H := Reference.lib) (Some test_challenge)
       12 (Some [Byte.x00]) = None.
Proof.
  split; [reflexivity|].
  apply (create_discriminant_overruns_rounded_buffer (H := Reference.lib)
           test_challenge [Byte.x00] 12);
    [reflexivity | vm_compute; discriminate].
Defined.

(** X26. [cpu_vdf_verify_proof_with_challenge] verifies against minus the
    magnitude of the discriminant it generates from the challenge: when the
    magnitude fits the vector of [discriminant_size_bits / 8 + 8] bytes it
    is the call of [cpu_vdf_verify_proof] on the bytes of the magnitude, and
    for a negative discriminant that is the discriminant
    [cpu_vdf_start_computation] puts into the context for the same
    challenge and size. *)
Theorem verify_with_challenge_uses_run_discriminant `{VdfLib}
  (challenge : list byte) (bits : Z) (c c0 : cpu_vdf_context)
  (initial_form_arg initial_form_bytes : option (list byte))
  (proof : cpu_vdf_proof_t) (run_iterations iterations : Z)
  (recursion_level : byte) :
  cpu_vdf_start_computation (Some c) (Some challenge) initial_form_arg
    run_iterations bits = (CPU_VDF_SUCCESS, Some c0) ->
  discriminant c0 <= 0 ->
  Z.of_nat (length (mpz_export (discriminant c0))) <= bits / 8 + 8 ->
  cpu_vdf_verify_proof_with_challenge (Some challenge) bits
    initial_form_bytes (Some proof) iterations recursion_level
  = cpu_vdf_verify_proof (Some (mpz_export (discriminant c0)))
      initial_form_bytes (Some proof) iterations recursion_level
  /\ - mpz_import (mpz_export (discriminant c0)) = discriminant c0.
Proof.
  intros Hstart Hneg Hfit.
  assert (HD : discriminant c0
               = generate_discriminant bits (seed_of challenge)).
  { unfold cpu_vdf_start_computation in Hstart.
    destruct (run_iterations =? 0); [discriminate|].
    destruct (state_eqb (state c) CPU_VDF_STATE_COMPUTING); [discriminate|].
    apply (f_equal snd) in Hstart. cbn [snd] in Hstart.
    apply Some_inj in Hstart. subst c0.
    destruct initial_form_arg; reflexivity. }
  split.
  - unfold cpu_vdf_verify_proof_with_challenge. rewrite <- HD.
    rewrite mpz_export_abs.
    destruct (Z.ltb_spec (bits / 8 + 8)
                (Z.of_nat (length (mpz_export (discriminant c0)))));
      [lia | reflexivity].
  - rewrite mpz_import_export. lia.
Qed.

Lemma verify_with_challenge_uses_run_discriminant_witness :
  cpu_vdf_verify_proof_with_challenge (H := Reference.lib)
    (Some test_challenge) 16 None (Some empty_proof) 4 Byte.x00
  = cpu_vdf_verify_proof (H := Reference.lib)
      (Some (mpz_export (discriminant started_streaming))) None
      (Some empty_proof) 4 Byte.x00.
Proof.
  apply (verify_with_challenge_uses_run_discriminant (H := Reference.lib)
           test_challenge 16 fresh_context started_streaming None None
           empty_proof 4 4 Byte.x00);
    [vm_compute; reflexivity | vm_compute; discriminate
     | vm_compute; discriminate].
Defined.

(** X27. The prover adjusts the discriminant, the verifier does not:
    [cpu_vdf_start_computation_with_discriminant] forces the residue 1
    modulo 4, while [cpu_vdf_verify_proof] takes minus the magnitude as it
    is. For the same bytes the two work in the same class group exactly
    when the magnitude is congruent to 3 modulo 4. *)
Theorem verifier_keeps_unadjusted_discriminant `{VdfLib}
  (c c0 : cpu_vdf_context) (dbytes data : list byte)
  (initial_form_arg initial_form_bytes : option (list byte))
  (run_iterations iterations : Z) (recursion_level : byte) (l : Z)
  (pf : form) :
  cpu_vdf_start_computation_with_discriminant (Some c) (Some dbytes)
    initial_form_arg run_iterations = (CPU_VDF_SUCCESS, Some c0) ->
  parse_proof data iterations recursion_level = Some (l, pf) ->
  cpu_vdf_verify_proof (Some dbytes) initial_form_bytes
    (Some (proof_of data iterations recursion_level)) iterations
    recursion_level
  = wesolowski_check (- mpz_import dbytes) initial_form_bytes l pf iterations
  /\ (discriminant c0 = - mpz_import dbytes
      <-> mpz_import dbytes mod 4 = 3).
Proof.
  intros Hstart Hparse. split.
  - destruct (parse_proof_app data [] iterations recursion_level _ Hparse)
      as [_ Hlen].
    unfold cpu_vdf_verify_proof, proof_of. cbn [proof_data].
    destruct (Z.ltb_spec (Z.of_nat (length data)) 10); [lia|].
    now rewrite Hparse.
  - assert (HD : discriminant c0 = import_discriminant dbytes).
    { unfold cpu_vdf_start_computation_with_discriminant in Hstart.
      destruct (_ || _); [discriminate|].
      destruct (state_eqb (state c) CPU_VDF_STATE_COMPUTING);
        [discriminate|].
      destruct (0 <=? _); [discriminate|].
      match type of Hstart with context [negb ?b] => destruct b end;
        [|discriminate].
      apply (f_equal snd) in Hstart. cbn [snd negb] in Hstart.
      apply Some_inj in Hstart. now subst c0. }
    rewrite HD.
    pose proof (import_discriminant_mod4 dbytes) as Hmod.
    set (m := mpz_import dbytes) in *.
    pose proof (Z.div_mod m 4 ltac:(lia)) as Hdm.
    pose proof (Z.mod_pos_bound m 4 ltac:(lia)) as Hmb.
    split.
    + intros Heq. rewrite Heq in Hmod.
      assert (Hs : (- m + m) mod 4 = 0) by (now rewrite Z.add_opp_diag_l).
      rewrite Z.add_mod, Hmod in Hs by lia.
      destruct (Z.eq_dec (m mod 4) 0) as [E|E]; [rewrite E in Hs; cbn in Hs; lia|].
      destruct (Z.eq_dec (m mod 4) 1) as [E1|E1]; [rewrite E1 in Hs; cbn in Hs; lia|].
      destruct (Z.eq_dec (m mod 4) 2) as [E2|E2]; [rewrite E2 in Hs; cbn in Hs; lia|].
      lia.
    + intros H3. unfold import_discriminant. fold m.
      assert (Hneg : (- m) mod 4 = 1).
      { symmetry. apply (Z.mod_unique _ _ (- (m / 4) - 1)); lia. }
      now rewrite Hneg.
Qed.

Lemma verifier_keeps_unadjusted_discriminant_witness :
  discriminant started_from_bytes = - mpz_import bytes_23
  <-> mpz_import bytes_23 mod 4 = 3.
Proof.
  refine (proj2 (verifier_keeps_unadjusted_discriminant (H := Reference.lib)
                   fresh_context started_from_bytes bytes_23 (forged_blob 3)
                   None None 4 1 Byte.x00 3 (Form.mk 2 1 3) _ _));
    vm_compute; reflexivity.
Defined.

(** * Checkpoint blobs and the verifier *)

Lemma segment_records_blobs `{VdfLib} (fuel : nat) (D : Z) (x0 : form)
  (prev : Z) (ts : list Z) (recs : list CheckpointProof) :
  segment_records fuel D x0 prev ts = Some recs ->
  Forall (fun cp => exists rest,
            serialized_proof cp = byte.of_Z 3 :: rest) recs.
Proof.
  revert prev recs. induction ts as [|t ts IH]; intros prev recs Hrecs.
  - cbn in Hrecs. apply Some_inj in Hrecs. subst recs. constructor.
  - cbn [segment_records] in Hrecs.
    destruct (generate_checkpoint_proof _ _ _ _ _) as [cp|] eqn:Hgen;
      [|discriminate].
    destruct (segment_records fuel D x0 t ts) as [cps|] eqn:Hrest;
      [|discriminate].
    apply Some_inj in Hrecs. subst recs.
    constructor; [|now apply (IH t)].
    unfold generate_checkpoint_proof in Hgen.
    destruct (challenge_prime_of _ _ _ _ _); [|discriminate].
    apply Some_inj in Hgen. subst cp. cbn. eexists. reflexivity.
Qed.

Lemma verify_rejects_version `{VdfLib}
  (dbytes initial_form_bytes : option (list byte)) (data : option (list byte))
  (proof_iterations : Z) (valid : bool) (level : byte) (iterations : Z)
  (recursion_level : byte) :
  match data with
  | Some (version :: _) => byte.unsigned version <> 2
  | _ => True
  end ->
  cpu_vdf_verify_proof dbytes initial_form_bytes
    (Some (mk_proof data proof_iterations valid level)) iterations
    recursion_level = Some false.
Proof.
  intros Hv. unfold cpu_vdf_verify_proof. cbn [proof_data].
  destruct dbytes; [|reflexivity].
  destruct data as [[|version rest]|]; try reflexivity.
  destruct (_ <? 10); [reflexivity|].
  unfold parse_proof.
  destruct (Z.eqb_spec (byte.unsigned version) 2); [contradiction|].
  reflexivity.
Qed.

(** X28. The library cannot verify its own checkpoint proofs: whatever a
    run has stored, no entry [cpu_vdf_get_checkpoint_proofs] returns has a
    blob [cpu_vdf_verify_proof] accepts, for any discriminant, iteration
    count and recursion level. The blobs start with the version 0x03 or
    0x04, or are absent, and the verifier reads version 0x02 only. *)
Theorem checkpoint_blobs_are_not_verifiable `{VdfLib} (fuel : nat)
  (stop_at : option nat) (now : Z) (c0 c' : cpu_vdf_context)
  (start_iteration end_iteration : Z)
  (proofs : list cpu_vdf_checkpoint_proof_t) (max_proofs : nat)
  (result : cpu_vdf_error_t * list cpu_vdf_checkpoint_proof_t)
  (dbytes initial_form_bytes : option (list byte))
  (proof_iterations : Z) (valid : bool) (level : byte) (iterations : Z)
  (recursion_level : byte) :
  checkpoint_proofs c0 = [] ->
  0 <= target_iterations c0 ->
  target_iterations c0 + 1000 <= 2 ^ 64 ->
  vdf_computation_thread fuel stop_at now c0 = Some c' ->
  cpu_vdf_get_checkpoint_proofs (Some c') start_iteration end_iteration
    (Some proofs) (Some max_proofs) = Some result ->
  Forall (fun r =>
            cpu_vdf_verify_proof dbytes initial_form_bytes
              (Some (mk_proof (out_proof_data r) proof_iterations valid
                       level)) iterations recursion_level = Some false)
    (snd result).
Proof.
  intros Hnil HT0 HT Hrun Hcall.
  destruct (thread_records fuel stop_at now c0 c' HT0 HT Hrun)
    as (n & recs & Hn & _ & Hrecs & Hcps).
  assert (Hall : Forall (fun cp =>
                           serialized_proof cp = []
                           \/ exists v rest,
                                serialized_proof cp = v :: rest
                                /\ byte.unsigned v <> 2)
                   (checkpoint_proofs c')).
  { rewrite Hcps. apply Forall_app. split.
    - destruct (store_checkpoints c0 && (0 <? target_iterations c0)) eqn:Hst.
      + apply andb_true_iff in Hst. destruct Hst as [Hstore Hpos].
        apply Z.ltb_lt in Hpos.
        destruct (loop_entry_store now c0 Hstore Hpos) as (_ & _ & ->).
        rewrite Hnil. destruct (generate_streaming_proofs c0);
          constructor; [|constructor].
        right. eexists. eexists. split; [reflexivity|]. discriminate.
      + rewrite (loop_entry_no_store now c0 Hst). cbn. rewrite Hnil.
        constructor.
    - unfold records_after in Hrecs.
      destruct (stores _); [|apply Some_inj in Hrecs; subst recs; constructor].
      destruct (generate_streaming_proofs _).
      + apply segment_records_blobs in Hrecs.
        eapply Forall_impl; [|exact Hrecs]. cbn. intros cp [rest Hcp].
        right. exists (byte.of_Z 3), rest. split; [exact Hcp|]. discriminate.
      + apply Some_inj in Hrecs. subst recs.
        apply Forall_forall. intros cp Hin.
        apply in_map_iff in Hin. destruct Hin as (t & <- & _). now left. }
  eapply Forall_impl;
    [|exact (returned_entry_record c' start_iteration end_iteration proofs
               max_proofs result Hcall)].
  intros r (cp & Hin & _ & Hentry).
  rewrite Forall_forall in Hall. specialize (Hall cp Hin).
  apply verify_rejects_version.
  destruct (export_checkpoint_fields cp r Hentry)
    as (_ & _ & _ & _ & Hdata & _).
  rewrite Hdata.
  destruct Hall as [->|(v & rest & -> & Hv)]; [exact I | exact Hv].
Qed.

Lemma checkpoint_blobs_are_not_verifiable_witness :
  exists result,
    cpu_vdf_get_checkpoint_proofs (Some streaming_run) 0 4 (Some [])
      (Some 10%nat) = Some result
    /\ length (snd result) = 3%nat
    /\ Forall (fun r =>
                 cpu_vdf_verify_proof (H := Reference.lib) (Some bytes_23)
                   None
                   (Some (mk_proof (out_proof_data r) 2 true Byte.x00)) 2
                   Byte.x00 = Some false)
         (snd result).
Proof.
  assert (Hcall : exists result,
             cpu_vdf_get_checkpoint_proofs (Some streaming_run) 0 4
               (Some []) (Some 10%nat) = Some result
             /\ length (snd result) = 3%nat)
    by (eexists; vm_compute; split; reflexivity).
  destruct Hcall as (result & Hcall & Hlen). exists result.
  split; [exact Hcall|]. split; [exact Hlen|].
  apply (checkpoint_blobs_are_not_verifiable (H := Reference.lib) 400 None 0
           started_streaming streaming_run 0 4 [] 10 result (Some bytes_23)
           None 2 true Byte.x00 2 Byte.x00);
    [vm_compute; reflexivity | vm_compute; discriminate
     | vm_compute; discriminate
     | apply context_of_returned; vm_compute; reflexivity
     | exact Hcall].
Defined.

(** * From a run to its verification *)

(** X29. The whole path of a proof. A run started from the bytes of a
    magnitude congruent to 3 modulo 4 works on the discriminant D the
    verifier derives from the same bytes, from the generator x of D. When
    it has completed, [cpu_vdf_generate_proof] writes the blob of the
    Fiat-Shamir prime l and pi = x^(2^T / l), and for coefficients that fit
    their length fields [cpu_vdf_verify_proof] on that blob returns whether
    the form of the magnitudes of pi is valid and, raised to l and composed
    with x^(2^T mod l), equals the final form of the run: the verifier's own
    T squarings of x give that form again. *)
Theorem generated_proof_is_checked_against_final_form `{VdfLib}
  (fuel : nat) (stop_at : option nat) (now : Z)
  (c c0 c' : cpu_vdf_context) (dbytes : list byte)
  (initial_form_arg initial_form_bytes : option (list byte))
  (iterations : Z) (recursion_level : byte) (p0 p : cpu_vdf_proof_t) :
  cpu_vdf_start_computation_with_discriminant (Some c) (Some dbytes)
    initial_form_arg iterations = (CPU_VDF_SUCCESS, Some c0) ->
  mpz_import dbytes mod 4 = 3 ->
  0 < iterations ->
  iterations + 1000 <= 2 ^ 64 ->
  vdf_computation_thread fuel stop_at now c0 = Some c' ->
  cpu_vdf_generate_proof fuel (Some c') recursion_level (Some p0)
  = Some (CPU_VDF_SUCCESS, Some p) ->
  let D := - mpz_import dbytes in
  let x := generator D in
  let L := root (- D) 4 in
  exists l pi,
    challenge_prime_of fuel D x (final_form c') iterations = Some l
    /\ pi = FastPowFormNucomp x D (2 ^ iterations / l) L
    /\ final_form c' = Nat.iter (Z.to_nat iterations) square x
    /\ (Z.of_nat (length (mpz_export l)) <= 255 ->
        Z.of_nat (length (mpz_export (Form.a pi))) <= 65535 ->
        Z.of_nat (length (mpz_export (Form.b pi))) <= 65535 ->
        Z.of_nat (length (mpz_export (Form.c pi))) <= 65535 ->
        cpu_vdf_verify_proof (Some dbytes) initial_form_bytes (Some p)
          iterations recursion_level
        = Some (check_valid (magnitudes pi) D
                && Form.eqb
                     (form_mul (FastPowFormNucomp (magnitudes pi) D l L)
                        (FastPowFormNucomp x D (2 ^ iterations mod l) L))
                     (final_form c'))).
Proof.
  intros Hstart Hmod Hpos HT Hrun Hgen D x L.
  assert (Hc0 : discriminant c0 = D /\ initial_form c0 = x
                /\ target_iterations c0 = iterations).
  { unfold cpu_vdf_start_computation_with_discriminant in Hstart.
    destruct (_ || _); [discriminate|].
    destruct (state_eqb (state c) CPU_VDF_STATE_COMPUTING); [discriminate|].
    destruct (0 <=? _); [discriminate|].
    match type of Hstart with context [negb ?b] => destruct b end;
      [|discriminate].
    apply (f_equal snd) in Hstart. cbn [snd negb] in Hstart.
    apply Some_inj in Hstart. subst c0. cbn.
    assert (HD : import_discriminant dbytes = D).
    { unfold import_discriminant. subst D.
      set (m := mpz_import dbytes) in *.
      assert (Hneg : (- m) mod 4 = 1).
      { pose proof (Z.div_mod m 4 ltac:(lia)).
        symmetry. apply (Z.mod_unique _ _ (- (m / 4) - 1)); lia. }
      now rewrite Hneg. }
    rewrite HD. repeat split. }
  destruct Hc0 as (HD & Hx & Ht).
  unfold cpu_vdf_generate_proof in Hgen.
  destruct (state_eqb (state c') CPU_VDF_STATE_COMPLETED) eqn:Hstate;
    [|discriminate].
  cbn [negb] in Hgen.
  destruct (thread_outcome fuel stop_at now c0 c') as
    (n & recs & _ & _ & [[_ Hc]|[_ Hc]]);
    [rewrite Ht; lia | rewrite Ht; exact HT | exact Hrun
     | rewrite Hc in Hstate; discriminate |].
  destruct (loop_entry_fields now c0)
    as (_ & _ & _ & Htgt & Hd & Hinit & _).
  assert (Hfields : discriminant c' = D /\ initial_form c' = x
                    /\ target_iterations c' = iterations
                    /\ final_form c'
                       = Nat.iter (Z.to_nat iterations) square x).
  { subst c'. cbn. rewrite Hd, Hinit, Htgt, HD, Hx, Ht. repeat split. }
  destruct Hfields as (HD' & Hx' & Ht' & Hfinal).
  rewrite HD', Hx', Ht' in Hgen. fold L in Hgen.
  destruct (challenge_prime_of fuel D x (final_form c') iterations)
    as [l|] eqn:Hl; [|discriminate].
  apply Some_inj in Hgen. apply (f_equal snd) in Hgen. cbn [snd] in Hgen.
  apply Some_inj in Hgen.
  exists l, (FastPowFormNucomp x D (2 ^ iterations / l) L).
  split; [reflexivity|]. split; [reflexivity|]. split; [exact Hfinal|].
  intros Hsl Ha Hb Hc'.
  pose proof (challenge_prime_lower_bound fuel D x (final_form c')
                iterations l Hl) as Hlo.
  assert (Hlpos : 0 < l) by (pose proof (Z.pow_pos_nonneg 2 263); lia).
  pose proof (verify_proof_blob dbytes initial_form_bytes iterations
                recursion_level l
                (FastPowFormNucomp x D (2 ^ iterations / l) L) p) as Hv.
  cbv zeta in Hv. rewrite (Z.abs_eq l) in Hv by lia.
  rewrite Hfinal. apply Hv; try assumption; try lia.
  subst p. reflexivity.
Qed.

Lemma generated_proof_is_checked_against_final_form_witness :
  exists p l,
    cpu_vdf_generate_proof (H := Reference.lib) 400 (Some run_from_bytes)
      Byte.x00 (Some empty_proof) = Some (CPU_VDF_SUCCESS, Some p)
    /\ challenge_prime_of (H := Reference.lib) 400 (- mpz_import bytes_23)
         (Reference.generator (- mpz_import bytes_23))
         (final_form run_from_bytes) 4 = Some l.
Proof.
  assert (Hgen : exists p,
             cpu_vdf_generate_proof (H := Reference.lib) 400
               (Some run_from_bytes) Byte.x00 (Some empty_proof)
             = Some (CPU_VDF_SUCCESS, Some p))
    by (eexists; vm_compute; reflexivity).
  destruct Hgen as [p Hgen]. exists p.
  destruct (generated_proof_is_checked_against_final_form
              (H := Reference.lib) 400 None 0 fresh_context
              started_from_bytes run_from_bytes bytes_23 None None 4
              Byte.x00 empty_proof p)
    as (l & pi & Hl & _);
    [vm_compute; reflexivity | vm_compute; reflexivity | lia
     | vm_compute; discriminate
     | apply context_of_returned; vm_compute; reflexivity
     | exact Hgen |].
  exists l. split; [exact Hgen | exact Hl].
Defined.
(** * The hash helper on long runs of equal bytes *)

Lemma u8_range (x : Z) : is_u8 (u8 x).
Proof. unfold is_u8, u8. change (2 ^ 8) with 256. apply Z.mod_pos_bound. lia. Qed.

Lemma u8_small (x : Z) : is_u8 x -> u8 x = x.
Proof. intros Hx. unfold u8. now apply Z.mod_small. Qed.

Lemma u8_lxor (a b : Z) : u8 (Z.lxor a b) = Z.lxor (u8 a) (u8 b).
Proof.
  unfold u8. apply Z.bits_inj'. intros n Hn.
  rewrite Z.lxor_spec.
  destruct (Z.ltb_spec n 8).
  - now rewrite !Z.mod_pow2_bits_low, Z.lxor_spec by lia.
  - now rewrite !Z.mod_pow2_bits_high by lia.
Qed.

Lemma lxor_u8 (a b : Z) : is_u8 a -> is_u8 b -> is_u8 (Z.lxor a b).
Proof.
  intros Ha Hb. rewrite <- (u8_small a Ha), <- (u8_small b Hb), <- u8_lxor.
  apply u8_range.
Qed.

Lemma u8_values_In (x : Z) : is_u8 x -> In x u8_values.
Proof.
  intros Hx. unfold u8_values. apply in_map_iff. exists (Z.to_nat x).
  split; [unfold is_u8 in Hx; lia|]. apply in_seq. unfold is_u8 in Hx. lia.
Qed.

Lemma hash_mix_linear (x y : Z) :
  is_u8 x -> is_u8 y ->
  hash_mix (Z.lxor x y) 0 = Z.lxor (hash_mix x 0) (hash_mix y 0).
Proof.
  intros Hx Hy.
  assert (Hall : forallb (fun x => forallb (fun y =>
             hash_mix (Z.lxor x y) 0 =? Z.lxor (hash_mix x 0) (hash_mix y 0))
             u8_values) u8_values = true) by (vm_compute; reflexivity).
  rewrite forallb_forall in Hall. specialize (Hall x (u8_values_In x Hx)).
  rewrite forallb_forall in Hall. specialize (Hall y (u8_values_In y Hy)).
  now apply Z.eqb_eq.
Qed.

Lemma hash_mix_eight (x : Z) :
  is_u8 x -> Nat.iter 8 (fun h => hash_mix h 0) x = x.
Proof.
  intros Hx.
  assert (Hall : forallb (fun x => Nat.iter 8 (fun h => hash_mix h 0) x =? x)
                   u8_values = true) by (vm_compute; reflexivity).
  rewrite forallb_forall in Hall. apply Z.eqb_eq, Hall, u8_values_In, Hx.
Qed.

Lemma hash_mix_range (h k : Z) : is_u8 (hash_mix h k).
Proof. apply u8_range. Qed.

Lemma hash_mix_key (h k : Z) : hash_mix h k = hash_mix (Z.lxor h k) 0.
Proof. unfold hash_mix. now rewrite Z.lxor_0_r. Qed.

Lemma hash_run_range (h : Z) (ks : list Z) : is_u8 h -> is_u8 (hash_run h ks).
Proof.
  unfold hash_run. revert h. induction ks as [|k ks IH]; intros h Hh;
    [exact Hh|].
  cbn [fold_left]. apply IH, hash_mix_range.
Qed.

Lemma hash_run_app (h : Z) (xs ys : list Z) :
  hash_run h (xs ++ ys) = hash_run (hash_run h xs) ys.
Proof. unfold hash_run. apply fold_left_app. Qed.

(** The state byte enters the result through rotations only. *)
Lemma hash_run_lxor (h a : Z) (ks : list Z) :
  is_u8 h -> is_u8 a -> Forall is_u8 ks ->
  hash_run (Z.lxor h a) ks
  = Z.lxor (hash_run h ks)
      (Nat.iter (length ks) (fun x => hash_mix x 0) a).
Proof.
  intros Hh Ha Hks. revert h a Hh Ha.
  induction Hks as [|k ks Hk Hks IH]; intros h a Hh Ha.
  - reflexivity.
  - unfold hash_run in *. cbn [fold_left length].
    rewrite Nat.iter_succ_r.
    rewrite <- IH by (apply hash_mix_range).
    f_equal.
    rewrite (hash_mix_key (Z.lxor h a) k), (hash_mix_key h k).
    rewrite <- hash_mix_linear by (try apply lxor_u8; assumption).
    f_equal. rewrite !Z.lxor_assoc. f_equal. apply Z.lxor_comm.
Qed.

Lemma hash_mix_iter_eight (m : nat) (x : Z) :
  is_u8 x -> Nat.iter (8 * m) (fun h => hash_mix h 0) x = x.
Proof.
  intros Hx. induction m as [|m IH]; [reflexivity|].
  replace (8 * S m)%nat with (8 + 8 * m)%nat by lia.
  rewrite Nat.iter_add, IH. now apply hash_mix_eight.
Qed.

(** A block of keys whose length is a multiple of eight, run twice, gives
    the state byte back. *)
Lemma hash_run_twice (m : nat) (h : Z) (ks : list Z) :
  is_u8 h -> Forall is_u8 ks -> length ks = (8 * m)%nat ->
  hash_run h (ks ++ ks) = h.
Proof.
  intros Hh Hks Hlen.
  assert (Hshift : forall x, is_u8 x ->
            hash_run x ks = Z.lxor (hash_run 0 ks) x).
  { intros x Hx. rewrite <- (Z.lxor_0_l x) at 1.
    rewrite hash_run_lxor by (try assumption; unfold is_u8; lia).
    now rewrite Hlen, hash_mix_iter_eight. }
  rewrite hash_run_app, (Hshift h Hh).
  rewrite Hshift by (apply lxor_u8; [apply hash_run_range; unfold is_u8; lia
                                    | exact Hh]).
  now rewrite <- Z.lxor_assoc, Z.lxor_nilpotent, Z.lxor_0_l.
Qed.

Lemma hash_keys_range (i j : Z) (data : list byte) :
  Forall is_u8 (hash_keys i j data).
Proof.
  revert j. induction data as [|d data IH]; intros j; cbn [hash_keys];
    constructor; [apply u8_range | apply IH].
Qed.

Lemma hash_keys_length (i j : Z) (data : list byte) :
  length (hash_keys i j data) = length data.
Proof.
  revert j. induction data as [|d data IH]; intros j; cbn [hash_keys length];
    [reflexivity | now rewrite IH].
Qed.

Lemma hash_keys_app (i j : Z) (xs ys : list byte) :
  hash_keys i j (xs ++ ys)
  = hash_keys i j xs ++ hash_keys i (j + Z.of_nat (length xs)) ys.
Proof.
  revert j. induction xs as [|x xs IH]; intros j.
  - cbn. now rewrite Z.add_0_r.
  - cbn [app hash_keys length]. rewrite IH. do 3 f_equal. lia.
Qed.

(** The keys depend on the position modulo 256 only. *)
Lemma hash_keys_period (i j m : Z) (data : list byte) :
  hash_keys i (j + 256 * m) data = hash_keys i j data.
Proof.
  revert j. induction data as [|d data IH]; intros j; [reflexivity|].
  cbn [hash_keys]. f_equal.
  - unfold u8. change (2 ^ 8) with 256.
    replace (byte.unsigned d + i + (j + 256 * m))
      with (byte.unsigned d + i + j + m * 256) by lia.
    apply Z.mod_add. lia.
  - replace (j + 256 * m + 1) with (j + 1 + 256 * m) by lia. apply IH.
Qed.

(** The loop of the hash helper, by its keys. *)
Lemma sha256_fold (i h j : Z) (data : list byte) :
  is_u8 h ->
  fold_left (sha256_step i) data (h, j)
  = (hash_run h (hash_keys i j data), j + Z.of_nat (length data)).
Proof.
  revert h j. induction data as [|d data IH]; intros h j Hh.
  - cbn. now rewrite Z.add_0_r.
  - cbn [fold_left hash_keys length]. unfold sha256_step at 2.
    assert (Hstep : u8 (Z.lor (Z.shiftl (u8 (Z.lxor h (byte.unsigned d + i + j))) 1)
                       (Z.shiftr (u8 (Z.lxor h (byte.unsigned d + i + j))) 7))
                    = hash_mix h (u8 (byte.unsigned d + i + j))).
    { unfold hash_mix. now rewrite u8_lxor, (u8_small h Hh). }
    rewrite Hstep, IH by apply hash_mix_range.
    unfold hash_run. cbn [fold_left]. f_equal. lia.
Qed.

(** 512 equal bytes leave the state byte as it was. *)
Lemma hash_keys_repeat_512 (i j : Z) (d : byte) (h : Z) :
  is_u8 h -> hash_run h (hash_keys i j (repeat d 512)) = h.
Proof.
  intros Hh.
  replace 512%nat with (256 + 256)%nat by reflexivity.
  rewrite repeat_app, hash_keys_app, repeat_length.
  change (Z.of_nat 256) with (256 * 1). rewrite hash_keys_period.
  apply (hash_run_twice 32); [exact Hh | apply hash_keys_range|].
  now rewrite hash_keys_length, repeat_length.
Qed.

Lemma hash_keys_repeat_blocks (n : nat) (i j : Z) (d : byte) (h : Z) :
  is_u8 h -> hash_run h (hash_keys i j (repeat d (512 * n))) = h.
Proof.
  revert j h. induction n as [|n IH]; intros j h Hh; [reflexivity|].
  replace (512 * S n)%nat with (512 + 512 * n)%nat by lia.
  rewrite repeat_app, hash_keys_app, hash_run_app, repeat_length.
  rewrite hash_keys_repeat_512 by exact Hh.
  change (Z.of_nat 512) with (256 * 2). rewrite hash_keys_period.
  now apply IH.
Qed.

(** A run of 512 n equal bytes can be left out of the hashed data. *)
Lemma sha256_skip_blocks (n : nat) (d : byte) (pre post : list byte) :
  sha256 (pre ++ repeat d (512 * n) ++ post) = sha256 (pre ++ post).
Proof.
  unfold sha256. apply map_ext. intros k. unfold sha256_byte. f_equal.
  rewrite !sha256_fold by apply u8_range. cbn [fst].
  rewrite !hash_keys_app, !hash_run_app.
  rewrite hash_keys_repeat_blocks by (apply hash_run_range, u8_range).
  rewrite repeat_length.
  replace (0 + Z.of_nat (length pre) + Z.of_nat (512 * n))
    with (0 + Z.of_nat (length pre) + 256 * (2 * Z.of_nat n)) by lia.
  now rewrite hash_keys_period.
Qed.

(** X31. The hash helper does not see a run of 512 equal bytes, nor of any
    multiple of 512: taking such a run out of the data, wherever it stands,
    leaves all 32 bytes of the hash as they were. In particular data that
    differ by leading runs of this kind have one hash. *)
Theorem sha256_ignores_runs_of_512 (n : nat) (d : byte)
  (pre post : list byte) :
  sha256 (pre ++ repeat d (512 * n) ++ post) = sha256 (pre ++ post)
  /\ sha256 (repeat d (512 * n) ++ post) = sha256 post.
Proof.
  split; [apply sha256_skip_blocks|].
  apply (sha256_skip_blocks n d [] post).
Qed.

(** * A coefficient longer than its length field *)

(** Two byte strings of one length with one value are equal. *)
Lemma mpz_import_inj (xs ys : list byte) :
  length xs = length ys -> mpz_import xs = mpz_import ys -> xs = ys.
Proof.
  revert ys. induction xs as [|x xs IH]; intros [|y ys] Hlen Himp;
    try discriminate; [reflexivity|].
  cbn [length] in Hlen. injection Hlen as Hlen.
  rewrite !mpz_import_cons, Hlen in Himp.
  pose proof (mpz_import_range xs) as Hxs. rewrite Hlen in Hxs.
  pose proof (mpz_import_range ys) as Hys.
  assert (Hp : 0 < 256 ^ Z.of_nat (length ys)) by (apply Z.pow_pos_nonneg; lia).
  assert (Hb : byte.unsigned x = byte.unsigned y) by nia.
  f_equal; [now apply byte.unsigned_inj|].
  apply IH; [exact Hlen | nia].
Qed.

(** Export after import gives the bytes back when the first is not zero. *)
Lemma mpz_export_import (b : byte) (bs : list byte) :
  byte.unsigned b <> 0 -> mpz_export (mpz_import (b :: bs)) = b :: bs.
Proof.
  intros Hb.
  pose proof (byte.unsigned_range b) as Hr. change (2 ^ 8) with 256 in Hr.
  pose proof (mpz_import_range bs) as Hbs.
  pose proof (mpz_import_range (b :: bs)) as Hall.
  set (n := Z.of_nat (length bs)) in *.
  assert (Hn : 0 <= n) by (subst n; lia).
  assert (Hp : 0 < 256 ^ n) by (apply Z.pow_pos_nonneg; lia).
  assert (Hlow : 256 ^ n <= mpz_import (b :: bs))
    by (rewrite mpz_import_cons; fold n; nia).
  assert (Hcount : mpz_export_count (mpz_import (b :: bs)) = S (length bs)).
  { unfold mpz_export_count.
    destruct (Z.eqb_spec (mpz_import (b :: bs)) 0); [lia|].
    rewrite Z.abs_eq by lia.
    assert (Hlog : 8 * n <= Z.log2 (mpz_import (b :: bs)) < 8 * (n + 1)).
    { split.
      - apply Z.log2_le_pow2; [lia|].
        rewrite Z.pow_mul_r by lia. exact Hlow.
      - apply Z.log2_lt_pow2; [lia|].
        rewrite Z.pow_mul_r by lia. change (2 ^ 8) with 256.
        cbn [length] in Hall. rewrite Nat2Z.inj_succ in Hall. fold n in Hall.
        unfold Z.succ in Hall. lia. }
    assert (Hq : Z.log2 (mpz_import (b :: bs)) / 8 = n).
    { symmetry.
      apply Z.div_unique with (r := Z.log2 (mpz_import (b :: bs)) - 8 * n);
        lia. }
    rewrite Hq. subst n. lia. }
  apply mpz_import_inj.
  - now rewrite mpz_export_length, Hcount.
  - rewrite mpz_import_export. lia.
Qed.

Lemma mpz_import_ones (n : nat) :
  mpz_import (repeat Byte.xff n) = 256 ^ Z.of_nat n - 1.
Proof.
  induction n as [|n IH]; [reflexivity|].
  cbn [repeat]. rewrite mpz_import_cons, IH, repeat_length.
  rewrite Nat2Z.inj_succ, Z.pow_succ_r by lia.
  change (byte.unsigned Byte.xff) with 255. lia.
Qed.

Lemma wide_magnitude :
  mpz_import wide_bytes = 4 * 256 ^ 65535 - 1.
Proof.
  unfold wide_bytes. rewrite mpz_import_cons, mpz_import_ones, repeat_length.
  rewrite Z2Nat.id by lia. change (byte.unsigned Byte.x03) with 3.
  generalize (256 ^ 65535). intros P. lia.
Qed.

Lemma wide_coefficient :
  mpz_import wide_coefficient_bytes = 256 ^ 65535.
Proof.
  unfold wide_coefficient_bytes.
  rewrite mpz_import_cons, mpz_import_zeros, repeat_length.
  rewrite Z2Nat.id by lia. change (byte.unsigned Byte.x01) with 1.
  generalize (256 ^ 65535). intros P. lia.
Qed.

(** The reference library on the principal form (1, 1, c). *)
Lemma reference_reduce_principal (c : Z) :
  1 <= c -> Reference.reduce (Form.mk 1 1 c) = Form.mk 1 1 c.
Proof.
  intros Hc. unfold Reference.reduce.
  change (Reference.normalize (Form.mk 1 1 c)) with (Form.mk 1 1 c).
  generalize (Z.to_nat (2 * Z.log2 (Z.abs (Form.a (Form.mk 1 1 c))
                                    + Z.abs (Form.c (Form.mk 1 1 c))) + 8)).
  intros fuel.
  assert (Hloop : Reference.reduce_loop fuel (Form.mk 1 1 c) = Form.mk 1 1 c).
  { destruct fuel as [|fuel]; [reflexivity|]. cbn [Reference.reduce_loop].
    destruct (Z.ltb_spec c 1); [lia|].
    change (1 <? 0) with false. now rewrite andb_false_r. }
  rewrite Hloop. reflexivity.
Qed.

Lemma reference_generator (D : Z) :
  D <= -3 -> D mod 4 = 1 ->
  Reference.generator D = Form.mk 1 1 ((1 - D) / 4).
Proof.
  intros HD Hmod. unfold Reference.generator, Reference.from_abd.
  change (1 * 1 - D) with (1 - D). change (4 * 1) with 4.
  apply reference_reduce_principal.
  apply Z.div_le_lower_bound; lia.
Qed.

Lemma reference_square_principal (c : Z) :
  1 <= c -> Reference.square (Form.mk 1 1 c) = Form.mk 1 1 c.
Proof.
  intros Hc. unfold Reference.square, Reference.compose.
  cbn [Form.a Form.b Form.c].
  change (1 <? 1) with false. cbv iota beta.
  change (1 mod 1 =? 0) with true. cbv iota beta.
  change ((1 + 1) / 2) with 1.
  change (1 mod 1 =? 0) with true. cbv iota beta.
  change (1 / 1) with 1.
  unfold Reference.disc. cbn [Form.a Form.b Form.c].
  replace ((0 * -1 * (1 - 1) - 0 * c) mod 1) with 0
    by (now rewrite Z.mod_1_r).
  change (1 + 2 * 1 * 0) with 1. change (1 * 1) with 1.
  replace ((1 - (1 - 4 * 1 * c)) / (4 * 1)) with c.
  - now apply reference_reduce_principal.
  - replace (1 - (1 - 4 * 1 * c)) with (c * 4) by lia.
    change (4 * 1) with 4. now rewrite Z.div_mul by lia.
Qed.

Lemma reference_check_valid_principal (c : Z) :
  1 <= c -> Reference.check_valid (Form.mk 1 1 c) (1 - 4 * c) = true.
Proof.
  intros Hc. unfold Reference.check_valid, Reference.disc.
  cbn [Form.a Form.b Form.c].
  replace (1 * 1 - 4 * 1 * c) with (1 - 4 * c) by lia.
  rewrite Z.eqb_refl. change (0 <? 1) with true. cbn [andb].
  apply Z.ltb_lt. lia.
Qed.

(** A start from bytes whose adjusted discriminant is 1 - 4c. *)
Lemma start_on_principal (cfg : cpu_vdf_config_t) (dbytes : list byte)
  (c iterations : Z) :
  dbytes <> [] -> iterations <> 0 -> 1 <= c ->
  import_discriminant dbytes = 1 - 4 * c ->
  cpu_vdf_start_computation_with_discriminant (H := Reference.lib)
    (cpu_vdf_create (Some cfg)) (Some dbytes) None iterations
  = (CPU_VDF_SUCCESS,
     Some (mk_context cfg CPU_VDF_STATE_IDLE 0 iterations (1 - 4 * c)
             (Form.mk 1 1 c) (Form.mk 1 1 c) Form.zero false 0 0 [] 0
             (0 <? segment_size cfg) false)).
Proof.
  intros Hne Hit Hc HD.
  unfold cpu_vdf_start_computation_with_discriminant, cpu_vdf_create.
  destruct dbytes as [|b0 bs]; [congruence|].
  replace (Z.of_nat (length (b0 :: bs)) =? 0) with false
    by (symmetry; apply Z.eqb_neq; cbn [length]; lia).
  replace (iterations =? 0) with false by (symmetry; now apply Z.eqb_neq).
  cbn [orb state state_eqb discriminant set_discriminant].
  rewrite HD.
  destruct (Z.leb_spec 0 (1 - 4 * c)); [lia|].
  cbn [set_initial_form initial_form discriminant generator Reference.lib].
  rewrite reference_generator;
    [|lia|replace (1 - 4 * c) with (1 + (- c) * 4) by lia;
          now rewrite Z.mod_add by lia].
  replace ((1 - (1 - 4 * c)) / 4) with c
    by (replace (1 - (1 - 4 * c)) with (c * 4) by lia;
        now rewrite Z.div_mul by lia).
  cbn [check_valid Reference.lib].
  rewrite reference_check_valid_principal by exact Hc.
  reflexivity.
Qed.

(** One iteration without checkpoints, for any library. *)
Lemma one_iteration_run `{VdfLib} (cfg : cpu_vdf_config_t) (D : Z)
  (x z : form) (now : Z) :
  vdf_computation_thread 400 None now
    (mk_context cfg CPU_VDF_STATE_IDLE 0 1 D x x z false 0 0 [] 0 false
       false)
  = Some (mk_context cfg CPU_VDF_STATE_COMPLETED 1 1 D x (square x)
            (square x) false now 0 [] 0 false false).
Proof. reflexivity. Qed.

Lemma mpz_export_opp (z : Z) : mpz_export (- z) = mpz_export z.
Proof. now rewrite <- (mpz_export_abs (- z)), Z.abs_opp, mpz_export_abs. Qed.

Lemma wide_coefficient_pos : 1 <= mpz_import wide_coefficient_bytes.
Proof.
  rewrite wide_coefficient.
  pose proof (Z.pow_pos_nonneg 256 65535 ltac:(lia) ltac:(lia)) as Hp.
  revert Hp. generalize (256 ^ 65535). intros P Hp. lia.
Qed.

Lemma wide_import_discriminant :
  import_discriminant wide_bytes = 1 - 4 * mpz_import wide_coefficient_bytes.
Proof.
  unfold import_discriminant. rewrite wide_magnitude, wide_coefficient.
  generalize (256 ^ 65535). intros P.
  replace (- (4 * P - 1)) with (1 + (- P) * 4) by lia.
  rewrite Z.mod_add by lia. change (1 mod 4 =? 1) with true.
  cbv iota. lia.
Qed.

Lemma wide_discriminant_bytes :
  1 - 4 * mpz_import wide_coefficient_bytes = - mpz_import wide_bytes.
Proof.
  rewrite wide_magnitude, wide_coefficient.
  generalize (256 ^ 65535). intros P. lia.
Qed.

Lemma wide_started_fields :
  cpu_vdf_start_computation_with_discriminant (H := Reference.lib)
    (cpu_vdf_create (Some plain_config)) (Some wide_bytes) None 1
  = (CPU_VDF_SUCCESS, Some wide_started)
  /\ wide_started
     = mk_context plain_config CPU_VDF_STATE_IDLE 0 1
         (- mpz_import wide_bytes)
         (Form.mk 1 1 (mpz_import wide_coefficient_bytes))
         (Form.mk 1 1 (mpz_import wide_coefficient_bytes))
         Form.zero false 0 0 [] 0 false false.
Proof.
  pose proof (start_on_principal plain_config wide_bytes
                (mpz_import wide_coefficient_bytes) 1
                ltac:(discriminate) ltac:(discriminate)
                wide_coefficient_pos wide_import_discriminant) as Hstart.
  rewrite wide_discriminant_bytes in Hstart.
  change (0 <? segment_size plain_config) with false in Hstart.
  assert (Hctx : wide_started
                 = mk_context plain_config CPU_VDF_STATE_IDLE 0 1
                     (- mpz_import wide_bytes)
                     (Form.mk 1 1 (mpz_import wide_coefficient_bytes))
                     (Form.mk 1 1 (mpz_import wide_coefficient_bytes))
                     Form.zero false 0 0 [] 0 false false).
  { unfold wide_started. rewrite Hstart. reflexivity. }
  split; [|exact Hctx]. rewrite Hctx. exact Hstart.
Qed.

Lemma wide_run_fields :
  vdf_computation_thread (H := Reference.lib) 400 None 0 wide_started
  = Some wide_run
  /\ wide_run
     = mk_context plain_config CPU_VDF_STATE_COMPLETED 1 1
         (- mpz_import wide_bytes)
         (Form.mk 1 1 (mpz_import wide_coefficient_bytes))
         (Form.mk 1 1 (mpz_import wide_coefficient_bytes))
         (Form.mk 1 1 (mpz_import wide_coefficient_bytes))
         false 0 0 [] 0 false false.
Proof.
  destruct wide_started_fields as [_ Hstarted].
  assert (Hrun : vdf_computation_thread (H := Reference.lib) 400 None 0
                   wide_started
                 = Some (mk_context plain_config CPU_VDF_STATE_COMPLETED 1 1
                           (- mpz_import wide_bytes)
                           (Form.mk 1 1 (mpz_import wide_coefficient_bytes))
                           (Form.mk 1 1 (mpz_import wide_coefficient_bytes))
                           (Form.mk 1 1 (mpz_import wide_coefficient_bytes))
                           false 0 0 [] 0 false false)).
  { rewrite Hstarted, one_iteration_run.
    change (@square Reference.lib) with Reference.square.
    now rewrite reference_square_principal by apply wide_coefficient_pos. }
  assert (Hctx : wide_run
                 = mk_context plain_config CPU_VDF_STATE_COMPLETED 1 1
                     (- mpz_import wide_bytes)
                     (Form.mk 1 1 (mpz_import wide_coefficient_bytes))
                     (Form.mk 1 1 (mpz_import wide_coefficient_bytes))
                     (Form.mk 1 1 (mpz_import wide_coefficient_bytes))
                     false 0 0 [] 0 false false).
  { unfold wide_run. rewrite Hrun. reflexivity. }
  split; [|exact Hctx]. rewrite Hctx. exact Hrun.
Qed.

(** A run of 65535 equal bytes hashes as one of 511. *)
Lemma sha256_skip_run (d : byte) (pre post : list byte) :
  sha256 (pre ++ repeat d (Z.to_nat 65535) ++ post)
  = sha256 (pre ++ repeat d 511 ++ post).
Proof.
  replace (Z.to_nat 65535) with (512 * 127 + 511)%nat by reflexivity.
  rewrite repeat_app, <- app_assoc. apply sha256_skip_blocks.
Qed.

Lemma wide_challenge_hash :
  sha256
    (challenge_data (- mpz_import wide_bytes)
       (Form.mk 1 1 (mpz_import wide_coefficient_bytes))
       (Form.mk 1 1 (mpz_import wide_coefficient_bytes)) 1)
  = [Byte.xd1; Byte.x5d; Byte.x1f; Byte.xf7; Byte.xb6; Byte.x34; Byte.x74;
     Byte.xd0; Byte.xb0; Byte.x31; Byte.x77; Byte.x87; Byte.xc6; Byte.x45;
     Byte.x85; Byte.xa0; Byte.xc0; Byte.x42; Byte.x00; Byte.xe8; Byte.xe9;
     Byte.x6b; Byte.xab; Byte.x0e; Byte.x6c; Byte.xe9; Byte.xa7; Byte.x67;
     Byte.x66; Byte.xe7; Byte.xa6; Byte.x81].
Proof.
  unfold challenge_data, serialize_form. cbn [Form.a Form.b Form.c].
  rewrite mpz_export_opp.
  unfold wide_bytes at 1, wide_coefficient_bytes.
  rewrite !mpz_export_import by discriminate.
  change (mpz_export 1) with [Byte.x01].
  set (N := Z.to_nat 65535).
  replace ((Byte.x03 :: repeat Byte.xff N)
           ++ ([Byte.x01] ++ [Byte.x01] ++ Byte.x01 :: repeat Byte.x00 N)
           ++ ([Byte.x01] ++ [Byte.x01] ++ Byte.x01 :: repeat Byte.x00 N)
           ++ be_bytes 8 1)
    with ([Byte.x03] ++ repeat Byte.xff N
          ++ ([Byte.x01; Byte.x01; Byte.x01] ++ repeat Byte.x00 N
              ++ [Byte.x01; Byte.x01; Byte.x01] ++ repeat Byte.x00 N
              ++ be_bytes 8 1))
    by (cbn [app]; rewrite <- ?app_assoc; reflexivity).
  subst N. rewrite sha256_skip_run.
  rewrite (app_assoc [Byte.x03]), (app_assoc _ [Byte.x01; Byte.x01; Byte.x01]).
  rewrite sha256_skip_run.
  rewrite (app_assoc _ (repeat Byte.x00 511)),
    (app_assoc _ [Byte.x01; Byte.x01; Byte.x01]).
  rewrite sha256_skip_run.
  vm_compute. reflexivity.
Qed.

Lemma wide_prime_found :
  NextPrime (H := Reference.lib) 400
    (Z.setbit
       (mpz_import
          [Byte.xd1; Byte.x5d; Byte.x1f; Byte.xf7; Byte.xb6; Byte.x34;
           Byte.x74; Byte.xd0; Byte.xb0; Byte.x31; Byte.x77; Byte.x87;
           Byte.xc6; Byte.x45; Byte.x85; Byte.xa0; Byte.xc0; Byte.x42;
           Byte.x00; Byte.xe8; Byte.xe9; Byte.x6b; Byte.xab; Byte.x0e;
           Byte.x6c; Byte.xe9; Byte.xa7; Byte.x67; Byte.x66; Byte.xe7;
           Byte.xa6; Byte.x81]) 263)
  = Some wide_prime.
Proof. vm_compute. reflexivity. Qed.

Lemma wide_coefficient_export :
  mpz_export (mpz_import wide_coefficient_bytes) = wide_coefficient_bytes.
Proof. unfold wide_coefficient_bytes. now apply mpz_export_import. Qed.

Lemma wide_coefficient_length :
  Z.of_nat (length wide_coefficient_bytes) = 65536.
Proof.
  unfold wide_coefficient_bytes. cbn [length].
  rewrite repeat_length, Nat2Z.inj_succ, Z2Nat.id by lia. reflexivity.
Qed.

Lemma wide_proof :
  cpu_vdf_generate_proof (H := Reference.lib) 400 (Some wide_run) Byte.x00
    (Some empty_proof)
  = Some (CPU_VDF_SUCCESS,
          Some (mk_proof
                  (Some (proof_blob Byte.x00 1 wide_prime
                           (Form.mk 1 1 (mpz_import wide_coefficient_bytes))))
                  1 true Byte.x00)).
Proof.
  destruct wide_run_fields as [_ ->].
  unfold cpu_vdf_generate_proof.
  cbn [state state_eqb negb discriminant initial_form final_form
       target_iterations].
  unfold challenge_prime_of. rewrite wide_challenge_hash, wide_prime_found.
  change (2 ^ 1 / wide_prime) with 0.
  change (@FastPowFormNucomp Reference.lib) with Reference.FastPowFormNucomp.
  unfold Reference.FastPowFormNucomp.
  rewrite <- wide_discriminant_bytes.
  pose proof wide_coefficient_pos as Hc. revert Hc.
  generalize (mpz_import wide_coefficient_bytes). intros c Hc.
  rewrite reference_generator;
    [|lia|replace (1 - 4 * c) with (1 + (- c) * 4) by lia;
          now rewrite Z.mod_add by lia].
  replace (1 - (1 - 4 * c)) with (c * 4) by lia.
  now rewrite Z.div_mul by lia.
Qed.

Lemma wide_blob :
  proof_blob Byte.x00 1 wide_prime
    (Form.mk 1 1 (mpz_import wide_coefficient_bytes))
  = proof_layout Byte.x00 1 (mpz_export wide_prime) [Byte.x01] [Byte.x01] []
    ++ wide_coefficient_bytes.
Proof.
  rewrite proof_blob_layout. cbn [Form.a Form.b Form.c].
  rewrite wide_coefficient_export. unfold proof_layout.
  change (mpz_export 1) with [Byte.x01].
  unfold length_prefix at 3 6. rewrite wide_coefficient_length.
  rewrite <- !app_assoc. reflexivity.
Qed.

(** The blob the prover writes for the run of one iteration on the
    discriminant of 65536 bytes. *)
Lemma wide_blob_bytes :
  proof_blob Byte.x00 1 wide_prime
    (Form.mk 1 1 (mpz_import wide_coefficient_bytes))
  = [Byte.x02; Byte.x00] ++ be_bytes 8 1
    ++ [byte.of_Z 33] ++ mpz_export wide_prime
    ++ [Byte.x00; Byte.x01; Byte.x01]
    ++ [Byte.x00; Byte.x01; Byte.x01]
    ++ [Byte.x00; Byte.x00] ++ wide_coefficient_bytes.
Proof. rewrite wide_blob. unfold proof_layout. now rewrite <- !app_assoc. Qed.

Lemma wide_parse :
  parse_proof
    (proof_blob Byte.x00 1 wide_prime
       (Form.mk 1 1 (mpz_import wide_coefficient_bytes))) 1 Byte.x00
  = Some (wide_prime, Form.mk 1 1 0).
Proof.
  rewrite wide_blob, parse_proof_layout;
    [|lia | vm_compute; reflexivity | vm_compute; reflexivity
     | vm_compute; reflexivity | vm_compute; reflexivity].
  rewrite mpz_import_export. reflexivity.
Qed.

Lemma wide_verify :
  cpu_vdf_verify_proof (H := Reference.lib) (Some wide_bytes) None
    (Some (mk_proof
             (Some (proof_blob Byte.x00 1 wide_prime
                      (Form.mk 1 1 (mpz_import wide_coefficient_bytes))))
             1 true Byte.x00)) 1 Byte.x00
  = Some false.
Proof.
  unfold cpu_vdf_verify_proof. cbn [proof_data].
  pose proof (proof_blob_length Byte.x00 1 wide_prime
                (Form.mk 1 1 (mpz_import wide_coefficient_bytes))) as Hlen.
  destruct (Z.ltb_spec
              (Z.of_nat (length (proof_blob Byte.x00 1 wide_prime
                 (Form.mk 1 1 (mpz_import wide_coefficient_bytes))))) 10);
    [lia|].
  rewrite wide_parse. unfold wesolowski_check.
  change (@check_valid Reference.lib) with Reference.check_valid.
  unfold Reference.check_valid, Reference.disc. cbn [Form.a Form.b Form.c].
  change (0 <? 0) with false. now rewrite andb_false_r.
Qed.

(** C4, the claim as written fails. A run of one iteration on the
    discriminant whose magnitude is the 65536 bytes 03 ff ... ff completes
    with the principal form, whose third coefficient 256^65535 takes 65536
    bytes. The blob [cpu_vdf_generate_proof] writes for it announces that
    coefficient with the two length bytes 00 00, not with its length, and
    [cpu_vdf_verify_proof] reads the coefficient as 0 and rejects the
    proof. *)
Lemma long_coefficient_length_wraps :
  cpu_vdf_start_computation_with_discriminant (H := Reference.lib)
    (cpu_vdf_create (Some plain_config)) (Some wide_bytes) None 1
  = (CPU_VDF_SUCCESS, Some wide_started)
  /\ vdf_computation_thread (H := Reference.lib) 400 None 0 wide_started
     = Some wide_run
  /\ exists p' data,
       cpu_vdf_generate_proof (H := Reference.lib) 400 (Some wide_run)
         Byte.x00 (Some empty_proof) = Some (CPU_VDF_SUCCESS, Some p')
       /\ proof_data p' = Some data
       /\ data
          = [Byte.x02; Byte.x00] ++ be_bytes 8 1
            ++ [byte.of_Z 33] ++ mpz_export wide_prime
            ++ [Byte.x00; Byte.x01; Byte.x01]
            ++ [Byte.x00; Byte.x01; Byte.x01]
            ++ [Byte.x00; Byte.x00] ++ wide_coefficient_bytes
       /\ Z.of_nat (length wide_coefficient_bytes) = 65536
       /\ parse_proof data 1 Byte.x00 = Some (wide_prime, Form.mk 1 1 0)
       /\ cpu_vdf_verify_proof (H := Reference.lib) (Some wide_bytes) None
            (Some p') 1 Byte.x00 = Some false.
Proof.
  split; [apply wide_started_fields|]. split; [apply wide_run_fields|].
  eexists. eexists. split; [apply wide_proof|].
  cbn [proof_data]. split; [reflexivity|].
  split; [apply wide_blob_bytes|]. split; [apply wide_coefficient_length|].
  split; [apply wide_parse | apply wide_verify].
Qed.
